(** * cmake_index.nvim: the index, the header heuristics and the server client

    A shallow embedding of [rplugin/python3/cmake_index/index.py],
    of the request loop and the start-up wait of
    [rplugin/python3/cmake_index/server.py], and of
    [Plugin.generate_compilation_database] in
    [rplugin/python3/cmake_index/__init__.py].

    Python dictionaries keep insertion order and the code iterates over
    them, so they are association lists with the in-place update of
    [d[k] = v].  Exceptions are values of [exn]; a function that can raise
    returns a [Result].  The operating system (working directory, which
    paths are regular files, what reading a file yields) is a record [Env]
    every function that touches it takes as an argument. *)

From Stdlib Require Import String Ascii List Bool Arith Lia ZArith DecimalString.
Import ListNotations.

Open Scope string_scope.
Open Scope list_scope.

Set Implicit Arguments.

(** ** Exceptions and results *)

Inductive exn : Type :=
| KeyError (key : string)
| IndexError
| IOError               (* OSError and every subclass of it *)
| UnicodeDecodeError
| ValueError
| MemoryError
| CmakeError (msg : string).

Inductive Result (A : Type) : Type :=
| Ok (a : A)
| Raise (e : exn).

Arguments Ok {A} a.
Arguments Raise {A} e.

Definition bind {A B : Type} (r : Result A) (k : A -> Result B) : Result B :=
  match r with
  | Ok a => k a
  | Raise e => Raise e
  end.

Notation "x <- r ;; k" := (bind r (fun x => k))
  (at level 61, r at next level, right associativity).

(** [[f(x) for x in xs]] for an [f] that can raise: the first exception,
    in list order, ends the comprehension. *)
Fixpoint mapM {A B : Type} (f : A -> Result B) (xs : list A) : Result (list B) :=
  match xs with
  | [] => Ok []
  | x :: xs' =>
      y <- f x ;;
      ys <- mapM f xs' ;;
      Ok (y :: ys)
  end.

(** ** Python's [str] methods the code uses *)

Module Str.

Definition cat (a b : string) : string := (a ++ b)%string.

(** [str.isspace] on the code points below 128. *)
Definition isspace (c : ascii) : bool :=
  let n := nat_of_ascii c in
  (((9 <=? n) && (n <=? 13)) || ((28 <=? n) && (n <=? 32)))%nat.

Fixpoint lstrip (s : string) : string :=
  match s with
  | String c s' => if isspace c then lstrip s' else s
  | EmptyString => EmptyString
  end.

Definition startswith (s p : string) : bool := String.prefix p s.

Definition is_empty (s : string) : bool :=
  match s with EmptyString => true | _ => false end.

Fixpoint split_from (s cur : string) : list string :=
  match s with
  | EmptyString => if is_empty cur then [] else [cur]
  | String c s' =>
      if isspace c
      then (if is_empty cur then split_from s' EmptyString else cur :: split_from s' EmptyString)
      else split_from s' (cat cur (String c EmptyString))
  end.

(** [s.split()]: the maximal runs of non-blank characters. *)
Definition split (s : string) : list string := split_from s EmptyString.

Fixpoint split_sep_from (sep : ascii) (s cur : string) : list string :=
  match s with
  | EmptyString => [cur]
  | String c s' =>
      if Ascii.eqb c sep
      then cur :: split_sep_from sep s' EmptyString
      else split_sep_from sep s' (cat cur (String c EmptyString))
  end.

(** [s.split(sep)]: empty pieces are kept. *)
Definition split_sep (sep : ascii) (s : string) : list string :=
  split_sep_from sep s EmptyString.

(** [sep.join(xs)]. *)
Fixpoint join (sep : string) (xs : list string) : string :=
  match xs with
  | [] => EmptyString
  | [x] => x
  | x :: xs' => cat x (cat sep (join sep xs'))
  end.

Definition tail (s : string) : string :=
  match s with String _ s' => s' | EmptyString => EmptyString end.

Fixpoint init (s : string) : string :=
  match s with
  | EmptyString => EmptyString
  | String _ EmptyString => EmptyString
  | String c s' => String c (init s')
  end.

(** [s[1:-1]]: slicing never raises. *)
Definition slice_1_m1 (s : string) : string := init (tail s).

Fixpoint rstrip_char (c : ascii) (s : string) : string :=
  match s with
  | EmptyString => EmptyString
  | String d s' =>
      match rstrip_char c s' with
      | EmptyString => if Ascii.eqb d c then EmptyString else String d EmptyString
      | r => String d r
      end
  end.

Fixpoint all_char (c : ascii) (s : string) : bool :=
  match s with
  | EmptyString => true
  | String d s' => Ascii.eqb d c && all_char c s'
  end.

Fixpoint endswith_char (c : ascii) (s : string) : bool :=
  match s with
  | EmptyString => false
  | String d EmptyString => Ascii.eqb d c
  | String _ s' => endswith_char c s'
  end.

(** [str(x)] and [format] of a value that may be [None]. *)
Definition of_option (o : option string) : string :=
  match o with Some s => s | None => "None" end.

End Str.

(** ** [os.path] on POSIX *)

Module Path.

Definition sep : ascii := "/"%char.

Definition isabs (p : string) : bool := Str.startswith p "/".

(** [os.path.join(a, b)]. *)
Definition join (a b : string) : string :=
  if Str.startswith b "/" then b
  else if Str.is_empty a || Str.endswith_char sep a then Str.cat a b
  else Str.cat a (String sep b).

(** [(p[:i], p[i:])] for [i = p.rfind('/') + 1]. *)
Fixpoint rsplit_sep (p : string) : string * string :=
  match p with
  | EmptyString => (EmptyString, EmptyString)
  | String c r =>
      let (h, t) := rsplit_sep r in
      if negb (Str.is_empty h) then (String c h, t)
      else if Ascii.eqb c sep then (String c EmptyString, r)
      else (EmptyString, String c t)
  end.

(** [os.path.split(p)]. *)
Definition split (p : string) : string * string :=
  let (h, t) := rsplit_sep p in
  if negb (Str.is_empty h) && negb (Str.all_char sep h)
  then (Str.rstrip_char sep h, t)
  else (h, t).

Definition dirname (p : string) : string := fst (split p).

(** [t = a ++ "." ++ b] with no dot in [b], when [t] has a dot. *)
Fixpoint rsplit_dot (t : string) : option (string * string) :=
  match t with
  | EmptyString => None
  | String c r =>
      match rsplit_dot r with
      | Some (a, b) => Some (String c a, b)
      | None => if Ascii.eqb c "."%char then Some (EmptyString, r) else None
      end
  end.

(** [os.path.splitext(p)]: the extension starts at the last dot of the
    last component, unless only dots precede it there. *)
Definition splitext (p : string) : string * string :=
  let (h, t) := rsplit_sep p in
  match rsplit_dot t with
  | Some (a, b) =>
      if Str.all_char "."%char a then (p, EmptyString)
      else (Str.cat h a, String "."%char b)
  | None => (p, EmptyString)
  end.

Definition is_dotdot (c : string) : bool := String.eqb c "..".

(** The loop of [normpath] over the components, [acc] in reverse. *)
Fixpoint norm_comps (initial_slashes : nat) (comps acc : list string) : list string :=
  match comps with
  | [] => rev acc
  | c :: cs =>
      if String.eqb c EmptyString || String.eqb c "." then norm_comps initial_slashes cs acc
      else if negb (is_dotdot c)
              || ((initial_slashes =? 0)%nat && match acc with [] => true | _ => false end)
              || match acc with a :: _ => is_dotdot a | [] => false end
      then norm_comps initial_slashes cs (c :: acc)
      else norm_comps initial_slashes cs (List.tl acc)
  end.

Definition normpath (p : string) : string :=
  if Str.is_empty p then "." else
  let initial_slashes :=
    if Str.startswith p "/"
    then (if Str.startswith p "//" && negb (Str.startswith p "///") then 2 else 1)
    else 0 in
  let body := Str.join "/" (norm_comps initial_slashes (Str.split_sep sep p) []) in
  let r := match initial_slashes with
           | 0 => body
           | 1 => Str.cat "/" body
           | _ => Str.cat "//" body
           end in
  if Str.is_empty r then "." else r.

Definition abspath (cwd p : string) : string :=
  normpath (if isabs p then p else join cwd p).

Fixpoint common_prefix_len (xs ys : list string) : nat :=
  match xs, ys with
  | x :: xs', y :: ys' => if String.eqb x y then S (common_prefix_len xs' ys') else 0
  | _, _ => 0
  end.

Definition nonempty_comps (p : string) : list string :=
  filter (fun x => negb (Str.is_empty x)) (Str.split_sep sep p).

(** [os.path.relpath(path, start)]; an empty [path] is a [ValueError]. *)
Definition relpath (cwd path start : string) : Result string :=
  if Str.is_empty path then Raise ValueError else
  let start_list := nonempty_comps (abspath cwd start) in
  let path_list := nonempty_comps (abspath cwd path) in
  let i := common_prefix_len start_list path_list in
  let rel_list := repeat ".." (length start_list - i) ++ skipn i path_list in
  match rel_list with
  | [] => Ok "."
  | c :: cs => Ok (fold_left join cs c)
  end.

End Path.

(** ** Insertion-ordered dictionaries with string keys *)

Module Dict.
Section Dict.

Variable V : Type.

Definition t : Type := list (string * V).

Definition empty : t := [].

(** [d.get(k, None)]; with unique keys, the entry under [k]. *)
Fixpoint get (d : t) (k : string) : option V :=
  match d with
  | [] => None
  | (k', v) :: d' => if String.eqb k k' then Some v else get d' k
  end.

(** [k in d]. *)
Definition mem (d : t) (k : string) : bool :=
  match get d k with Some _ => true | None => false end.

(** [d[k] = v]: a present key keeps its place, a new one goes last. *)
Fixpoint set (d : t) (k : string) (v : V) : t :=
  match d with
  | [] => [(k, v)]
  | (k', v') :: d' =>
      if String.eqb k k' then (k, v) :: d' else (k', v') :: set d' k v
  end.

Definition keys (d : t) : list string := map fst d.
Definition values (d : t) : list V := map snd d.
Definition items (d : t) : list (string * V) := d.

(** [d.update(other)]. *)
Definition update (d other : t) : t :=
  fold_left (fun acc kv => set acc (fst kv) (snd kv)) other d.

(** [dict(pairs)]. *)
Definition of_pairs (pairs : list (string * V)) : t := update empty pairs.

End Dict.
End Dict.

(** ** The operating system, as the code observes it *)

Record Env : Type := {
  getcwd : string;                           (* os.getcwd() *)
  isfile : string -> bool;                   (* os.path.isfile *)
  read_lines : string -> Result (list string)
    (* [open(path, 'r')] followed by the iteration over its lines: the lines,
       or the exception one of the two raises *)
}.

Definition abspath (env : Env) (p : string) : string := Path.abspath (getcwd env) p.

(** ** The entities of the index *)

(** A file record.  [object_file] is set by [convert_file_info] only;
    [source_file] and [header_file] by the header heuristics only: an absent
    key is [None]. *)
Module File.
Record t : Type := {
  path : string;
  target_name : string;
  tree_root_dir : string;
  tree_build_dir : string;
  lang : option string;
  heuristics : bool;
  other_flags : list string;
  defines : list string;
  includes : list string;
  flags : list string;
  object_file : option string;
  source_file : option string;
  header_file : option string
}.

(** [result = file_info.copy()] followed by the three assignments of
    [match_header]. *)
Definition as_header_of (f : t) (header_path : string) : t :=
  {| path := header_path; target_name := target_name f;
     tree_root_dir := tree_root_dir f; tree_build_dir := tree_build_dir f;
     lang := lang f; heuristics := true; other_flags := other_flags f;
     defines := defines f; includes := includes f; flags := flags f;
     object_file := object_file f; source_file := Some (path f);
     header_file := header_file f |}.

(** [file.copy()] followed by [['header_file'] = header_path]. *)
Definition with_header_file (f : t) (header_path : string) : t :=
  {| path := path f; target_name := target_name f;
     tree_root_dir := tree_root_dir f; tree_build_dir := tree_build_dir f;
     lang := lang f; heuristics := heuristics f; other_flags := other_flags f;
     defines := defines f; includes := includes f; flags := flags f;
     object_file := object_file f; source_file := source_file f;
     header_file := Some header_path |}.
End File.

(** A target record.  [object_dir] is set by [convert_target_info] only. *)
Module Target.
Record t : Type := {
  name : string;
  squashed : bool;
  type : string;
  tree_root_dir : string;
  tree_build_dir : string;
  build_dir : string;
  source_dir : string;
  link_lang : option string;
  result_name : option string;
  artifacts : list string;
  filepaths : list string;
  all_includes : list string;
  all_defines : list string;
  all_other_flags : list string;
  all_flags : list string;
  object_dir : option string
}.

(** [target['filepaths'].append(p)]. *)
Definition append_filepath (tg : t) (p : string) : t :=
  {| name := name tg; squashed := squashed tg; type := type tg;
     tree_root_dir := tree_root_dir tg; tree_build_dir := tree_build_dir tg;
     build_dir := build_dir tg; source_dir := source_dir tg;
     link_lang := link_lang tg; result_name := result_name tg;
     artifacts := artifacts tg; filepaths := filepaths tg ++ [p];
     all_includes := all_includes tg; all_defines := all_defines tg;
     all_other_flags := all_other_flags tg; all_flags := all_flags tg;
     object_dir := object_dir tg |}.

(** One round of the accumulation loop of [convert_target_info]. *)
Definition add_group (tg : t) (paths : list string) (first : File.t) : t :=
  {| name := name tg; squashed := squashed tg; type := type tg;
     tree_root_dir := tree_root_dir tg; tree_build_dir := tree_build_dir tg;
     build_dir := build_dir tg; source_dir := source_dir tg;
     link_lang := link_lang tg; result_name := result_name tg;
     artifacts := artifacts tg; filepaths := filepaths tg ++ paths;
     all_includes := all_includes tg ++ File.includes first;
     all_defines := all_defines tg ++ File.defines first;
     all_other_flags := all_other_flags tg ++ File.other_flags first;
     all_flags := all_flags tg ++ File.flags first;
     object_dir := object_dir tg |}.

(** One round of the accumulation loop of [merge_target_info]. *)
Definition add_flags_of (tg member : t) : t :=
  {| name := name tg; squashed := squashed tg; type := type tg;
     tree_root_dir := tree_root_dir tg; tree_build_dir := tree_build_dir tg;
     build_dir := build_dir tg; source_dir := source_dir tg;
     link_lang := link_lang tg; result_name := result_name tg;
     artifacts := artifacts tg; filepaths := filepaths tg;
     all_includes := all_includes tg ++ all_includes member;
     all_defines := all_defines tg ++ all_defines member;
     all_other_flags := all_other_flags tg ++ all_other_flags member;
     all_flags := all_flags tg ++ all_flags member;
     object_dir := object_dir tg |}.
End Target.

(** What the target map holds under a name: a target record, or the
    key-less [dict()] that [query_file] stores under a name it does not
    know. *)
Inductive TargetEntry : Type :=
| TargetRecord (tg : Target.t)
| EmptyDict.

(** A project record.  In the code the targets of a project are the very
    objects the target map holds; the model keeps the project's view as
    [convert_project_info] returned it, and no statement below reads a
    project after a backfill. *)
Module Project.
Record t : Type := {
  name : string;
  source_dir : string;
  build_dir : string;
  tree_root_dir : string;
  tree_build_dir : string;
  targets : Dict.t Target.t;
  files : list File.t
}.
End Project.

(** ** The codemodel reply, decoded *)

Record IncludeJson : Type := {
  inc_path : string;
  isSystem : option bool
}.

Record FileGroupJson : Type := {
  sources : list string;
  language : option string;
  compileFlags : option string;
  defines_json : option (list string);
  includePath : option (list IncludeJson)
}.

Record TargetJson : Type := {
  tj_name : string;
  tj_type : string;
  buildDirectory : string;
  sourceDirectory : string;
  linkerLanguage : option string;
  fullName : option string;
  artifacts_json : option (list string);
  fileGroups : option (list FileGroupJson)
}.

Record ProjectJson : Type := {
  pj_name : string;
  pj_sourceDirectory : string;
  pj_buildDirectory : string;
  pj_targets : option (list TargetJson)
}.

(** [d.get(key, default)]. *)
Definition get_default {A : Type} (o : option A) (default : A) : A :=
  match o with Some a => a | None => default end.

(** The loop [for x in xs: acc = step(acc, x)] for a [step] that can raise. *)
Fixpoint foldM {A B : Type} (step : A -> B -> Result A) (xs : list B) (acc : A) : Result A :=
  match xs with
  | [] => Ok acc
  | x :: xs' =>
      acc' <- step acc x ;;
      foldM step xs' acc'
  end.

(** ** Project Model Converter *)

(** [convert_cache_variables]: a later entry with the same key wins. *)
Definition convert_cache_variables (cache_json : list (string * string)) : Dict.t string :=
  Dict.of_pairs cache_json.

(** A path of the codemodel is absolute or relative to the source
    directory of the target. *)
Definition resolve_in_source_dir (parent_target : Target.t) (p : string) : string :=
  if Path.isabs p then p else Path.join (Target.source_dir parent_target) p.

(** The loop of [include_path_to_flags]: two [append]s per include. *)
Fixpoint include_path_to_flags_loop (include_path_json : list IncludeJson)
    (parent_target : Target.t) (result : list string) : list string :=
  match include_path_json with
  | [] => result
  | include :: rest =>
      let result := result ++ [if get_default (isSystem include) false
                               then "-isystem" else "-I"] in
      let result := result ++ [resolve_in_source_dir parent_target (inc_path include)] in
      include_path_to_flags_loop rest parent_target result
  end.

Definition include_path_to_flags (include_path_json : list IncludeJson)
    (parent_target : Target.t) : list string :=
  include_path_to_flags_loop include_path_json parent_target [].

(** The loop that fills [converted_info['includes']]. *)
Fixpoint includes_loop (include_path_json : list IncludeJson)
    (parent_target : Target.t) (includes : list string) : list string :=
  match include_path_json with
  | [] => includes
  | include :: rest =>
      includes_loop rest parent_target
        (includes ++ [resolve_in_source_dir parent_target (inc_path include)])
  end.

(** [parent_target['object_dir']]. *)
Definition object_dir_of (parent_target : Target.t) : Result string :=
  match Target.object_dir parent_target with
  | Some d => Ok d
  | None => Raise (KeyError "object_dir")
  end.

(** The body of the loop of [convert_file_info], for one [filename]. *)
Definition convert_source (env : Env) (group_json : FileGroupJson)
    (parent_target : Target.t) (filename : string) : Result File.t :=
  let flags :=
    Str.split (get_default (compileFlags group_json) EmptyString)
    ++ map (fun define => Str.cat "-D" define) (get_default (defines_json group_json) [])
    ++ include_path_to_flags (get_default (includePath group_json) []) parent_target in
  let includes := includes_loop (get_default (includePath group_json) []) parent_target [] in
  let path := resolve_in_source_dir parent_target filename in
  target_obj_dir <- object_dir_of parent_target ;;
  relative_path_in_source_dir <-
    Path.relpath (getcwd env) path (Target.source_dir parent_target) ;;
  Ok {| File.path := path;
        File.target_name := Target.name parent_target;
        File.tree_root_dir := Target.tree_root_dir parent_target;
        File.tree_build_dir := Target.tree_build_dir parent_target;
        File.lang := language group_json;
        File.heuristics := false;
        File.other_flags := Str.split (get_default (compileFlags group_json) EmptyString);
        File.defines := get_default (defines_json group_json) [];
        File.includes := includes;
        File.flags := flags;
        File.object_file :=
          Some (Str.cat target_obj_dir
                  (Str.cat "/" (Str.cat relative_path_in_source_dir ".o")));
        File.source_file := None;
        File.header_file := None |}.

Definition convert_file_info (env : Env) (group_json : FileGroupJson)
    (parent_target : Target.t) : Result (list File.t) :=
  mapM (convert_source env group_json parent_target) (sources group_json).

(** One round of the accumulation loop of [convert_target_info];
    [group[0]] of a group without sources is an [IndexError]. *)
Definition accumulate_group (result : Target.t) (group : list File.t) : Result Target.t :=
  match group with
  | first :: _ => Ok (Target.add_group result (map File.path group) first)
  | [] => Raise IndexError
  end.

Definition convert_target_info (env : Env) (target_json : TargetJson)
    (parent_project : Project.t) : Result Target.t :=
  let build_dir := abspath env (buildDirectory target_json) in
  let result :=
    {| Target.name := tj_name target_json;
       Target.squashed := false;
       Target.type := tj_type target_json;
       Target.tree_root_dir := Project.tree_root_dir parent_project;
       Target.tree_build_dir := Project.tree_build_dir parent_project;
       Target.build_dir := build_dir;
       Target.source_dir := abspath env (sourceDirectory target_json);
       Target.link_lang := linkerLanguage target_json;
       Target.result_name := fullName target_json;
       Target.artifacts := get_default (artifacts_json target_json) [];
       Target.filepaths := [];
       Target.all_includes := [];
       Target.all_defines := [];
       Target.all_other_flags := [];
       Target.all_flags := [];
       Target.object_dir :=
         Some (Path.join (Path.join build_dir "CMakeFiles")
                 (Str.cat (tj_name target_json) ".dir")) |} in
  groups <- mapM (fun group_info => convert_file_info env group_info result)
              (get_default (fileGroups target_json) []) ;;
  foldM accumulate_group groups result.

Definition is_skipped_type (target_json : TargetJson) : bool :=
  String.eqb (tj_type target_json) "UTILITY"
  || String.eqb (tj_type target_json) "INTERFACE_LIBRARY".

Definition project_with (p : Project.t) (targets : Dict.t Target.t)
    (files : list File.t) : Project.t :=
  {| Project.name := Project.name p;
     Project.source_dir := Project.source_dir p;
     Project.build_dir := Project.build_dir p;
     Project.tree_root_dir := Project.tree_root_dir p;
     Project.tree_build_dir := Project.tree_build_dir p;
     Project.targets := targets;
     Project.files := files |}.

(** The first loop of [convert_project_info]. *)
Definition add_target (env : Env) (result : Project.t) (target_json : TargetJson)
    : Result Project.t :=
  if is_skipped_type target_json then Ok result
  else
    tg <- convert_target_info env target_json result ;;
    Ok (project_with result
          (Dict.set (Project.targets result) (tj_name target_json) tg)
          (Project.files result)).

(** The second loop of [convert_project_info]. *)
Definition add_files (env : Env) (result : Project.t) (target_json : TargetJson)
    : Result Project.t :=
  if is_skipped_type target_json then Ok result
  else
    foldM (fun (result : Project.t) group_json =>
             match Dict.get (Project.targets result) (tj_name target_json) with
             | None => Raise (KeyError (tj_name target_json))
             | Some parent =>
                 fs <- convert_file_info env group_json parent ;;
                 Ok (project_with result (Project.targets result)
                       (Project.files result ++ fs))
             end)
          (get_default (fileGroups target_json) []) result.

Definition convert_project_info (env : Env) (json : ProjectJson)
    (root_dir build_dir : string) : Result Project.t :=
  let result :=
    {| Project.name := pj_name json;
       Project.source_dir := pj_sourceDirectory json;
       Project.build_dir := pj_buildDirectory json;
       Project.tree_root_dir := root_dir;
       Project.tree_build_dir := build_dir;
       Project.targets := Dict.empty Target.t;
       Project.files := [] |} in
  result <- foldM (add_target env) (get_default (pj_targets json) []) result ;;
  foldM (add_files env) (get_default (pj_targets json) []) result.

(** ** File Resolution Engine *)

(** [target[key]] on an entry of the target map: the key-less [dict()]
    has no key at all. *)
Definition subscript (key : string) (target : TargetEntry) : Result Target.t :=
  match target with
  | TargetRecord tg => Ok tg
  | EmptyDict => Raise (KeyError key)
  end.

(** [target_directories]; the set is only tested for membership. *)
Definition target_directories (target : TargetEntry) : Result (list string) :=
  tg <- subscript "filepaths" target ;;
  Ok (map Path.dirname (Target.filepaths tg)).

Definition in_set (x : string) (xs : list string) : bool :=
  existsb (String.eqb x) xs.

(** [targets_in_directory], over [targets.items()]. *)
Fixpoint targets_in_directory (abs_directory : string)
    (targets : Dict.t TargetEntry) : Result (list TargetEntry) :=
  match targets with
  | [] => Ok []
  | (_, target) :: rest =>
      dirs <- target_directories target ;;
      found <- targets_in_directory abs_directory rest ;;
      Ok (if in_set abs_directory dirs then target :: found else found)
  end.

(** [merge_target_info].  The members are records made by
    [convert_target_info], which keeps the linker language and the full
    name under ['link_lang'] and ['result_name']: the [get]s of
    ['linkerLanguage'] and ['fullName'] answer [None], the one of
    ['artifacts'] finds the key. *)
Definition merge_target_info (env : Env) (targets : list TargetEntry)
    : Result (option Target.t) :=
  match targets with
  | [] => Ok None
  | _ :: _ =>
      members <- mapM (subscript "name") targets ;;
      match members with
      | [] => Ok None
      | first :: _ =>
          let combined_target :=
            {| Target.name := Str.join "|" (map Target.name members);
               Target.squashed := true;
               Target.type := Target.type first;
               Target.tree_root_dir := Target.tree_root_dir first;
               Target.tree_build_dir := Target.tree_build_dir first;
               Target.build_dir := abspath env (Target.build_dir first);
               Target.source_dir := abspath env (Target.source_dir first);
               Target.link_lang := None;
               Target.result_name := None;
               Target.artifacts := Target.artifacts first;
               Target.filepaths := [];
               Target.all_includes := [];
               Target.all_defines := [];
               Target.all_other_flags := [];
               Target.all_flags := [];
               Target.object_dir := None |} in
          Ok (Some (fold_left Target.add_flags_of members combined_target))
      end
  end.

Definition get_file_info_for_directory (env : Env) (abs_filepath : string)
    (targets : Dict.t TargetEntry) : Result (option File.t) :=
  found <- targets_in_directory (Path.dirname abs_filepath) targets ;;
  merged <- merge_target_info env found ;;
  match merged with
  | None => Ok None
  | Some merged_target =>
      Ok (Some {| File.path := abs_filepath;
                  File.target_name := Target.name merged_target;
                  File.tree_root_dir := Target.tree_root_dir merged_target;
                  File.tree_build_dir := Target.tree_build_dir merged_target;
                  File.lang := Target.link_lang merged_target;
                  File.heuristics := true;
                  File.other_flags := Target.all_other_flags merged_target;
                  File.defines := Target.all_defines merged_target;
                  File.includes := Target.all_includes merged_target;
                  File.flags := Target.all_flags merged_target;
                  File.object_file := None;
                  File.source_file := None;
                  File.header_file := None |})
  end.

(** The name a line includes, when it is an [#include] line with a second
    word: that word without its first and last character. *)
Definition included_of_line (line : string) : option string :=
  let stripped := Str.lstrip line in
  if Str.startswith stripped "#include" then
    match Str.split stripped with
    | _ :: second :: _ => Some (Str.slice_1_m1 second)
    | _ => None
    end
  else None.

(** The first loop of [match_header]. *)
Fixpoint scan_includes (lines : list string) (included_files : list string) : list string :=
  match lines with
  | [] => included_files
  | line :: rest =>
      match included_of_line line with
      | Some name => scan_includes rest (included_files ++ [name])
      | None => scan_includes rest included_files
      end
  end.

Definition without_ext (p : string) : string :=
  fst (Path.splitext (snd (Path.split p))).

(** The inner loop of [match_header], over the include directories. *)
Fixpoint search_include_path (env : Env) (file_info : File.t) (included_file : string)
    (directories : list string) : option File.t :=
  match directories with
  | [] => None
  | include_directory :: rest =>
      if isfile env (Path.join include_directory included_file)
      then Some (File.as_header_of file_info
                   (abspath env (Str.cat include_directory (String Path.sep included_file))))
      else search_include_path env file_info included_file rest
  end.

(** The outer loop of [match_header]: it returns at the first included
    name whose base name is that of the file, paired or not. *)
Fixpoint match_included (env : Env) (file_info : File.t) (filename_without_ext : string)
    (included_files : list string) : option File.t :=
  match included_files with
  | [] => None
  | included_file :: rest =>
      if negb (String.eqb filename_without_ext (without_ext included_file))
      then match_included env file_info filename_without_ext rest
      else search_include_path env file_info included_file
             (getcwd env :: File.includes file_info)
  end.

Definition match_header (env : Env) (file_info : File.t) : Result (option File.t) :=
  lines <- read_lines env (File.path file_info) ;;
  let included_files := scan_includes lines [] in
  Ok (match_included env file_info (without_ext (File.path file_info)) included_files).

(** The loop of [run_matching_header_heuristics]: the two [except]
    clauses name [IOError] and [UnicodeDecodeError]. *)
Fixpoint heuristics_loop (env : Env) (files : list File.t) (new_files : Dict.t File.t)
    : Result (Dict.t File.t) :=
  match files with
  | [] => Ok new_files
  | file :: rest =>
      match match_header env file with
      | Raise IOError => heuristics_loop env rest new_files
      | Raise UnicodeDecodeError => heuristics_loop env rest new_files
      | Raise e => Raise e
      | Ok None => heuristics_loop env rest new_files
      | Ok (Some header) =>
          let new_files := Dict.set new_files (File.path header) header in
          let new_files := Dict.set new_files (File.path file)
                             (File.with_header_file file (File.path header)) in
          heuristics_loop env rest new_files
      end
  end.

Definition run_matching_header_heuristics (env : Env) (known_files : Dict.t File.t)
    : Result (Dict.t File.t) :=
  heuristics_loop env (Dict.values known_files) (Dict.empty File.t).

(** ** The index *)

Module Index.
Record t : Type := {
  build_directory : string;
  root_directory : string;
  _projects : Dict.t Project.t;
  _targets : Dict.t TargetEntry;
  _files : Dict.t File.t;
  _cache : Dict.t string
}.

(** [Index(root_directory, build_directory)]. *)
Definition new (root_directory build_directory : string) : t :=
  {| build_directory := build_directory; root_directory := root_directory;
     _projects := []; _targets := []; _files := []; _cache := [] |}.

Definition with_projects (self : t) (d : Dict.t Project.t) : t :=
  {| build_directory := build_directory self; root_directory := root_directory self;
     _projects := d; _targets := _targets self; _files := _files self;
     _cache := _cache self |}.

Definition with_targets (self : t) (d : Dict.t TargetEntry) : t :=
  {| build_directory := build_directory self; root_directory := root_directory self;
     _projects := _projects self; _targets := d; _files := _files self;
     _cache := _cache self |}.

Definition with_files (self : t) (d : Dict.t File.t) : t :=
  {| build_directory := build_directory self; root_directory := root_directory self;
     _projects := _projects self; _targets := _targets self; _files := d;
     _cache := _cache self |}.

Definition with_cache (self : t) (d : Dict.t string) : t :=
  {| build_directory := build_directory self; root_directory := root_directory self;
     _projects := _projects self; _targets := _targets self; _files := _files self;
     _cache := d |}.
End Index.

(** The body of the loop [for project in projects] of [initialize]. *)
Definition register_project (self : Index.t) (project : Project.t) : Index.t :=
  let self := Index.with_projects self
                (Dict.set (Index._projects self) (Project.name project) project) in
  let self := fold_left (fun (self : Index.t) item =>
                           Index.with_targets self
                             (Dict.set (Index._targets self) (fst item)
                                (TargetRecord (snd item))))
                (Dict.items (Project.targets project)) self in
  fold_left (fun (self : Index.t) file =>
               Index.with_files self (Dict.set (Index._files self) (File.path file) file))
    (Project.files project) self.

(** The index the loop [for project in projects] of [initialize] leaves. *)
Definition registered (self : Index.t) (projects : list Project.t) : Index.t :=
  fold_left register_project projects self.

(** [Index.initialize]; [projects_json] is
    [server.codemodel()['configurations'][0]['projects']] and [cache_json]
    is [server.cache()['cache']].  The second component is the index as the
    call leaves it, also when it raises. *)
Definition initialize (env : Env) (self : Index.t) (projects_json : list ProjectJson)
    (cache_json : list (string * string)) : Result unit * Index.t :=
  match mapM (fun project =>
                convert_project_info env project
                  (Index.root_directory self) (Index.build_directory self))
          projects_json with
  | Raise e => (Raise e, self)
  | Ok projects =>
      let self := registered self projects in
      match run_matching_header_heuristics env (Index._files self) with
      | Raise e => (Raise e, self)
      | Ok new_files =>
          let self := Index.with_files self (Dict.update (Index._files self) new_files) in
          (Ok tt, Index.with_cache self (convert_cache_variables cache_json))
      end
  end.

(** [Index.query_file]; the second component is the index as the call
    leaves it, also when it raises.  In the code the records of [_targets]
    are the very objects held in the [targets] of the projects of
    [_projects], so the append of the backfill shows through the project
    map too; it is recorded in [_targets] only, and [_projects] keeps the
    targets as they were converted. *)
Definition query_file (env : Env) (self : Index.t) (abs_path : string)
    (directory_heuristics : bool) : Result (option File.t) * Index.t :=
  match Dict.get (Index._files self) abs_path with
  | Some known => (Ok (Some known), self)
  | None =>
      if directory_heuristics then
        match get_file_info_for_directory env abs_path (Index._targets self) with
        | Raise e => (Raise e, self)
        | Ok None => (Ok None, self)
        | Ok (Some result) =>
            let self := Index.with_files self
                          (Dict.set (Index._files self) abs_path result) in
            let self :=
              if negb (Dict.mem (Index._targets self) (File.target_name result))
              then Index.with_targets self
                     (Dict.set (Index._targets self) (File.target_name result) EmptyDict)
              else self in
            match Dict.get (Index._targets self) (File.target_name result) with
            | None => (Raise (KeyError (File.target_name result)), self)
            | Some EmptyDict => (Raise (KeyError "filepaths"), self)
            | Some (TargetRecord tg) =>
                (Ok (Some result),
                 Index.with_targets self
                   (Dict.set (Index._targets self) (File.target_name result)
                      (TargetRecord (Target.append_filepath tg (File.path result)))))
            end
        end
      else (Ok None, self)
  end.

Definition query_target (self : Index.t) (name : string) : option TargetEntry :=
  Dict.get (Index._targets self) name.

Definition query_project (self : Index.t) (name : string) : option Project.t :=
  Dict.get (Index._projects self) name.

Definition cache_variable (self : Index.t) (name : string) : option string :=
  Dict.get (Index._cache self) name.

(** ** Compilation-database projection *)

Record CompileCommand : Type := {
  cc_directory : string;
  cc_file : string;
  cc_command : string
}.

(** ['{compiler} {flags} -c {source} -o {object_}'.format(...)]; a
    compiler that is [None] is written [None]. *)
Definition command_format (compiler : option string) (flags source object_ : string)
    : string :=
  Str.cat (Str.of_option compiler)
    (Str.cat " " (Str.cat flags
       (Str.cat " -c " (Str.cat source (Str.cat " -o " object_))))).

(** [file['object_file']]. *)
Definition object_file_of (file : File.t) : Result string :=
  match File.object_file file with
  | Some o => Ok o
  | None => Raise (KeyError "object_file")
  end.

(** The body of the loop of [generate_compilation_database]. *)
Definition compilation_record (index : Index.t) (file : File.t) : Result CompileCommand :=
  let compiler_path :=
    cache_variable index
      (Str.cat "CMAKE_" (Str.cat (Str.of_option (File.lang file)) "_COMPILER")) in
  object_ <- object_file_of file ;;
  Ok {| cc_directory := File.tree_build_dir file;
        cc_file := File.path file;
        cc_command := command_format compiler_path (Str.join " " (File.flags file))
                        (File.path file) object_ |}.

Definition generate_compilation_database (index : Index.t) : Result (list CompileCommand) :=
  mapM (compilation_record index) (Dict.values (Index._files index)).

(** ** Protocol Transport Client *)

Module Server.

(** What a call does: it returns, it raises, or it has not come back
    (a read that blocks on a stream with nothing left, a loop that is
    still running when the fuel is spent). *)
Inductive Outcome (A : Type) : Type :=
| Returns (a : A)
| Raises (e : exn)
| Pending.

Arguments Returns {A} a.
Arguments Raises {A} e.
Arguments Pending {A}.

(** A decoded frame of the server; the keys the client reads. *)
Record Frame : Type := {
  type : string;
  errorMessage : option string;
  message : option string;
  supportedProtocolVersions : list Z      (* the major numbers *)
}.

Record Request : Type := {
  req_type : string;
  cookie : string
}.

Inductive LogRecord : Type :=
| LogError (text : string)
| LogDebug (text : string).

(** What the client observes next on its connection: a frame, or that
    the process has exited with a status. *)
Inductive Event : Type :=
| Recv (frame : Frame)
| Exited (status : Z).

(** The [CmakeServer] object and its connection.  [process] is [None]
    or the [returncode] of the [Popen] object as last polled; [logger]
    keeps what [msg] writes, the debug lines of the client itself are left
    out; [outbox] is what was written to the socket and [inbox] what the
    connection will deliver. *)
Record t : Type := {
  process : option (option Z);
  socket : bool;
  socket_path : option string;
  logger : list LogRecord;
  outbox : list Request;
  inbox : list Event
}.

Definition with_process (self : t) (p : option (option Z)) : t :=
  {| process := p; socket := socket self; socket_path := socket_path self;
     logger := logger self; outbox := outbox self; inbox := inbox self |}.

Definition with_socket (self : t) (s : bool) : t :=
  {| process := process self; socket := s; socket_path := socket_path self;
     logger := logger self; outbox := outbox self; inbox := inbox self |}.

Definition with_socket_path (self : t) (p : string) : t :=
  {| process := process self; socket := socket self; socket_path := Some p;
     logger := logger self; outbox := outbox self; inbox := inbox self |}.

Definition with_inbox (self : t) (i : list Event) : t :=
  {| process := process self; socket := socket self; socket_path := socket_path self;
     logger := logger self; outbox := outbox self; inbox := i |}.

Definition log (self : t) (r : LogRecord) : t :=
  {| process := process self; socket := socket self; socket_path := socket_path self;
     logger := logger self ++ [r]; outbox := outbox self; inbox := inbox self |}.

Definition sent (self : t) (r : Request) : t :=
  {| process := process self; socket := socket self; socket_path := socket_path self;
     logger := logger self; outbox := outbox self ++ [r]; inbox := inbox self |}.

(** [CmakeServer()]. *)
Definition new (incoming : list Event) : t :=
  {| process := None; socket := false; socket_path := None;
     logger := []; outbox := []; inbox := incoming |}.

(** [self.process.poll()]: an exit that has happened is observed. *)
Definition poll (self : t) : t :=
  match process self, inbox self with
  | Some None, Exited status :: rest =>
      with_inbox (with_process self (Some (Some status))) rest
  | _, _ => self
  end.

Definition crashed (status : Z) : exn :=
  CmakeError (Str.cat "Cmake server crashed. Return code: "
                (Str.cat (NilZero.string_of_int (Z.to_int status)) ".")).

(** [check_server_status]. *)
Definition check_server_status (self : t) : Outcome unit * t :=
  let self := poll self in
  match process self with
  | Some (Some status) =>
      if negb (status =? 0)%Z then (Raises (crashed status), self)
      else (Returns tt, self)
  | _ => (Returns tt, self)
  end.

Definition not_running (self : t) : bool :=
  match process self with
  | None => true
  | Some (Some _) => true
  | Some None => negb (socket self)
  end.

(** [read_message], a frame at a time: the polls of the line loop are
    the one poll before the frame. *)
Definition read_message (self : t) : Outcome Frame * t :=
  if not_running self
  then (Raises (CmakeError "Server is not running."),
        with_socket (with_process self None) false)
  else
    match check_server_status self with
    | (Returns _, self) =>
        match inbox self with
        | Recv frame :: rest => (Returns frame, with_inbox self rest)
        | _ => (Pending, self)
        end
    | (Raises e, self) => (Raises e, self)
    | (Pending, self) => (Pending, self)
    end.

(** [send_message], a request at a time.  The write is taken to reach
    the socket, as it does while the peer holds its end; what the
    operating system answers to a write once the process has exited with
    status 0 is not modelled. *)
Definition send_message (self : t) (message : Request) : Outcome unit * t :=
  if not_running self
  then (Raises (CmakeError "Server is not running."),
        with_socket (with_process self None) false)
  else
    match check_server_status self with
    | (Returns _, self) => (Returns tt, sent self message)
    | other => other
    end.

(** [self.signal]. *)
Definition signal (self : t) (json : Frame) : Outcome unit * t := (Returns tt, self).

Definition contains (needle hay : string) : bool :=
  match String.index 0 needle hay with Some _ => true | None => false end.

(** [self.msg]. *)
Definition msg (self : t) (json : Frame) : Outcome unit * t :=
  match message json with
  | None => (Raises (KeyError "message"), self)
  | Some text =>
      if contains "CMake Error" text
      then (Returns tt, log self (LogError text))
      else (Returns tt, log self (LogDebug (Str.cat "cmake: " text)))
  end.

(** The body of the [while] loop of [send_and_read] before the next
    read: the three [if]s on the type of the frame. *)
Definition dispatch (self : t) (resp_msg : Frame) : Outcome unit * t :=
  let after_signal :=
    if String.eqb (type resp_msg) "signal" then signal self resp_msg
    else (Returns tt, self) in
  match after_signal with
  | (Returns _, self) =>
      let after_msg :=
        if String.eqb (type resp_msg) "message" then msg self resp_msg
        else (Returns tt, self) in
      match after_msg with
      | (Returns _, self) =>
          if String.eqb (type resp_msg) "error" then
            match errorMessage resp_msg with
            | Some text => (Raises (CmakeError text), self)
            | None => (Raises (KeyError "errorMessage"), self)
            end
          else (Returns tt, self)
      | other => other
      end
  | other => other
  end.

(** The [while resp_msg['type'] != 'reply'] loop.  Every round that goes
    on has taken an event off [inbox], so [S (length inbox)] rounds of
    fuel are never used up. *)
Fixpoint await_reply (fuel : nat) (self : t) (resp_msg : Frame) : Outcome Frame * t :=
  if String.eqb (type resp_msg) "reply" then (Returns resp_msg, self)
  else
    match fuel with
    | O => (Pending, self)
    | S fuel' =>
        match dispatch self resp_msg with
        | (Returns _, self) =>
            match read_message self with
            | (Returns next, self) => await_reply fuel' self next
            | other => other
            end
        | (Raises e, self) => (Raises e, self)
        | (Pending, self) => (Pending, self)
        end
    end.

(** [send_and_read]; [cookie] is the word [randomword(8)] drew. *)
Definition send_and_read (self : t) (cookie : string) (message_type : string)
    : Outcome Frame * t :=
  match send_message self {| req_type := message_type; cookie := cookie |} with
  | (Returns _, self) =>
      match read_message self with
      | (Returns resp_msg, self) => await_reply (S (length (inbox self))) self resp_msg
      | other => other
      end
  | (Raises e, self) => (Raises e, self)
  | (Pending, self) => (Pending, self)
  end.

(** *** Start-up *)

(** What [start] observes of the world: whether the socket path exists
    after [n] sleeps of half a second, and the exit status of the
    launched process then, if it has exited. *)
Record World : Type := {
  socket_exists : nat -> bool;
  exit_status : nat -> option Z
}.

(** The loop [while tries < 10 and not os.path.exists(socket_path):
    time.sleep(0.5)].  Its body is the sleep alone: [tries] is passed on
    as it is.  The result is the number of sleeps when the loop is left,
    [None] when it is still running after [fuel] rounds. *)
Fixpoint wait_for_socket (fuel : nat) (world : World) (tries clock : nat) : option nat :=
  match fuel with
  | O => None
  | S fuel' =>
      if (tries <? 10)%nat && negb (socket_exists world clock)
      then wait_for_socket fuel' world tries (S clock)
      else Some clock
  end.

(** [start].  A [Popen] object has no [returncode] before its first
    [poll], so the check between the launch and the loop never raises. *)
Definition start (fuel : nat) (world : World) (self : t) (cmake_binary socket_path : string)
    : Outcome unit * t :=
  if match process self with Some _ => true | None => false end || socket self
  then (Raises (CmakeError "Already started"), self)
  else
    let self := with_socket_path (with_process self (Some None)) socket_path in
    let tries := 0 in
    match wait_for_socket fuel world tries 0 with
    | None => (Pending, self)
    | Some clock =>
        let self := with_process self (Some (exit_status world clock)) in
        match exit_status world clock with
        | Some _ => (Raises (CmakeError "Server terminated right after starting."), self)
        | None =>
            if negb (socket_exists world clock)
            then (Raises (CmakeError
                            "Server startup is too long (> 5 seconds). Is everything fine?"),
                  self)
            else
              let self := with_socket self true in
              match read_message self with
              | (Returns hello, self) =>
                  if existsb (fun major => (major =? 1)%Z) (supportedProtocolVersions hello)
                  then (Returns tt, self)
                  else (Raises (CmakeError "Server doesn't support 1.x protocol."), self)
              | (Raises e, self) => (Raises e, self)
              | (Pending, self) => (Pending, self)
              end
        end
    end.

End Server.

(** ** The framing of a message, line by line *)

Module Framing.

Definition quote : string := String (ascii_of_nat 34) EmptyString.
Definition newline : string := String (ascii_of_nat 10) EmptyString.

(** The two sentinel lines, [CMake Server] in double quotes between
    [[==] and [==[], and between []==] and [==]]. *)
Definition opening : string :=
  ("[== " ++ quote ++ "CMake Server" ++ quote ++ " ==[")%string.
Definition closing : string :=
  ("]== " ++ quote ++ "CMake Server" ++ quote ++ " ==]")%string.

Fixpoint rstrip (s : string) : string :=
  match s with
  | EmptyString => EmptyString
  | String c s' =>
      match rstrip s' with
      | EmptyString => if Str.isspace c then EmptyString else String c EmptyString
      | r => String c r
      end
  end.

(** [s.strip()]. *)
Definition strip (s : string) : string := rstrip (Str.lstrip s).

(** The three writes of [send_message], as the lines they are when the
    text of the message has no line break in it; [payload] is
    [json.dumps(message)]. *)
Definition written (payload : string) : list string :=
  [Str.cat opening newline; Str.cat payload newline; Str.cat closing newline].

(** The loop of [read_message] over the lines [readline] yields, without
    its polls: the stripped lines that are not empty, up to the closing
    sentinel, and the lines left unread.  When the lines run out before
    the sentinel the loop does not end. *)
Fixpoint read_until_closing (incoming lines : list string)
    : option (list string * list string) :=
  match incoming with
  | [] => None
  | raw :: rest =>
      let line_buf := strip raw in
      let lines := if Str.is_empty line_buf then lines else lines ++ [line_buf] in
      if String.eqb line_buf closing then Some (lines, rest)
      else read_until_closing rest lines
  end.

(** [lines[1:-1]]. *)
Definition interior (lines : list string) : list string := removelast (List.tl lines).

(** The text [read_message] hands to [json.loads], and the lines left. *)
Definition read_text (incoming : list string) : option (string * list string) :=
  match read_until_closing incoming [] with
  | Some (lines, rest) => Some (Str.join newline (interior lines), rest)
  | None => None
  end.

End Framing.

(** ** The handshake *)

Module Session.

(** The [CmakeServer] object with the two fields [handshake] sets. *)
Record t : Type := {
  server : Server.t;
  root_dir : option string;
  build_dir : option string
}.

Definition is_set (o : option string) : bool :=
  match o with Some _ => true | None => false end.

(** [handshake].  The request has the generator among its keys or not;
    a [Server.Request] keeps the type and the cookie only. *)
Definition handshake (self : t) (cookie root build : string) (generator : option string)
    : Server.Outcome unit * t :=
  if is_set (root_dir self) || is_set (build_dir self)
  then (Server.Raises (CmakeError "Already handshak'ed"), self)
  else
    let after := fun s => {| server := s; root_dir := Some root; build_dir := Some build |} in
    match Server.send_and_read (server self) cookie "handshake" with
    | (Server.Returns _, s) => (Server.Returns tt, after s)
    | (Server.Raises e, s) => (Server.Raises e, after s)
    | (Server.Pending, s) => (Server.Pending, after s)
    end.

(** The [cacheArguments] of [configure]. *)
Definition cache_arguments (cache_entries : Dict.t string) : list string :=
  map (fun kv => Str.cat "-D" (Str.cat (fst kv) (Str.cat "=" (snd kv))))
    (Dict.items cache_entries).

End Session.

(** ** The plugin: file types, default flags, queries *)

Module Plugin.

Inductive FileType : Type :=
| CPP_HEADER      (* 1 *)
| CPP_SOURCE      (* 2 *)
| C_HEADER        (* 3 *)
| C_SOURCE.       (* 4 *)

(** The options [file_type] and [get_default_flags] read, as [get_opt]
    answers them; the extension sets are tested for membership only. *)
Record Options : Type := {
  default_cpp_flags : list string;
  default_c_flags : list string;
  cpp_source_extensions : list string;
  c_source_extensions : list string;
  cpp_header_extensions : list string;
  c_header_extensions : list string
}.

Definition DEFAULT_VALUES : Options :=
  {| default_cpp_flags := ["-std=c++14"; "-isystem"; "/usr/include/c++/v1";
                           "-isystem"; "/usr/local/include"; "-isystem"; "/usr/include"];
     default_c_flags := ["-isystem"; "/usr/local/include"; "-isystem"; "/usr/include"];
     cpp_source_extensions := [".cpp"; ".cc"; ".CPP"; ".cxx"; ".c++"; ".cp"];
     c_source_extensions := [".c"];
     cpp_header_extensions := [".hpp"; ".h"; ".HPP"; ".hxx"; ".hh"; ".h++"; ".hp"; ".ii"];
     c_header_extensions := [".h"] |}.

(** [file_type]; [os.path.splitext] answers a pair, so the test on a
    length of 1 never holds. *)
Definition file_type (opts : Options) (filepath : string) : option FileType :=
  let splitten_name := Path.splitext filepath in
  if in_set (snd splitten_name) (cpp_source_extensions opts) then Some CPP_SOURCE
  else if in_set (snd splitten_name) (cpp_header_extensions opts) then Some CPP_HEADER
  else if in_set (snd splitten_name) (c_source_extensions opts) then Some C_SOURCE
  else if in_set (snd splitten_name) (c_header_extensions opts) then Some C_HEADER
  else None.

Definition lang_is (name : string) (info : option File.t) : bool :=
  match info with
  | Some i => match File.lang i with Some l => String.eqb l name | None => false end
  | None => false
  end.

(** [get_default_flags].  Under [lang == 'CXX'] the first inner test
    holds.  In the other branch the second test compares the builtin
    [type], not [type_], with [C_HEADER]: that half is false. *)
Definition get_default_flags (opts : Options) (abs_filename : string)
    (info : option File.t) : list string :=
  if lang_is "CXX" info then default_cpp_flags opts
  else
    match file_type opts abs_filename with
    | Some CPP_HEADER => default_cpp_flags opts
    | Some CPP_SOURCE => default_cpp_flags opts
    | Some C_SOURCE => default_c_flags opts
    | _ => []
    end.

(** [get_file_info]; [indexes] is [self.index], from build directory to
    index.  Without a build directory the loop over the indexes returns
    in its first round. *)
Definition get_file_info (env : Env) (indexes : Dict.t Index.t) (filename : string)
    (build_dir : option string) : Result (option File.t) * Dict.t Index.t :=
  let abs_filename := abspath env filename in
  match build_dir with
  | None =>
      match indexes with
      | (key, index_entry) :: rest =>
          let (query_result, index_entry) := query_file env index_entry abs_filename true in
          (query_result, (key, index_entry) :: rest)
      | [] => (Ok None, indexes)
      end
  | Some dir =>
      match Dict.get indexes dir with
      | None => (Ok None, indexes)
      | Some index_entry =>
          let (query_result, index_entry) := query_file env index_entry abs_filename true in
          (query_result, Dict.set indexes dir index_entry)
      end
  end.

(** [get_target_info]. *)
Definition get_target_info (indexes : Dict.t Index.t) (build_dir target_name : string)
    : option TargetEntry :=
  match Dict.get indexes build_dir with
  | Some index => query_target index target_name
  | None => None
  end.

(** The loop of [init_project_info] over the cache variables of the
    command line: the text before the first [=] and the text between it
    and the next; a variable without [=] is an [IndexError]. *)
Definition parse_cache_variables (cache_variables : list string) : Result (Dict.t string) :=
  foldM (fun cache_dict cache_var =>
           match Str.split_sep "="%char cache_var with
           | name :: value :: _ => Ok (Dict.set cache_dict name value)
           | _ => Raise IndexError
           end)
    cache_variables (Dict.empty string).

End Plugin.

(** * Properties *)

(** ** The library functions, on examples *)

Example split_ex : Str.split "  -O2   -Wall	-g " = ["-O2"; "-Wall"; "-g"].
Proof. reflexivity. Qed.

Example slice_ex : map Str.slice_1_m1 ["<a/b.h>"; "x"; "ab"] = ["a/b.h"; EmptyString; EmptyString].
Proof. reflexivity. Qed.

Example split_path_ex :
  map Path.split ["/a/b/c.cpp"; "c.cpp"; "/c"; "a//b"; "//"] =
  [("/a/b", "c.cpp"); (EmptyString, "c.cpp"); ("/", "c"); ("a", "b"); ("//", EmptyString)].
Proof. reflexivity. Qed.

Example splitext_ex :
  map Path.splitext ["foo.cpp"; ".bashrc"; "a.tar.gz"; "..x"; "d.d/file"; "noext"] =
  [("foo", ".cpp"); (".bashrc", EmptyString); ("a.tar", ".gz"); ("..x", EmptyString); ("d.d/file", EmptyString); ("noext", EmptyString)].
Proof. reflexivity. Qed.

Example join_ex :
  [Path.join "/src" "inc"; Path.join "/src/" "inc"; Path.join "/src" "/usr"; Path.join EmptyString "x"] =
  ["/src/inc"; "/src/inc"; "/usr"; "x"].
Proof. reflexivity. Qed.

Example abspath_ex :
  map (Path.abspath "/w") ["a/../b"; "/x/./y//z/"; "../.."; "//u"; "///u"; EmptyString] =
  ["/w/b"; "/x/y/z"; "/"; "//u"; "/u"; "/w"].
Proof. reflexivity. Qed.

Example relpath_ex :
  map (fun p => Path.relpath "/w" p "/src") ["/src/a/x.c"; "/other/y.c"; "/src"; EmptyString] =
  [Ok "a/x.c"; Ok "../other/y.c"; Ok "."; Raise ValueError].
Proof. reflexivity. Qed.

Example crashed_ex :
  Server.crashed (-11) = CmakeError "Cmake server crashed. Return code: -11.".
Proof. reflexivity. Qed.

(** ** Dictionaries *)

Section DictFacts.

Variable V : Type.
Implicit Types (d : Dict.t V) (k : string) (v : V).

Lemma get_set_same d k v : Dict.get (Dict.set d k v) k = Some v.
Proof.
  induction d as [|[k' v'] d IH]; simpl.
  - now rewrite String.eqb_refl.
  - destruct (String.eqb k k') eqn:E; simpl.
    + now rewrite String.eqb_refl.
    + now rewrite E.
Qed.

Lemma get_set_other d k k' v : k <> k' -> Dict.get (Dict.set d k v) k' = Dict.get d k'.
Proof.
  intros Hne. induction d as [|[k0 v0] d IH]; simpl.
  - destruct (String.eqb k' k) eqn:E; [|reflexivity].
    apply String.eqb_eq in E. congruence.
  - destruct (String.eqb k k0) eqn:E; simpl.
    + apply String.eqb_eq in E. subst k0.
      destruct (String.eqb k' k) eqn:E'; [|reflexivity].
      apply String.eqb_eq in E'. congruence.
    + now rewrite IH.
Qed.

Lemma mem_get d k : Dict.mem d k = true <-> exists v, Dict.get d k = Some v.
Proof.
  unfold Dict.mem. destruct (Dict.get d k); split; intros H; eauto.
  - discriminate.
  - now destruct H.
Qed.

Lemma get_in_keys d k v : Dict.get d k = Some v -> In k (Dict.keys d).
Proof.
  induction d as [|[k' v'] d IH]; simpl; [discriminate|].
  destruct (String.eqb k k') eqn:E.
  - apply String.eqb_eq in E. auto.
  - auto.
Qed.

Lemma not_in_keys_get d k : ~ In k (Dict.keys d) -> Dict.get d k = None.
Proof.
  intros H. destruct (Dict.get d k) eqn:E; [|reflexivity].
  now apply get_in_keys in E.
Qed.

Lemma in_keys_get d k : In k (Dict.keys d) -> exists v, Dict.get d k = Some v.
Proof.
  induction d as [|[k' v'] d IH]; simpl; [tauto|].
  intros [->|H].
  - rewrite String.eqb_refl. eauto.
  - destruct (String.eqb k k'); eauto.
Qed.

Lemma get_in d k v : Dict.get d k = Some v -> In (k, v) d.
Proof.
  induction d as [|[k' v'] d IH]; simpl; [discriminate|].
  destruct (String.eqb k k') eqn:E.
  - apply String.eqb_eq in E. intros [= ->]. subst. auto.
  - auto.
Qed.

Lemma in_get d k v : NoDup (Dict.keys d) -> In (k, v) d -> Dict.get d k = Some v.
Proof.
  induction d as [|[k' v'] d IH]; simpl; [tauto|].
  intros Hnd [[= -> ->]|Hin].
  - now rewrite String.eqb_refl.
  - inversion Hnd as [|? ? Hnotin Hnd']; subst.
    destruct (String.eqb k k') eqn:E.
    + apply String.eqb_eq in E. subst k'.
      exfalso. apply Hnotin. change k with (fst (k, v)). now apply in_map.
    + auto.
Qed.

(** The keys after [d[k] = v]: unchanged for a present key, one more at
    the end for a new one. *)
Lemma keys_set d k v :
  Dict.keys (Dict.set d k v) =
  if Dict.mem d k then Dict.keys d else Dict.keys d ++ [k].
Proof.
  unfold Dict.mem. induction d as [|[k' v'] d IH]; simpl; [reflexivity|].
  destruct (String.eqb k k') eqn:E; simpl.
  - apply String.eqb_eq in E. now subst.
  - rewrite IH. now destruct (Dict.get d k).
Qed.

Lemma set_NoDup d k v : NoDup (Dict.keys d) -> NoDup (Dict.keys (Dict.set d k v)).
Proof.
  intros Hnd. rewrite keys_set. destruct (Dict.mem d k) eqn:E; [assumption|].
  apply NoDup_app; [assumption|repeat constructor; simpl; tauto|].
  intros x Hx [<-|[]].
  apply in_keys_get in Hx. apply mem_get in Hx. congruence.
Qed.

Lemma update_NoDup d other : NoDup (Dict.keys d) -> NoDup (Dict.keys (Dict.update d other)).
Proof.
  unfold Dict.update. revert d.
  induction other as [|[k v] other IH]; intros d Hnd; simpl; [assumption|].
  apply IH. now apply set_NoDup.
Qed.

(** [d.update(other)]: the entries of [other] win. *)
Lemma get_update d other k :
  NoDup (Dict.keys other) ->
  Dict.get (Dict.update d other) k =
  match Dict.get other k with Some v => Some v | None => Dict.get d k end.
Proof.
  unfold Dict.update. revert d.
  induction other as [|[k1 v1] other IH]; intros d Hnd; simpl; [reflexivity|].
  inversion Hnd as [|? ? Hnotin Hnd']; subst.
  rewrite IH by assumption.
  destruct (String.eqb k k1) eqn:E.
  - apply String.eqb_eq in E. subst k1.
    rewrite (not_in_keys_get other k Hnotin). apply get_set_same.
  - destruct (Dict.get other k); [reflexivity|].
    apply get_set_other. intros ->. now rewrite String.eqb_refl in E.
Qed.

End DictFacts.

(** ** Comprehensions and loops *)

Lemma bind_ok {A B : Type} (r : Result A) (k : A -> Result B) (b : B) :
  bind r k = Ok b -> exists a, r = Ok a /\ k a = Ok b.
Proof. destruct r as [a|e]; simpl; [eauto|discriminate]. Qed.

Lemma mapM_ok {A B : Type} (f : A -> Result B) (xs : list A) (ys : list B) :
  mapM f xs = Ok ys -> Forall2 (fun x y => f x = Ok y) xs ys.
Proof.
  revert ys. induction xs as [|x xs IH]; simpl; intros ys H.
  - injection H as <-. constructor.
  - apply bind_ok in H as (y & Hy & H).
    apply bind_ok in H as (ys' & Hys & H).
    injection H as <-. constructor; auto.
Qed.

Lemma mapM_all_ok {A B : Type} (f : A -> Result B) (g : A -> B) (xs : list A) :
  Forall (fun x => f x = Ok (g x)) xs -> mapM f xs = Ok (map g xs).
Proof.
  induction 1 as [|x xs Hx _ IH]; simpl; [reflexivity|].
  now rewrite Hx, IH.
Qed.

(** The first element that raises decides a comprehension. *)
Lemma mapM_raises {A B : Type} (f : A -> Result B) (pre post : list A) (x : A) (e : exn) :
  (forall y, In y pre -> exists b, f y = Ok b) ->
  f x = Raise e ->
  mapM f (pre ++ x :: post) = Raise e.
Proof.
  intros Hpre Hx. induction pre as [|y pre IH]; simpl.
  - now rewrite Hx.
  - destruct (Hpre y (or_introl eq_refl)) as [b ->]. simpl.
    rewrite IH; [reflexivity|]. intros z Hz. apply Hpre. now right.
Qed.

(** ** C4: the flag list of a converted file *)

Lemma include_path_to_flags_loop_spec (includes : list IncludeJson) (parent_target : Target.t)
    (acc : list string) :
  include_path_to_flags_loop includes parent_target acc =
  acc ++ flat_map (fun include =>
                     [ if get_default (isSystem include) false then "-isystem" else "-I";
                       if Path.isabs (inc_path include) then inc_path include
                       else Path.join (Target.source_dir parent_target) (inc_path include) ])
           includes.
Proof.
  revert acc. induction includes as [|include rest IH]; intros acc; simpl.
  - now rewrite app_nil_r.
  - rewrite IH. unfold resolve_in_source_dir. now rewrite <- !app_assoc.
Qed.

Lemma convert_source_flags (env : Env) (group_json : FileGroupJson) (parent_target : Target.t)
    (filename : string) (f : File.t) :
  convert_source env group_json parent_target filename = Ok f ->
  File.flags f =
    Str.split (get_default (compileFlags group_json) EmptyString)
    ++ map (fun define => Str.cat "-D" define) (get_default (defines_json group_json) [])
    ++ include_path_to_flags (get_default (includePath group_json) []) parent_target.
Proof.
  unfold convert_source. intros H.
  apply bind_ok in H as (d & _ & H).
  apply bind_ok in H as (rel & _ & H).
  now injection H as <-.
Qed.

(** C4.  Every file record [convert_file_info] makes for a file group has as
    its flag list the whitespace-split compile flags, then ["-D" ++ d] for
    each define [d], then for each include ["-isystem"] (system include) or
    ["-I"] followed by its path, a relative path joined to the source
    directory of the owning target and an absolute one kept; and there is
    one record per source of the group. *)
Theorem convert_file_info_flags (env : Env) (group_json : FileGroupJson)
    (parent_target : Target.t) (files : list File.t) :
  convert_file_info env group_json parent_target = Ok files ->
  length files = length (sources group_json) /\
  Forall (fun f =>
            File.flags f =
              Str.split (get_default (compileFlags group_json) EmptyString)
              ++ map (fun define => ("-D" ++ define)%string)
                   (get_default (defines_json group_json) [])
              ++ flat_map (fun include =>
                             [ if get_default (isSystem include) false
                               then "-isystem" else "-I";
                               if Path.isabs (inc_path include) then inc_path include
                               else Path.join (Target.source_dir parent_target)
                                      (inc_path include) ])
                   (get_default (includePath group_json) []))
    files.
Proof.
  unfold convert_file_info. intros H. apply mapM_ok in H. split.
  - symmetry. eapply Forall2_length; eassumption.
  - induction H as [|filename f srcs fs Hf _ IH]; constructor; [|assumption].
    rewrite (convert_source_flags _ _ _ _ Hf).
    unfold include_path_to_flags. now rewrite include_path_to_flags_loop_spec.
Qed.

(** The conversion of a group returns when the target has its object
    directory and no source resolves to the empty path. *)
Lemma convert_file_info_returns (env : Env) (group_json : FileGroupJson)
    (parent_target : Target.t) (d : string) :
  Target.object_dir parent_target = Some d ->
  Forall (fun filename => resolve_in_source_dir parent_target filename <> EmptyString)
    (sources group_json) ->
  exists files, convert_file_info env group_json parent_target = Ok files.
Proof.
  intros Hd Hsrc. unfold convert_file_info.
  induction Hsrc as [|filename srcs Hne _ [fs IH]]; simpl; [eauto|].
  unfold convert_source at 1, object_dir_of, Path.relpath. rewrite Hd. simpl.
  destruct (resolve_in_source_dir parent_target filename) eqn:E; [congruence|].
  simpl.
  match goal with |- context [match ?l with [] => _ | _ => _ end] => destruct l end;
    simpl; rewrite IH; simpl; eauto.
Qed.

Module ExampleConversion.

Definition env : Env :=
  {| getcwd := "/w";
     isfile := fun p => String.eqb p "/w/foo.h";
     read_lines := fun _ => Raise IOError |}.

Definition target : Target.t :=
  {| Target.name := "app"; Target.squashed := false; Target.type := "EXECUTABLE";
     Target.tree_root_dir := "/src"; Target.tree_build_dir := "/src/build";
     Target.build_dir := "/src/build"; Target.source_dir := "/src";
     Target.link_lang := Some "CXX"; Target.result_name := Some "app";
     Target.artifacts := ["/src/build/app"]; Target.filepaths := [];
     Target.all_includes := []; Target.all_defines := [];
     Target.all_other_flags := []; Target.all_flags := [];
     Target.object_dir := Some "/src/build/CMakeFiles/app.dir" |}.

Definition group : FileGroupJson :=
  {| sources := ["main.cpp"; "/gen/version.cpp"];
     language := Some "CXX";
     compileFlags := Some " -O2  -std=c++14 ";
     defines_json := Some ["NDEBUG"; "V=2"];
     includePath := Some [ {| inc_path := "include"; isSystem := None |};
                           {| inc_path := "/usr/include/x"; isSystem := Some true |} ] |}.

Definition expected_flags : list string :=
  ["-O2"; "-std=c++14"; "-DNDEBUG"; "-DV=2";
   "-I"; "/src/include"; "-isystem"; "/usr/include/x"].

Example converted :
  match convert_file_info env group target with
  | Ok files =>
      map File.path files = ["/src/main.cpp"; "/gen/version.cpp"]
      /\ map File.flags files = [expected_flags; expected_flags]
      /\ map File.object_file files =
           [Some "/src/build/CMakeFiles/app.dir/main.cpp.o";
            Some "/src/build/CMakeFiles/app.dir/../gen/version.cpp.o"]
  | Raise _ => False
  end.
Proof. vm_compute. repeat split. Qed.

End ExampleConversion.

Lemma convert_file_info_flags_witness :
  exists files,
    convert_file_info ExampleConversion.env ExampleConversion.group ExampleConversion.target
      = Ok files
    /\ length files = 2
    /\ Forall (fun f => File.flags f = ExampleConversion.expected_flags) files.
Proof.
  destruct (convert_file_info ExampleConversion.env ExampleConversion.group
              ExampleConversion.target) as [files|e] eqn:E; [|vm_compute in E; discriminate].
  exists files. split; [reflexivity|].
  exact (convert_file_info_flags ExampleConversion.env ExampleConversion.group
           ExampleConversion.target E).
Defined.

(** ** C10: the lookup-only mode *)

(** C10.  For a path that is not a key of the file map, [query_file] with
    [directory_heuristics=False] returns [None] and leaves the index as it
    was: the file, target, project and cache maps are those of before. *)
Theorem query_file_lookup_only (env : Env) (self : Index.t) (abs_path : string) :
  Dict.get (Index._files self) abs_path = None ->
  query_file env self abs_path false = (Ok None, self).
Proof. unfold query_file. now intros ->. Qed.

(** With the heuristics off the index is never written to, known path or not. *)
Lemma query_file_lookup_only_frame (env : Env) (self : Index.t) (abs_path : string) :
  query_file env self abs_path false = (Ok (Dict.get (Index._files self) abs_path), self).
Proof. unfold query_file. now destruct (Dict.get (Index._files self) abs_path). Qed.

(** ** The directory heuristics *)

Lemma targets_in_directory_records (abs_directory : string) (targets : Dict.t TargetEntry)
    (found : list TargetEntry) :
  targets_in_directory abs_directory targets = Ok found ->
  forall k entry, In (k, entry) targets -> exists tg, entry = TargetRecord tg.
Proof.
  revert found. induction targets as [|[k0 e0] targets IH]; simpl; intros found H k entry Hin.
  - contradiction.
  - apply bind_ok in H as (dirs & Hdirs & H).
    apply bind_ok in H as (found' & Hfound & _).
    destruct Hin as [[= <- <-]|Hin]; [|eauto].
    destruct e0; [eauto|discriminate].
Qed.

Lemma fold_add_flags_of (members : list Target.t) (acc : Target.t) :
  let merged := fold_left Target.add_flags_of members acc in
  Target.name merged = Target.name acc
  /\ Target.tree_root_dir merged = Target.tree_root_dir acc
  /\ Target.tree_build_dir merged = Target.tree_build_dir acc
  /\ Target.link_lang merged = Target.link_lang acc
  /\ Target.all_includes merged =
       Target.all_includes acc ++ concat (map Target.all_includes members)
  /\ Target.all_defines merged =
       Target.all_defines acc ++ concat (map Target.all_defines members)
  /\ Target.all_other_flags merged =
       Target.all_other_flags acc ++ concat (map Target.all_other_flags members)
  /\ Target.all_flags merged =
       Target.all_flags acc ++ concat (map Target.all_flags members).
Proof.
  revert acc. induction members as [|m members IH]; intros acc; simpl.
  - now rewrite !app_nil_r.
  - destruct (IH (Target.add_flags_of acc m)) as (H1 & H2 & H3 & H4 & H5 & H6 & H7 & H8).
    simpl in *. rewrite H1, H2, H3, H4, H5, H6, H7, H8, <- !app_assoc. repeat split.
Qed.

Lemma mapM_subscript_records (key : string) (members : list Target.t) :
  mapM (subscript key) (map TargetRecord members) = Ok members.
Proof.
  induction members as [|m members IH]; simpl; [reflexivity|]. now rewrite IH.
Qed.

(** The file record the directory heuristics make from the targets found
    in the directory of the path. *)
Definition directory_file (abs_filepath : string) (first : Target.t)
    (members : list Target.t) : File.t :=
  {| File.path := abs_filepath;
     File.target_name := Str.join "|" (map Target.name members);
     File.tree_root_dir := Target.tree_root_dir first;
     File.tree_build_dir := Target.tree_build_dir first;
     File.lang := None;
     File.heuristics := true;
     File.other_flags := concat (map Target.all_other_flags members);
     File.defines := concat (map Target.all_defines members);
     File.includes := concat (map Target.all_includes members);
     File.flags := concat (map Target.all_flags members);
     File.object_file := None;
     File.source_file := None;
     File.header_file := None |}.

Lemma get_file_info_for_directory_found (env : Env) (abs_filepath : string)
    (targets : Dict.t TargetEntry) (first : Target.t) (others : list Target.t) :
  targets_in_directory (Path.dirname abs_filepath) targets
    = Ok (map TargetRecord (first :: others)) ->
  get_file_info_for_directory env abs_filepath targets
    = Ok (Some (directory_file abs_filepath first (first :: others))).
Proof.
  intros Hfound. unfold get_file_info_for_directory. rewrite Hfound.
  cbn [bind]. unfold merge_target_info.
  cbn [map]. rewrite <- (map_cons TargetRecord first others).
  rewrite mapM_subscript_records. cbn [bind].
  match goal with
  | |- context [fold_left Target.add_flags_of ?ms ?acc] =>
      destruct (fold_add_flags_of ms acc) as (H1 & H2 & H3 & H4 & H5 & H6 & H7 & H8)
  end.
  cbv zeta in H1, H2, H3, H4, H5, H6, H7, H8.
  unfold directory_file. cbn [Target.name Target.tree_root_dir Target.tree_build_dir
    Target.link_lang Target.all_includes Target.all_defines Target.all_other_flags
    Target.all_flags app] in *.
  now rewrite H1, H2, H3, H4, H5, H6, H7, H8.
Qed.

(** A small tree: [app] and [lib] both have sources in [/src], [tool] has
    its own directory. *)
Module Demo.

Definition env : Env :=
  {| getcwd := "/w";
     isfile := fun _ => false;
     read_lines := fun _ => Raise IOError |}.

Definition target_json (name dir source : string) : TargetJson :=
  {| tj_name := name; tj_type := "EXECUTABLE";
     buildDirectory := "/src/build"; sourceDirectory := dir;
     linkerLanguage := Some "CXX"; fullName := Some name;
     artifacts_json := Some [Str.cat "/src/build/" name];
     fileGroups :=
       Some [ {| sources := [source]; language := Some "CXX";
                 compileFlags := Some (Str.cat "-O2 -DNAME=" name);
                 defines_json := Some [Str.cat "IN_" name];
                 includePath := Some [ {| inc_path := Str.cat "inc_" name;
                                          isSystem := None |} ] |} ] |}.

Definition projects_json : list ProjectJson :=
  [ {| pj_name := "demo"; pj_sourceDirectory := "/src"; pj_buildDirectory := "/src/build";
       pj_targets := Some [ target_json "app" "/src" "main.cpp";
                            target_json "lib" "/src" "util.cpp";
                            target_json "tool" "/src/tool" "tool.cpp" ] |} ].

Definition cache_json : list (string * string) :=
  [("CMAKE_CXX_COMPILER", "/usr/bin/c++"); ("CMAKE_BUILD_TYPE", "Debug")].

Definition initialized : Result unit * Index.t :=
  Eval vm_compute in
    initialize env (Index.new "/src" "/src/build") projects_json cache_json.

Definition index : Index.t := snd initialized.

Definition record_of (name : string) : Target.t :=
  match Dict.get (Index._targets index) name with
  | Some (TargetRecord tg) => tg
  | _ => ExampleConversion.target
  end.

Definition app : Target.t := Eval vm_compute in record_of "app".
Definition lib : Target.t := Eval vm_compute in record_of "lib".
Definition tool : Target.t := Eval vm_compute in record_of "tool".

Example demo_initialized : fst initialized = Ok tt.
Proof. reflexivity. Qed.

Example demo_files :
  Dict.keys (Index._files index) = ["/src/main.cpp"; "/src/util.cpp"; "/src/tool/tool.cpp"].
Proof. reflexivity. Qed.

Example demo_targets :
  Index._targets index =
  [("app", TargetRecord app); ("lib", TargetRecord lib); ("tool", TargetRecord tool)].
Proof. reflexivity. Qed.

Example app_flags :
  Target.all_flags app = ["-O2"; "-DNAME=app"; "-DIN_app"; "-I"; "/src/inc_app"].
Proof. reflexivity. Qed.

End Demo.

Lemma query_file_lookup_only_witness :
  query_file Demo.env Demo.index "/src/new.cpp" false = (Ok None, Demo.index).
Proof.
  exact (@query_file_lookup_only Demo.env Demo.index "/src/new.cpp" eq_refl).
Defined.

(** The same path with the heuristics on: the call writes to the index. *)
Example heuristics_mode_writes :
  snd (query_file Demo.env Demo.index "/src/new.cpp" true) <> Demo.index.
Proof. vm_compute. discriminate. Qed.

(** ** The target map is keyed by name *)

(** Every target record of the map is filed under its own name. *)
Definition entry_keyed_by_name (kv : string * TargetEntry) : Prop :=
  match snd kv with
  | TargetRecord tg => fst kv = Target.name tg
  | EmptyDict => True
  end.

Definition keyed_by_name (targets : Dict.t TargetEntry) : Prop :=
  Forall entry_keyed_by_name targets.

Lemma set_keyed_by_name (targets : Dict.t TargetEntry) (k : string) (entry : TargetEntry) :
  keyed_by_name targets ->
  entry_keyed_by_name (k, entry) ->
  keyed_by_name (Dict.set targets k entry).
Proof.
  intros Hkeyed Hentry. induction Hkeyed as [|[k' e'] targets Hkv Htail IH]; simpl.
  - repeat constructor. exact Hentry.
  - destruct (String.eqb k k'); constructor; auto.
Qed.

Lemma foldM_invariant {A B : Type} (P : A -> Prop) (step : A -> B -> Result A)
    (xs : list B) (acc r : A) :
  foldM step xs acc = Ok r ->
  (forall a x a', step a x = Ok a' -> P a -> P a') ->
  P acc ->
  P r.
Proof.
  intros H Hstep. revert acc H. induction xs as [|x xs IH]; intros acc H Hacc; simpl in H.
  - now injection H as <-.
  - apply bind_ok in H as (acc' & Hacc' & H). eauto.
Qed.

Lemma convert_target_info_name (env : Env) (target_json : TargetJson)
    (parent_project : Project.t) (tg : Target.t) :
  convert_target_info env target_json parent_project = Ok tg ->
  Target.name tg = tj_name target_json.
Proof.
  unfold convert_target_info. intros H. apply bind_ok in H as (groups & _ & H).
  eapply (foldM_invariant (fun tg => Target.name tg = tj_name target_json));
    [exact H| |reflexivity].
  intros a group a' Hacc Ha. unfold accumulate_group in Hacc.
  destruct group as [|first rest]; [discriminate|]. now injection Hacc as <-.
Qed.

(** The targets of a converted project are filed under their names. *)
Definition project_keyed_by_name (project : Project.t) : Prop :=
  Forall (fun kv => fst kv = Target.name (snd kv)) (Project.targets project).

Lemma set_project_keyed (targets : Dict.t Target.t) (tg : Target.t) :
  Forall (fun kv => fst kv = Target.name (snd kv)) targets ->
  Forall (fun kv => fst kv = Target.name (snd kv)) (Dict.set targets (Target.name tg) tg).
Proof.
  induction 1 as [|[k' v'] targets Hkv Htail IH]; simpl.
  - repeat constructor.
  - destruct (String.eqb (Target.name tg) k'); constructor; auto.
Qed.

Lemma convert_project_info_keyed (env : Env) (json : ProjectJson)
    (root_dir build_dir : string) (project : Project.t) :
  convert_project_info env json root_dir build_dir = Ok project ->
  project_keyed_by_name project.
Proof.
  unfold convert_project_info. intros H. apply bind_ok in H as (result & Htargets & Hfiles).
  assert (Hresult : project_keyed_by_name result).
  { eapply (foldM_invariant project_keyed_by_name); [exact Htargets| |constructor].
    intros a target_json a' Hadd Ha. unfold add_target in Hadd.
    destruct (is_skipped_type target_json); [now injection Hadd as <-|].
    apply bind_ok in Hadd as (tg & Htg & Hadd). injection Hadd as <-.
    unfold project_keyed_by_name, project_with. cbn [Project.targets].
    rewrite <- (convert_target_info_name _ _ _ Htg). now apply set_project_keyed. }
  eapply (foldM_invariant project_keyed_by_name); [exact Hfiles| |exact Hresult].
  intros a target_json a' Hadd Ha. unfold add_files in Hadd.
  destruct (is_skipped_type target_json); [now injection Hadd as <-|].
  eapply (foldM_invariant project_keyed_by_name); [exact Hadd| |exact Ha].
  intros b group_json b' Hstep Hb. cbv beta in Hstep.
  destruct (Dict.get (Project.targets b) (tj_name target_json)); [|discriminate].
  apply bind_ok in Hstep as (fs & _ & Hstep). now injection Hstep as <-.
Qed.

Lemma fold_with_files_targets (files : list File.t) (self : Index.t) :
  Index._targets
    (fold_left (fun (self : Index.t) file =>
                  Index.with_files self (Dict.set (Index._files self) (File.path file) file))
       files self)
  = Index._targets self.
Proof.
  revert self. induction files as [|file files IH]; intros self; simpl; [reflexivity|].
  now rewrite IH.
Qed.

Lemma register_project_keyed (self : Index.t) (project : Project.t) :
  keyed_by_name (Index._targets self) ->
  project_keyed_by_name project ->
  keyed_by_name (Index._targets (register_project self project)).
Proof.
  intros Hself Hproject. unfold register_project. rewrite fold_with_files_targets.
  unfold project_keyed_by_name, Dict.items in *.
  set (start := Index.with_projects self _).
  assert (Hstart : keyed_by_name (Index._targets start)) by exact Hself.
  clearbody start. revert start Hstart.
  induction Hproject as [|[k tg] items Hk _ IH]; intros start Hstart; simpl; [assumption|].
  apply IH. cbn [Index._targets Index.with_targets].
  apply set_keyed_by_name; [assumption|exact Hk].
Qed.

Lemma registered_keyed_by_name (projects : list Project.t) (self : Index.t) :
  keyed_by_name (Index._targets self) ->
  Forall project_keyed_by_name projects ->
  keyed_by_name (Index._targets (registered self projects)).
Proof.
  unfold registered. intros Hself Hprojects. revert self Hself.
  induction Hprojects as [|project projects Hp _ IH]; intros self Hself; simpl;
    [assumption|].
  apply IH. now apply register_project_keyed.
Qed.

(** [initialize] on a new index leaves a target map keyed by name,
    whether it returns or raises. *)
Lemma initialize_keyed_by_name (env : Env) (root_directory build_directory : string)
    (projects_json : list ProjectJson) (cache_json : list (string * string)) :
  keyed_by_name
    (Index._targets
       (snd (initialize env (Index.new root_directory build_directory)
               projects_json cache_json))).
Proof.
  unfold initialize. cbn [Index.root_directory Index.build_directory Index.new].
  destruct (mapM _ projects_json) as [projects|e] eqn:Hconv; [|constructor].
  assert (Hreg : keyed_by_name
                   (Index._targets
                      (registered (Index.new root_directory build_directory) projects))).
  { apply registered_keyed_by_name; [constructor|].
    apply mapM_ok in Hconv. clear - Hconv.
    induction Hconv as [|json project jsons projects Hp _ IH]; constructor; [|assumption].
    eapply convert_project_info_keyed; eassumption. }
  fold (registered (Index.new root_directory build_directory) projects).
  destruct (run_matching_header_heuristics env _); exact Hreg.
Qed.

(** [query_file] keeps the target map keyed by name. *)
Lemma query_file_keyed_by_name (env : Env) (self : Index.t) (abs_path : string)
    (directory_heuristics : bool) :
  keyed_by_name (Index._targets self) ->
  keyed_by_name (Index._targets (snd (query_file env self abs_path directory_heuristics))).
Proof.
  intros Hkeyed. unfold query_file.
  destruct (Dict.get (Index._files self) abs_path); [assumption|].
  destruct directory_heuristics; [|assumption].
  destruct (get_file_info_for_directory env abs_path (Index._targets self))
    as [[result|]|e]; try assumption.
  cbn [Index._targets Index.with_files].
  set (name := File.target_name result).
  assert (Hafter : keyed_by_name
            (Index._targets
               (if negb (Dict.mem (Index._targets self) name)
                then Index.with_targets
                       (Index.with_files self (Dict.set (Index._files self) abs_path result))
                       (Dict.set (Index._targets self) name EmptyDict)
                else Index.with_files self (Dict.set (Index._files self) abs_path result)))).
  { destruct (negb (Dict.mem (Index._targets self) name)); [|assumption].
    apply set_keyed_by_name; [assumption|exact I]. }
  revert Hafter.
  generalize (if negb (Dict.mem (Index._targets self) name)
              then Index.with_targets
                     (Index.with_files self (Dict.set (Index._files self) abs_path result))
                     (Dict.set (Index._targets self) name EmptyDict)
              else Index.with_files self (Dict.set (Index._files self) abs_path result)).
  intros self1 Hself1.
  destruct (Dict.get (Index._targets self1) name) as [[tg|]|] eqn:Hget; try assumption.
  cbn [snd Index._targets Index.with_targets].
  apply set_keyed_by_name; [assumption|].
  apply get_in in Hget. unfold keyed_by_name in Hself1. rewrite Forall_forall in Hself1.
  exact (Hself1 _ Hget).
Qed.

Lemma targets_in_directory_subset (abs_directory : string) (targets : Dict.t TargetEntry)
    (found : list TargetEntry) (entry : TargetEntry) :
  targets_in_directory abs_directory targets = Ok found ->
  In entry found ->
  exists k, In (k, entry) targets.
Proof.
  revert found. induction targets as [|[k0 e0] targets IH]; simpl; intros found H Hin.
  - injection H as <-. contradiction.
  - apply bind_ok in H as (dirs & _ & H).
    apply bind_ok in H as (found' & Hfound' & H). injection H as <-.
    destruct (in_set abs_directory dirs).
    + destruct Hin as [<-|Hin]; [eauto|].
      destruct (IH _ Hfound' Hin) as [k Hk]. eauto.
    + destruct (IH _ Hfound' Hin) as [k Hk]. eauto.
Qed.

(** A target found in a directory is a key of a map keyed by name. *)
Lemma found_target_is_key (abs_directory : string) (targets : Dict.t TargetEntry)
    (found : list TargetEntry) (tg : Target.t) :
  keyed_by_name targets ->
  targets_in_directory abs_directory targets = Ok found ->
  In (TargetRecord tg) found ->
  Dict.mem targets (Target.name tg) = true.
Proof.
  intros Hkeyed Hfound Hin.
  destruct (@targets_in_directory_subset _ _ _ _ Hfound Hin) as [k Hk].
  unfold keyed_by_name in Hkeyed. rewrite Forall_forall in Hkeyed.
  pose proof (Hkeyed _ Hk) as Hname. cbn in Hname. subst k.
  apply mem_get. apply in_keys_get.
  change (Target.name tg) with (fst (Target.name tg, TargetRecord tg)).
  now apply in_map.
Qed.

(** ** A backfill, on the example *)

Example backfill_single_target :
  match query_file Demo.env Demo.index "/src/tool/extra.cpp" true with
  | (Ok (Some result), self1) =>
      File.target_name result = "tool"
      /\ File.heuristics result = true
      /\ File.flags result = Target.all_flags Demo.tool
      /\ Dict.keys (Index._files self1) = Dict.keys (Index._files Demo.index)
                                          ++ ["/src/tool/extra.cpp"]
      /\ Dict.get (Index._targets self1) "tool"
         = Some (TargetRecord (Target.append_filepath Demo.tool "/src/tool/extra.cpp"))
  | _ => False
  end.
Proof. vm_compute. repeat split. Qed.

(** ** C2: a directory shared by several targets *)

(** C2, on the code.  When the path is not a key of the file map, the
    targets with files in its directory are [first :: others] and their
    names joined with [|] are not a key of the target map, [query_file]
    stores the squashed record under the path, stores a key-less [dict()]
    under the joined name, and raises [KeyError] on reading its
    ['filepaths']: the caller gets no record.  The record left in the file
    map does carry the members' flag lists concatenated in target order. *)
Theorem query_file_squashed_raises (env : Env) (self : Index.t) (abs_path : string)
    (first : Target.t) (others : list Target.t) :
  Dict.get (Index._files self) abs_path = None ->
  targets_in_directory (Path.dirname abs_path) (Index._targets self)
    = Ok (map TargetRecord (first :: others)) ->
  Dict.mem (Index._targets self) (Str.join "|" (map Target.name (first :: others))) = false ->
  let result := directory_file abs_path first (first :: others) in
  query_file env self abs_path true =
    (Raise (KeyError "filepaths"),
     Index.with_targets
       (Index.with_files self (Dict.set (Index._files self) abs_path result))
       (Dict.set (Index._targets self) (File.target_name result) EmptyDict))
  /\ File.flags result = concat (map Target.all_flags (first :: others))
  /\ File.includes result = concat (map Target.all_includes (first :: others))
  /\ File.defines result = concat (map Target.all_defines (first :: others))
  /\ File.other_flags result = concat (map Target.all_other_flags (first :: others)).
Proof.
  intros Hnew Hfound Hmem result. split; [|repeat split].
  unfold query_file. rewrite Hnew.
  rewrite (get_file_info_for_directory_found env abs_path _ Hfound).
  fold result.
  change (File.target_name result) with (Str.join "|" (map Target.name (first :: others))).
  cbn [Index._targets Index.with_files]. rewrite Hmem.
  cbn [negb Index._targets Index.with_targets]. now rewrite get_set_same.
Qed.

Lemma query_file_squashed_raises_witness :
  let result := directory_file "/src/new.cpp" Demo.app [Demo.app; Demo.lib] in
  query_file Demo.env Demo.index "/src/new.cpp" true =
    (Raise (KeyError "filepaths"),
     Index.with_targets
       (Index.with_files Demo.index
          (Dict.set (Index._files Demo.index) "/src/new.cpp" result))
       (Dict.set (Index._targets Demo.index) "app|lib" EmptyDict))
  /\ File.flags result =
       ["-O2"; "-DNAME=app"; "-DIN_app"; "-I"; "/src/inc_app";
        "-O2"; "-DNAME=lib"; "-DIN_lib"; "-I"; "/src/inc_lib"].
Proof.
  destruct (query_file_squashed_raises Demo.env Demo.index "/src/new.cpp"
              (first := Demo.app) (others := [Demo.lib])
              eq_refl eq_refl eq_refl) as (Hq & Hflags & _).
  split; [exact Hq|exact Hflags].
Defined.

(** After the failed call the key-less entry stays in the target map:
    the next unknown path, in whatever directory, raises too, while the
    path of the failed call is now answered from the file map. *)
Example squashed_leaves_empty_target :
  let self1 := snd (query_file Demo.env Demo.index "/src/new.cpp" true) in
  fst (query_file Demo.env self1 "/src/tool/extra.cpp" true) = Raise (KeyError "filepaths")
  /\ fst (query_file Demo.env self1 "/src/new.cpp" true)
     = Ok (Some (directory_file "/src/new.cpp" Demo.app [Demo.app; Demo.lib])).
Proof. vm_compute. split; reflexivity. Qed.

(** ** C3: which include directive decides the pairing *)

(** Does the base name of an included name, extension stripped, equal
    that of the file? *)
Definition name_matches (file_info : File.t) (included_file : string) : bool :=
  String.eqb (without_ext (File.path file_info)) (without_ext included_file).

(** The scan as the specification words it: the pairing comes from the
    first directive that both matches by name and resolves on the search
    path, and a matching directive that does not resolve is passed over. *)
Fixpoint spec_first_resolving_match (env : Env) (file_info : File.t)
    (included_files : list string) : option File.t :=
  match included_files with
  | [] => None
  | included_file :: rest =>
      if name_matches file_info included_file then
        match search_include_path env file_info included_file
                (getcwd env :: File.includes file_info) with
        | Some header => Some header
        | None => spec_first_resolving_match env file_info rest
        end
      else spec_first_resolving_match env file_info rest
  end.

Lemma match_included_skips (env : Env) (file_info : File.t) (pre rest : list string) :
  forallb (fun i => negb (name_matches file_info i)) pre = true ->
  match_included env file_info (without_ext (File.path file_info)) (pre ++ rest)
  = match_included env file_info (without_ext (File.path file_info)) rest.
Proof.
  induction pre as [|i pre IH]; simpl; [reflexivity|].
  intros H. apply andb_true_iff in H as [Hi Hpre].
  unfold name_matches in Hi. rewrite Hi. auto.
Qed.

Lemma search_include_path_first (env : Env) (file_info : File.t) (included_file : string)
    (before after : list string) (directory : string) :
  forallb (fun d => negb (isfile env (Path.join d included_file))) before = true ->
  isfile env (Path.join directory included_file) = true ->
  search_include_path env file_info included_file (before ++ directory :: after)
  = Some (File.as_header_of file_info
            (abspath env (Str.cat directory (String Path.sep included_file)))).
Proof.
  intros Hbefore Hdir. induction before as [|d before IH]; simpl.
  - now rewrite Hdir.
  - simpl in Hbefore. apply andb_true_iff in Hbefore as [Hd Hbefore].
    apply negb_true_iff in Hd. rewrite Hd. auto.
Qed.

Lemma search_include_path_none (env : Env) (file_info : File.t) (included_file : string)
    (directories : list string) :
  forallb (fun d => negb (isfile env (Path.join d included_file))) directories = true ->
  search_include_path env file_info included_file directories = None.
Proof.
  induction directories as [|d directories IH]; simpl; [reflexivity|].
  intros H. apply andb_true_iff in H as [Hd H].
  apply negb_true_iff in Hd. rewrite Hd. auto.
Qed.

(** What a pairing is made of. *)
Lemma search_include_path_some (env : Env) (file_info : File.t) (included_file : string)
    (directories : list string) (header : File.t) :
  search_include_path env file_info included_file directories = Some header ->
  exists p, header = File.as_header_of file_info p.
Proof.
  induction directories as [|d directories IH]; simpl; [discriminate|].
  destruct (isfile env (Path.join d included_file)); [|exact IH].
  intros [= <-]. eauto.
Qed.

Lemma match_header_some (env : Env) (file_info header : File.t) :
  match_header env file_info = Ok (Some header) ->
  exists p, header = File.as_header_of file_info p.
Proof.
  unfold match_header. intros H. apply bind_ok in H as (lines & _ & H).
  injection H as H. revert H.
  generalize (scan_includes lines []). intros included.
  induction included as [|i included IH]; cbn [match_included]; [discriminate|].
  destruct (negb _); [exact IH|]. apply search_include_path_some.
Qed.

(** C3, as the code has it.  The included names are taken in the order of
    the directives.  The first one whose base name is that of the source
    file decides alone: the scan returns the search of that name over the
    working directory followed by the include list of the file, whatever
    directives follow.  So it is paired with the first directory where the
    name is a file, and when it is a file in none of them the scan ends
    with no pairing. *)
Theorem match_header_first_name_match (env : Env) (file_info : File.t)
    (lines pre post : list string) (included_file : string) :
  read_lines env (File.path file_info) = Ok lines ->
  scan_includes lines [] = pre ++ included_file :: post ->
  forallb (fun i => negb (name_matches file_info i)) pre = true ->
  name_matches file_info included_file = true ->
  let search_path := getcwd env :: File.includes file_info in
  match_header env file_info
    = Ok (search_include_path env file_info included_file search_path)
  /\ (forall before directory after,
        search_path = before ++ directory :: after ->
        forallb (fun d => negb (isfile env (Path.join d included_file))) before = true ->
        isfile env (Path.join directory included_file) = true ->
        match_header env file_info
          = Ok (Some (File.as_header_of file_info
                        (abspath env (Str.cat directory (String Path.sep included_file))))))
  /\ (forallb (fun d => negb (isfile env (Path.join d included_file))) search_path = true ->
      match_header env file_info = Ok None).
Proof.
  intros Hread Hscan Hpre Hname search_path.
  assert (Hmain : match_header env file_info
                  = Ok (search_include_path env file_info included_file search_path)).
  { unfold match_header. rewrite Hread. cbn [bind]. rewrite Hscan.
    rewrite match_included_skips by assumption.
    cbn [match_included]. unfold name_matches in Hname. now rewrite Hname. }
  split; [exact Hmain|split].
  - intros before directory after Hpath Hbefore Hdir.
    rewrite Hmain, Hpath. f_equal. now apply search_include_path_first.
  - intros Hnone. rewrite Hmain. f_equal. now apply search_include_path_none.
Qed.

(** A source whose first directive of its own name does not resolve and
    whose second does. *)
Module Unresolved.

Definition env : Env :=
  {| getcwd := "/w";
     isfile := fun p => String.eqb p "/src/include/foo.h";
     read_lines := fun p =>
       if String.eqb p "/src/foo.cpp"
       then Ok [ "#include <vector>";
                 "  #include <detail/foo.h>";
                 "#include <foo.h>";
                 "int main() { return 0; }" ]
       else Raise IOError |}.

Definition source : File.t :=
  {| File.path := "/src/foo.cpp"; File.target_name := "app";
     File.tree_root_dir := "/src"; File.tree_build_dir := "/src/build";
     File.lang := Some "CXX"; File.heuristics := false;
     File.other_flags := []; File.defines := [];
     File.includes := ["/src/include"];
     File.flags := ["-I"; "/src/include"];
     File.object_file := Some "/src/build/CMakeFiles/app.dir/foo.cpp.o";
     File.source_file := None; File.header_file := None |}.

Definition included : list string := ["vector"; "detail/foo.h"; "foo.h"].

Example scanned :
  match read_lines env (File.path source) with
  | Ok lines => scan_includes lines [] = included
  | Raise _ => False
  end.
Proof. reflexivity. Qed.

End Unresolved.

(** C3 as stated: the scan of a readable file returns what the stated scan
    returns on its directives. *)
Definition scan_continues_claim (env : Env) (file_info : File.t) : Prop :=
  forall lines,
    read_lines env (File.path file_info) = Ok lines ->
    match_header env file_info
    = Ok (spec_first_resolving_match env file_info (scan_includes lines [])).

Example stated_scan_pairs_second_directive :
  spec_first_resolving_match Unresolved.env Unresolved.source Unresolved.included
  = Some (File.as_header_of Unresolved.source "/src/include/foo.h").
Proof. reflexivity. Qed.

(** C3 as stated fails: the third directive matches by name and resolves,
    the stated scan pairs it, and [match_header] has returned [None] at
    the second directive, which matches by name and does not resolve. *)
Lemma match_header_stops_at_unresolved :
  ~ scan_continues_claim Unresolved.env Unresolved.source.
Proof.
  intros Hclaim.
  specialize (Hclaim [ "#include <vector>"; "  #include <detail/foo.h>";
                       "#include <foo.h>"; "int main() { return 0; }" ] eq_refl).
  vm_compute in Hclaim. discriminate Hclaim.
Qed.

Lemma match_header_first_name_match_witness :
  match_header Unresolved.env Unresolved.source = Ok None.
Proof.
  refine (proj2 (proj2 (@match_header_first_name_match Unresolved.env Unresolved.source
                          [ "#include <vector>";
                            "  #include <detail/foo.h>";
                            "#include <foo.h>";
                            "int main() { return 0; }" ]
                          ["vector"] ["foo.h"] "detail/foo.h"
                          eq_refl eq_refl eq_refl eq_refl)) eq_refl).
Defined.

(** ** C9: read failures during the header heuristics *)

(** The exceptions the two [except] clauses name. *)
Definition absorbed (e : exn) : bool :=
  match e with
  | IOError | UnicodeDecodeError => true
  | _ => false
  end.

(** Reading the file succeeds, or fails with an exception that is
    absorbed. *)
Definition readable_or_absorbed (env : Env) (file : File.t) : bool :=
  match read_lines env (File.path file) with
  | Ok _ => true
  | Raise e => absorbed e
  end.

Lemma match_header_raises (env : Env) (file : File.t) (e : exn) :
  read_lines env (File.path file) = Raise e -> match_header env file = Raise e.
Proof. unfold match_header. now intros ->. Qed.

Lemma match_header_raises_inv (env : Env) (file : File.t) (e : exn) :
  match_header env file = Raise e -> read_lines env (File.path file) = Raise e.
Proof.
  unfold match_header. destruct (read_lines env (File.path file)); simpl; congruence.
Qed.

Lemma heuristics_loop_skip (env : Env) (file : File.t) (e : exn) (rest : list File.t)
    (new_files : Dict.t File.t) :
  read_lines env (File.path file) = Raise e ->
  absorbed e = true ->
  heuristics_loop env (file :: rest) new_files = heuristics_loop env rest new_files.
Proof.
  intros Hread Habs. cbn [heuristics_loop].
  rewrite (match_header_raises env file Hread).
  destruct e; try discriminate; reflexivity.
Qed.

Lemma heuristics_loop_propagates (env : Env) (file : File.t) (e : exn) (rest : list File.t)
    (new_files : Dict.t File.t) :
  read_lines env (File.path file) = Raise e ->
  absorbed e = false ->
  heuristics_loop env (file :: rest) new_files = Raise e.
Proof.
  intros Hread Habs. cbn [heuristics_loop].
  rewrite (match_header_raises env file Hread).
  destruct e; try discriminate; reflexivity.
Qed.

(** What one round of the loop does to [new_files] when it goes on. *)
Definition round (env : Env) (file : File.t) (new_files : Dict.t File.t) : Dict.t File.t :=
  match match_header env file with
  | Ok (Some header) =>
      Dict.set (Dict.set new_files (File.path header) header) (File.path file)
        (File.with_header_file file (File.path header))
  | _ => new_files
  end.

Lemma heuristics_loop_round (env : Env) (file : File.t) (rest : list File.t)
    (new_files : Dict.t File.t) :
  readable_or_absorbed env file = true ->
  heuristics_loop env (file :: rest) new_files
  = heuristics_loop env rest (round env file new_files).
Proof.
  unfold readable_or_absorbed, round. cbn [heuristics_loop].
  destruct (match_header env file) as [[header|]|e] eqn:E; try reflexivity.
  rewrite (match_header_raises_inv env file E). intros Habs.
  destruct e; try discriminate; reflexivity.
Qed.

Lemma heuristics_loop_returns (env : Env) (files : list File.t) (new_files : Dict.t File.t) :
  forallb (readable_or_absorbed env) files = true ->
  exists result, heuristics_loop env files new_files = Ok result.
Proof.
  revert new_files. induction files as [|file rest IH]; intros new_files H.
  - simpl. eauto.
  - simpl in H. apply andb_true_iff in H as [Hfile Hrest].
    rewrite heuristics_loop_round by assumption. auto.
Qed.

Lemma heuristics_loop_app (env : Env) (pre rest : list File.t) (new_files : Dict.t File.t) :
  forallb (readable_or_absorbed env) pre = true ->
  heuristics_loop env (pre ++ rest) new_files
  = heuristics_loop env rest (fold_left (fun acc file => round env file acc) pre new_files).
Proof.
  revert new_files. induction pre as [|file pre IH]; intros new_files H; [reflexivity|].
  simpl in H. apply andb_true_iff in H as [Hfile Hpre].
  rewrite <- app_comm_cons, heuristics_loop_round by assumption. now apply IH.
Qed.

Lemma initialize_returns (env : Env) (self : Index.t) (projects_json : list ProjectJson)
    (cache_json : list (string * string)) (projects : list Project.t)
    (new_files : Dict.t File.t) :
  mapM (fun project => convert_project_info env project
                         (Index.root_directory self) (Index.build_directory self))
    projects_json = Ok projects ->
  run_matching_header_heuristics env (Index._files (registered self projects)) = Ok new_files ->
  initialize env self projects_json cache_json =
    (Ok tt,
     Index.with_cache
       (Index.with_files (registered self projects)
          (Dict.update (Index._files (registered self projects)) new_files))
       (convert_cache_variables cache_json)).
Proof.
  intros Hconv Hrun. unfold initialize. rewrite Hconv.
  fold (registered self projects). now rewrite Hrun.
Qed.

Lemma initialize_raises (env : Env) (self : Index.t) (projects_json : list ProjectJson)
    (cache_json : list (string * string)) (projects : list Project.t) (e : exn) :
  mapM (fun project => convert_project_info env project
                         (Index.root_directory self) (Index.build_directory self))
    projects_json = Ok projects ->
  run_matching_header_heuristics env (Index._files (registered self projects)) = Raise e ->
  initialize env self projects_json cache_json = (Raise e, registered self projects).
Proof.
  intros Hconv Hrun. unfold initialize. rewrite Hconv.
  fold (registered self projects). now rewrite Hrun.
Qed.

(** C9.  Let [file] be one of the files the heuristics examine, after
    [pre] and before [post], and let reading it raise [e], the files of
    [pre] being readable or failing with an absorbed exception.  If [e] is
    [IOError] or [UnicodeDecodeError], the result is that of the loop over
    [pre ++ post]: [file] adds no pairing and the files after it are
    examined; when those are readable or fail the same way, the heuristics
    return, and so does an [initialize] whose conversion has returned and
    whose registered files are these.  If [e] is any other exception, the
    heuristics raise [e], and so does that [initialize]. *)
Theorem header_heuristics_read_failure (env : Env) (known_files : Dict.t File.t)
    (pre post : list File.t) (file : File.t) (e : exn) :
  Dict.values known_files = pre ++ file :: post ->
  read_lines env (File.path file) = Raise e ->
  forallb (readable_or_absorbed env) pre = true ->
  (absorbed e = true ->
     run_matching_header_heuristics env known_files
       = heuristics_loop env (pre ++ post) (Dict.empty File.t)
     /\ (forallb (readable_or_absorbed env) post = true ->
         (exists new_files, run_matching_header_heuristics env known_files = Ok new_files)
         /\ forall self projects_json cache_json projects,
              mapM (fun project => convert_project_info env project
                                     (Index.root_directory self) (Index.build_directory self))
                projects_json = Ok projects ->
              Index._files (registered self projects) = known_files ->
              fst (initialize env self projects_json cache_json) = Ok tt))
  /\ (absorbed e = false ->
        run_matching_header_heuristics env known_files = Raise e
        /\ forall self projects_json cache_json projects,
             mapM (fun project => convert_project_info env project
                                    (Index.root_directory self) (Index.build_directory self))
               projects_json = Ok projects ->
             Index._files (registered self projects) = known_files ->
             fst (initialize env self projects_json cache_json) = Raise e).
Proof.
  intros Hvalues Hread Hpre. unfold run_matching_header_heuristics. rewrite Hvalues.
  split; intros Habs.
  - assert (Hskip : heuristics_loop env (pre ++ file :: post) (Dict.empty File.t)
                    = heuristics_loop env (pre ++ post) (Dict.empty File.t)).
    { rewrite !heuristics_loop_app by assumption. now apply heuristics_loop_skip with e. }
    split; [exact Hskip|]. intros Hpost.
    assert (Hall : forallb (readable_or_absorbed env) (pre ++ post) = true).
    { rewrite forallb_app, Hpre, Hpost. reflexivity. }
    destruct (heuristics_loop_returns env (pre ++ post) (Dict.empty File.t) Hall)
      as [new_files Hnew].
    split; [exists new_files; now rewrite Hskip|].
    intros self projects_json cache_json projects Hconv Hfiles.
    rewrite (initialize_returns env self projects_json cache_json (new_files := new_files) Hconv);
      [reflexivity|].
    unfold run_matching_header_heuristics. now rewrite Hfiles, Hvalues, Hskip.
  - assert (Hraise : heuristics_loop env (pre ++ file :: post) (Dict.empty File.t) = Raise e).
    { rewrite heuristics_loop_app by assumption. now apply heuristics_loop_propagates. }
    split; [exact Hraise|].
    intros self projects_json cache_json projects Hconv Hfiles.
    rewrite (initialize_raises env self projects_json cache_json (e := e) Hconv);
      [reflexivity|].
    unfold run_matching_header_heuristics. now rewrite Hfiles, Hvalues.
Qed.

(** The tree of [Demo] with contents: [util.cpp] cannot be read, with the
    exception given; the two other sources include a header of their
    name that is found in their include directory. *)
Module Unreadable.

Definition env (e : exn) : Env :=
  {| getcwd := "/w";
     isfile := fun p => String.eqb p "/src/inc_app/main.h"
                        || String.eqb p "/src/tool/inc_tool/tool.h";
     read_lines := fun p =>
       if String.eqb p "/src/main.cpp" then Ok ["#include <main.h>"; "int main();"]
       else if String.eqb p "/src/tool/tool.cpp" then Ok ["#include <tool.h>"]
       else Raise e |}.

Definition projects : list Project.t :=
  Eval vm_compute in
    match mapM (fun project => convert_project_info (env IOError) project "/src" "/src/build")
            Demo.projects_json with
    | Ok ps => ps
    | Raise _ => []
    end.

Definition known_files : Dict.t File.t :=
  Eval vm_compute in Index._files (registered (Index.new "/src" "/src/build") projects).

Definition nth_file (n : nat) : File.t := nth n (Dict.values known_files) Unresolved.source.

Definition main_cpp : File.t := Eval vm_compute in nth_file 0.
Definition util_cpp : File.t := Eval vm_compute in nth_file 1.
Definition tool_cpp : File.t := Eval vm_compute in nth_file 2.

Example paths :
  map File.path [main_cpp; util_cpp; tool_cpp]
  = ["/src/main.cpp"; "/src/util.cpp"; "/src/tool/tool.cpp"].
Proof. reflexivity. Qed.

Example conversion_is_that_of_env (e : exn) :
  mapM (fun project => convert_project_info (env e) project "/src" "/src/build")
    Demo.projects_json = Ok projects.
Proof. reflexivity. Qed.

Example pairings_without_util :
  match run_matching_header_heuristics (env UnicodeDecodeError) known_files with
  | Ok new_files =>
      Dict.keys new_files
      = ["/src/inc_app/main.h"; "/src/main.cpp";
         "/src/tool/inc_tool/tool.h"; "/src/tool/tool.cpp"]
  | Raise _ => False
  end.
Proof. reflexivity. Qed.

End Unreadable.

Lemma header_heuristics_read_failure_witness :
  ((exists new_files,
      run_matching_header_heuristics (Unreadable.env UnicodeDecodeError)
        Unreadable.known_files = Ok new_files)
   /\ fst (initialize (Unreadable.env UnicodeDecodeError) (Index.new "/src" "/src/build")
             Demo.projects_json Demo.cache_json) = Ok tt)
  /\ (run_matching_header_heuristics (Unreadable.env MemoryError) Unreadable.known_files
        = Raise MemoryError
      /\ fst (initialize (Unreadable.env MemoryError) (Index.new "/src" "/src/build")
                Demo.projects_json Demo.cache_json) = Raise MemoryError).
Proof.
  split.
  - destruct (@header_heuristics_read_failure (Unreadable.env UnicodeDecodeError)
                Unreadable.known_files [Unreadable.main_cpp] [Unreadable.tool_cpp]
                Unreadable.util_cpp UnicodeDecodeError eq_refl eq_refl eq_refl)
      as [Habsorbed _].
    destruct (Habsorbed eq_refl) as [_ Hreturns].
    destruct (Hreturns eq_refl) as [Hrun Hinit].
    split; [exact Hrun|].
    exact (Hinit (Index.new "/src" "/src/build") Demo.projects_json Demo.cache_json
             Unreadable.projects eq_refl eq_refl).
  - destruct (@header_heuristics_read_failure (Unreadable.env MemoryError)
                Unreadable.known_files [Unreadable.main_cpp] [Unreadable.tool_cpp]
                Unreadable.util_cpp MemoryError eq_refl eq_refl eq_refl)
      as [_ Hother].
    destruct (Hother eq_refl) as [Hrun Hinit].
    split; [exact Hrun|].
    exact (Hinit (Index.new "/src" "/src/build") Demo.projects_json Demo.cache_json
             Unreadable.projects eq_refl eq_refl).
Defined.

(** ** C7: the pairing in the index after initialization *)

(** Every file of the map is filed under its own path, once. *)
Definition keyed_by_path (d : Dict.t File.t) : Prop :=
  NoDup (Dict.keys d) /\ Forall (fun kv => fst kv = File.path (snd kv)) d.

Lemma set_keyed_by_path (d : Dict.t File.t) (file : File.t) :
  keyed_by_path d -> keyed_by_path (Dict.set d (File.path file) file).
Proof.
  intros [Hnd Hkeys]. split; [now apply set_NoDup|].
  clear Hnd. induction Hkeys as [|[k v] d Hkv Htail IH]; simpl.
  - repeat constructor.
  - destruct (String.eqb (File.path file) k); constructor; auto.
Qed.

Lemma fold_with_targets_files (items : list (string * Target.t)) (self : Index.t) :
  Index._files
    (fold_left (fun (self : Index.t) item =>
                  Index.with_targets self
                    (Dict.set (Index._targets self) (fst item) (TargetRecord (snd item))))
       items self)
  = Index._files self.
Proof.
  revert self. induction items as [|item items IH]; intros self; simpl; [reflexivity|].
  now rewrite IH.
Qed.

Lemma fold_with_files_files (files : list File.t) (self : Index.t) :
  Index._files
    (fold_left (fun (self : Index.t) file =>
                  Index.with_files self (Dict.set (Index._files self) (File.path file) file))
       files self)
  = fold_left (fun d file => Dict.set d (File.path file) file) files (Index._files self).
Proof.
  revert self. induction files as [|file files IH]; intros self; simpl; [reflexivity|].
  now rewrite IH.
Qed.

Lemma register_project_files (self : Index.t) (project : Project.t) :
  Index._files (register_project self project)
  = fold_left (fun d file => Dict.set d (File.path file) file)
      (Project.files project) (Index._files self).
Proof.
  unfold register_project. now rewrite fold_with_files_files, fold_with_targets_files.
Qed.

Lemma registered_keyed_by_path (projects : list Project.t) (self : Index.t) :
  keyed_by_path (Index._files self) ->
  keyed_by_path (Index._files (registered self projects)).
Proof.
  unfold registered. revert self.
  induction projects as [|project projects IH]; intros self H; simpl; [assumption|].
  apply IH. rewrite register_project_files.
  revert H. generalize (Index._files self).
  induction (Project.files project) as [|file files IHf]; intros d H; simpl; [assumption|].
  apply IHf. now apply set_keyed_by_path.
Qed.

Lemma keyed_values_NoDup (d : Dict.t File.t) :
  keyed_by_path d -> NoDup (map File.path (Dict.values d)).
Proof.
  intros [Hnd Hkeys]. unfold Dict.values, Dict.keys in *.
  rewrite map_map. erewrite map_ext_in; [exact Hnd|].
  intros kv Hin. rewrite Forall_forall in Hkeys. symmetry. now apply Hkeys.
Qed.

Lemma keyed_get_value (d : Dict.t File.t) (file : File.t) :
  keyed_by_path d -> Dict.get d (File.path file) = Some file -> In file (Dict.values d).
Proof.
  intros _ H. apply get_in in H. unfold Dict.values.
  change file with (snd (File.path file, file)). now apply in_map.
Qed.

Lemma round_NoDup (env : Env) (file : File.t) (new_files : Dict.t File.t) :
  NoDup (Dict.keys new_files) -> NoDup (Dict.keys (round env file new_files)).
Proof.
  intros H. unfold round. destruct (match_header env file) as [[header|]|e]; auto.
  now apply set_NoDup, set_NoDup.
Qed.

Lemma heuristics_loop_NoDup (env : Env) (files : list File.t)
    (new_files result : Dict.t File.t) :
  NoDup (Dict.keys new_files) ->
  heuristics_loop env files new_files = Ok result ->
  NoDup (Dict.keys result).
Proof.
  revert new_files. induction files as [|file rest IH]; intros new_files Hnd H.
  - simpl in H. now injection H as <-.
  - cbn [heuristics_loop] in H.
    destruct (match_header env file) as [[header|]|e] eqn:E.
    + eapply IH; [|exact H]. now apply set_NoDup, set_NoDup.
    + eauto.
    + destruct e; try discriminate; eauto.
Qed.

(** A file that the heuristics pair is written under its own path and
    its header under the header's path: neither path is [key]. *)
Definition leaves_alone (env : Env) (key : string) (file : File.t) : bool :=
  match match_header env file with
  | Ok (Some header) =>
      negb (String.eqb (File.path header) key) && negb (String.eqb (File.path file) key)
  | _ => true
  end.

Lemma heuristics_loop_keeps (env : Env) (files : list File.t)
    (new_files result : Dict.t File.t) (key : string) (value : File.t) :
  heuristics_loop env files new_files = Ok result ->
  Dict.get new_files key = Some value ->
  forallb (leaves_alone env key) files = true ->
  Dict.get result key = Some value.
Proof.
  revert new_files. induction files as [|file rest IH]; intros new_files H Hget Hall.
  - simpl in H. now injection H as <-.
  - simpl in Hall. apply andb_true_iff in Hall as [Hfile Hrest].
    cbn [heuristics_loop] in H. unfold leaves_alone in Hfile.
    destruct (match_header env file) as [[header|]|e] eqn:E.
    + apply andb_true_iff in Hfile as [Hh Hf].
      apply negb_true_iff, String.eqb_neq in Hh, Hf.
      eapply IH; [exact H| |exact Hrest].
      now rewrite !get_set_other by assumption.
    + eauto.
    + destruct e; try discriminate; eauto.
Qed.

(** The pairing of [file] with [header] is not written over: the two
    paths differ, and every other file the heuristics pair leaves both
    alone. *)
Definition pairing_unambiguous (env : Env) (known_files : Dict.t File.t)
    (file header : File.t) : bool :=
  negb (String.eqb (File.path header) (File.path file))
  && forallb (fun other =>
                String.eqb (File.path other) (File.path file)
                || (leaves_alone env (File.path header) other
                    && leaves_alone env (File.path file) other))
       (Dict.values known_files).

Lemma heuristics_loop_pairs (env : Env) (files : list File.t)
    (new_files result : Dict.t File.t) (file header : File.t) :
  heuristics_loop env files new_files = Ok result ->
  NoDup (map File.path files) ->
  In file files ->
  match_header env file = Ok (Some header) ->
  File.path header <> File.path file ->
  forallb (fun other =>
             String.eqb (File.path other) (File.path file)
             || (leaves_alone env (File.path header) other
                 && leaves_alone env (File.path file) other)) files = true ->
  Dict.get result (File.path header) = Some header
  /\ Dict.get result (File.path file)
     = Some (File.with_header_file file (File.path header)).
Proof.
  revert new_files.
  induction files as [|g rest IH]; intros new_files H Hnd Hin Hmatch Hne Hall;
    [contradiction|].
  simpl in Hall. apply andb_true_iff in Hall as [Hg Hrest].
  inversion Hnd as [|? ? Hnotin Hnd']; subst.
  destruct Hin as [->|Hin].
  - cbn [heuristics_loop] in H. rewrite Hmatch in H.
    assert (Hothers : forallb (leaves_alone env (File.path header)) rest = true
                      /\ forallb (leaves_alone env (File.path file)) rest = true).
    { clear - Hrest Hnotin. induction rest as [|o rest IHr]; [split; reflexivity|].
      simpl in Hrest. apply andb_true_iff in Hrest as [Ho Hrest].
      destruct IHr as [I1 I2]; [assumption|simpl in Hnotin; tauto|].
      apply orb_true_iff in Ho as [Ho|Ho].
      - apply String.eqb_eq in Ho. exfalso. apply Hnotin. simpl. auto.
      - apply andb_true_iff in Ho as [O1 O2]. simpl. now rewrite O1, O2, I1, I2. }
    destruct Hothers as [Hh Hf]. split.
    + eapply heuristics_loop_keeps; [exact H| |exact Hh].
      rewrite get_set_other by congruence. apply get_set_same.
    + eapply heuristics_loop_keeps; [exact H| |exact Hf]. apply get_set_same.
  - cbn [heuristics_loop] in H.
    destruct (match_header env g) as [[hg|]|e] eqn:E.
    + eapply IH; eassumption.
    + eapply IH; eassumption.
    + destruct e; try discriminate; eapply IH; eassumption.
Qed.

(** C7, as the code has it.  Let [initialize] on a new index return, let
    [file] be one of the files the conversion registered and let the scan
    of [file] pair it with [header].  When no other file that the scan
    pairs has the path of [header] or of [file] as its own path or as the
    path of its header, the file map then holds [header] under its path,
    a heuristic record with the flags of [file] and [source_file] the path
    of [file], and holds under the path of [file] a copy of [file] whose
    [header_file] is the path of [header]. *)
Theorem header_pairing_after_initialize (env : Env) (root_directory build_directory : string)
    (projects_json : list ProjectJson) (cache_json : list (string * string))
    (projects : list Project.t) (self' : Index.t) (file header : File.t) :
  let known_files :=
    Index._files (registered (Index.new root_directory build_directory) projects) in
  mapM (fun project => convert_project_info env project root_directory build_directory)
    projects_json = Ok projects ->
  initialize env (Index.new root_directory build_directory) projects_json cache_json
    = (Ok tt, self') ->
  Dict.get known_files (File.path file) = Some file ->
  match_header env file = Ok (Some header) ->
  pairing_unambiguous env known_files file header = true ->
  Dict.get (Index._files self') (File.path header) = Some header
  /\ File.heuristics header = true
  /\ File.source_file header = Some (File.path file)
  /\ File.flags header = File.flags file
  /\ Dict.get (Index._files self') (File.path file)
     = Some (File.with_header_file file (File.path header))
  /\ File.header_file (File.with_header_file file (File.path header))
     = Some (File.path header).
Proof.
  intros known_files Hconv Hinit Hknown Hmatch Hclear.
  unfold pairing_unambiguous in Hclear. apply andb_true_iff in Hclear as [Hne Hothers].
  apply negb_true_iff, String.eqb_neq in Hne.
  assert (Hkeyed : keyed_by_path known_files).
  { apply registered_keyed_by_path. split; [constructor|constructor]. }
  unfold initialize in Hinit. cbn [Index.root_directory Index.build_directory Index.new] in Hinit.
  rewrite Hconv in Hinit.
  fold (registered (Index.new root_directory build_directory) projects) in Hinit.
  fold known_files in Hinit.
  destruct (run_matching_header_heuristics env known_files) as [new_files|e] eqn:Hrun;
    [|discriminate].
  injection Hinit as <-. cbn [Index._files Index.with_cache Index.with_files].
  fold known_files.
  unfold run_matching_header_heuristics in Hrun.
  assert (Hnd : NoDup (Dict.keys new_files)).
  { eapply heuristics_loop_NoDup; [|exact Hrun]. constructor. }
  destruct (@heuristics_loop_pairs env (Dict.values known_files) _ _ file header Hrun
              (keyed_values_NoDup Hkeyed) (@keyed_get_value known_files file Hkeyed Hknown)
              Hmatch Hne Hothers) as [Hh Hf].
  rewrite !get_update by assumption. rewrite Hh, Hf.
  destruct (match_header_some env file Hmatch) as [p ->].
  repeat split.
Qed.

Module Paired.

Definition env : Env := Unreadable.env IOError.

Definition index : Index.t :=
  Eval vm_compute in
    snd (initialize env (Index.new "/src" "/src/build") Demo.projects_json Demo.cache_json).

Definition main_h : File.t :=
  Eval vm_compute in File.as_header_of Unreadable.main_cpp "/src/inc_app/main.h".

Example files_after :
  Dict.keys (Index._files index)
  = ["/src/main.cpp"; "/src/util.cpp"; "/src/tool/tool.cpp";
     "/src/inc_app/main.h"; "/src/tool/inc_tool/tool.h"].
Proof. reflexivity. Qed.

End Paired.

Lemma header_pairing_after_initialize_witness :
  Dict.get (Index._files Paired.index) "/src/inc_app/main.h" = Some Paired.main_h
  /\ File.heuristics Paired.main_h = true
  /\ File.source_file Paired.main_h = Some "/src/main.cpp"
  /\ File.flags Paired.main_h = File.flags Unreadable.main_cpp
  /\ Dict.get (Index._files Paired.index) "/src/main.cpp"
     = Some (File.with_header_file Unreadable.main_cpp "/src/inc_app/main.h")
  /\ File.header_file (File.with_header_file Unreadable.main_cpp "/src/inc_app/main.h")
     = Some "/src/inc_app/main.h".
Proof.
  exact (@header_pairing_after_initialize Paired.env "/src" "/src/build"
           Demo.projects_json Demo.cache_json Unreadable.projects Paired.index
           Unreadable.main_cpp Paired.main_h
           eq_refl eq_refl eq_refl eq_refl eq_refl).
Defined.

(** C7 as stated: whatever file the scan pairs, the index holds the
    header with that file as its [source_file], and the file with the
    header as its [header_file]. *)
Definition header_pairing_claim (env : Env) (root_directory build_directory : string)
    (projects_json : list ProjectJson) (cache_json : list (string * string)) : Prop :=
  forall (projects : list Project.t) (self' : Index.t) (file header : File.t),
    mapM (fun project => convert_project_info env project root_directory build_directory)
      projects_json = Ok projects ->
    initialize env (Index.new root_directory build_directory) projects_json cache_json
      = (Ok tt, self') ->
    Dict.get (Index._files (registered (Index.new root_directory build_directory) projects))
      (File.path file) = Some file ->
    match_header env file = Ok (Some header) ->
    exists stored_header stored_file,
      Dict.get (Index._files self') (File.path header) = Some stored_header
      /\ File.heuristics stored_header = true
      /\ File.source_file stored_header = Some (File.path file)
      /\ File.flags stored_header = File.flags file
      /\ Dict.get (Index._files self') (File.path file) = Some stored_file
      /\ File.header_file stored_file = Some (File.path header).

(** Two targets, each with a [foo.cpp] of its own that includes [foo.h],
    found in the include directory they share. *)
Module Shared.

Definition env : Env :=
  {| getcwd := "/w";
     isfile := fun p => String.eqb p "/src/include/foo.h";
     read_lines := fun p =>
       if String.eqb p "/src/a/foo.cpp" || String.eqb p "/src/b/foo.cpp"
       then Ok ["#include <foo.h>"]
       else Raise IOError |}.

Definition target_json (name : string) : TargetJson :=
  {| tj_name := name; tj_type := "STATIC_LIBRARY";
     buildDirectory := "/src/build"; sourceDirectory := Str.cat "/src/" name;
     linkerLanguage := Some "CXX"; fullName := None; artifacts_json := None;
     fileGroups :=
       Some [ {| sources := ["foo.cpp"]; language := Some "CXX";
                 compileFlags := Some (Str.cat "-DIN_" name); defines_json := None;
                 includePath := Some [ {| inc_path := "/src/include";
                                          isSystem := None |} ] |} ] |}.

Definition projects_json : list ProjectJson :=
  [ {| pj_name := "shared"; pj_sourceDirectory := "/src"; pj_buildDirectory := "/src/build";
       pj_targets := Some [target_json "a"; target_json "b"] |} ].

Definition projects : list Project.t :=
  Eval vm_compute in
    match mapM (fun project => convert_project_info env project "/src" "/src/build")
            projects_json with
    | Ok ps => ps
    | Raise _ => []
    end.

Definition index : Index.t :=
  Eval vm_compute in
    snd (initialize env (Index.new "/src" "/src/build") projects_json []).

Definition a_foo_cpp : File.t :=
  Eval vm_compute in
    nth 0 (Dict.values (Index._files (registered (Index.new "/src" "/src/build") projects)))
      Unresolved.source.

Example a_foo_cpp_is_paired :
  File.path a_foo_cpp = "/src/a/foo.cpp"
  /\ match_header env a_foo_cpp
     = Ok (Some (File.as_header_of a_foo_cpp "/src/include/foo.h")).
Proof. split; reflexivity. Qed.

Example header_points_to_b :
  option_map File.source_file (Dict.get (Index._files index) "/src/include/foo.h")
  = Some (Some "/src/b/foo.cpp").
Proof. reflexivity. Qed.

End Shared.

(** C7 as stated fails: both sources are paired with [/src/include/foo.h],
    the entry of the second is written over that of the first, and the
    header in the index names [/src/b/foo.cpp] as its source. *)
Lemma header_pairing_overwritten :
  ~ header_pairing_claim Shared.env "/src" "/src/build" Shared.projects_json [].
Proof.
  intros Hclaim.
  destruct (Hclaim Shared.projects Shared.index Shared.a_foo_cpp
              (File.as_header_of Shared.a_foo_cpp "/src/include/foo.h")
              eq_refl eq_refl eq_refl eq_refl)
    as (stored_header & stored_file & Hget & _ & Hsource & _).
  vm_compute in Hget. injection Hget as <-. discriminate Hsource.
Qed.

(** ** C5: the compilation database *)

Definition has_object_file (file : File.t) : bool :=
  match File.object_file file with Some _ => true | None => false end.

(** The record of a file that has its object file. *)
Definition record_for (index : Index.t) (file : File.t) : CompileCommand :=
  {| cc_directory := File.tree_build_dir file;
     cc_file := File.path file;
     cc_command :=
       (Str.of_option (cache_variable index
                         ("CMAKE_" ++ Str.of_option (File.lang file) ++ "_COMPILER"))
        ++ " " ++ Str.join " " (File.flags file)
        ++ " -c " ++ File.path file
        ++ " -o " ++ get_default (File.object_file file) EmptyString)%string |}.

Lemma compilation_record_converted (index : Index.t) (file : File.t) :
  has_object_file file = true ->
  compilation_record index file = Ok (record_for index file).
Proof.
  unfold has_object_file, compilation_record, object_file_of, record_for.
  destruct (File.object_file file); [reflexivity|discriminate].
Qed.

(** When every file of the index has its object file, as the files of a
    conversion and their paired headers do, the projection returns one
    record a file, in the order of the file map. *)
Lemma compilation_database_of_converted (index : Index.t) :
  forallb has_object_file (Dict.values (Index._files index)) = true ->
  generate_compilation_database index
  = Ok (map (record_for index) (Dict.values (Index._files index))).
Proof.
  intros H. unfold generate_compilation_database. apply mapM_all_ok.
  apply Forall_forall. intros file Hin. apply compilation_record_converted.
  rewrite forallb_forall in H. auto.
Qed.

(** C5, on the code.  A file record made by the directory heuristics has
    no object file.  When the file map holds one, after files that have
    theirs, the projection raises [KeyError] for ['object_file'] and
    returns no record at all. *)
Theorem compilation_database_raises_on_backfilled (index : Index.t)
    (pre post : list File.t) (file : File.t) :
  Dict.values (Index._files index) = pre ++ file :: post ->
  forallb has_object_file pre = true ->
  File.object_file file = None ->
  generate_compilation_database index = Raise (KeyError "object_file").
Proof.
  intros Hvalues Hpre Hnone. unfold generate_compilation_database. rewrite Hvalues.
  apply mapM_raises.
  - intros other Hin. exists (record_for index other).
    apply compilation_record_converted. rewrite forallb_forall in Hpre. auto.
  - unfold compilation_record, object_file_of. now rewrite Hnone.
Qed.

Module Backfilled.

Definition index : Index.t :=
  Eval vm_compute in snd (query_file Demo.env Demo.index "/src/tool/extra.cpp" true).

Definition extra_cpp : File.t :=
  Eval vm_compute in directory_file "/src/tool/extra.cpp" Demo.tool [Demo.tool].

Example before_backfill :
  option_map (map cc_command) (match generate_compilation_database Demo.index with
                               | Ok records => Some records
                               | Raise _ => None
                               end)
  = Some [ "/usr/bin/c++ -O2 -DNAME=app -DIN_app -I /src/inc_app -c /src/main.cpp -o /src/build/CMakeFiles/app.dir/main.cpp.o";
           "/usr/bin/c++ -O2 -DNAME=lib -DIN_lib -I /src/inc_lib -c /src/util.cpp -o /src/build/CMakeFiles/lib.dir/util.cpp.o";
           "/usr/bin/c++ -O2 -DNAME=tool -DIN_tool -I /src/tool/inc_tool -c /src/tool/tool.cpp -o /src/build/CMakeFiles/tool.dir/tool.cpp.o" ].
Proof. reflexivity. Qed.

(** Empty flags and a language without a compiler in the cache. *)
Example empty_flags :
  cc_command
    (record_for Demo.index
       {| File.path := "/src/x.f90"; File.target_name := "app";
          File.tree_root_dir := "/src"; File.tree_build_dir := "/src/build";
          File.lang := None; File.heuristics := false;
          File.other_flags := []; File.defines := []; File.includes := [];
          File.flags := [];
          File.object_file := Some "/src/build/CMakeFiles/app.dir/x.f90.o";
          File.source_file := None; File.header_file := None |})
  = "None  -c /src/x.f90 -o /src/build/CMakeFiles/app.dir/x.f90.o".
Proof. reflexivity. Qed.

End Backfilled.

Lemma compilation_database_raises_on_backfilled_witness :
  generate_compilation_database Backfilled.index = Raise (KeyError "object_file").
Proof.
  exact (@compilation_database_raises_on_backfilled Backfilled.index
           (Dict.values (Index._files Demo.index)) [] Backfilled.extra_cpp
           eq_refl eq_refl eq_refl).
Defined.

(** ** C8: the request and reply exchange *)

Module ServerFacts.
Import Server.

(** The process has not been seen to exit and the socket is connected. *)
Definition running (self : t) : Prop :=
  process self = Some None /\ socket self = true.

(** A frame the loop consumes: a signal, or a message with its text. *)
Definition unrelated (frame : Frame) : bool :=
  String.eqb (type frame) "signal"
  || (String.eqb (type frame) "message"
      && match message frame with Some _ => true | None => false end).

(** What the handlers log for a consumed frame. *)
Definition logged (frame : Frame) : list LogRecord :=
  if String.eqb (type frame) "message" then
    match message frame with
    | Some text =>
        [ if contains "CMake Error" text then LogError text
          else LogDebug (Str.cat "cmake: " text) ]
    | None => []
    end
  else [].

Lemma read_message_frame (self : t) (frame : Frame) (rest : list Event) :
  running self ->
  inbox self = Recv frame :: rest ->
  read_message self = (Returns frame, with_inbox self rest).
Proof.
  intros [Hp Hs] Hin. unfold read_message, not_running, check_server_status, poll.
  rewrite Hp, Hs, Hin. cbn. now rewrite Hp, Hin.
Qed.

Lemma dispatch_unrelated (self : t) (frame : Frame) :
  unrelated frame = true ->
  String.eqb (type frame) "reply" = false
  /\ exists self',
       dispatch self frame = (Returns tt, self')
       /\ process self' = process self /\ socket self' = socket self
       /\ inbox self' = inbox self /\ outbox self' = outbox self
       /\ logger self' = logger self ++ logged frame.
Proof.
  unfold unrelated, dispatch, logged, msg, signal. intros H.
  apply orb_true_iff in H as [H|H].
  - apply String.eqb_eq in H. rewrite H. cbn. split; [reflexivity|].
    exists self. rewrite app_nil_r. repeat split.
  - apply andb_true_iff in H as [H Hm]. apply String.eqb_eq in H. rewrite H. cbn.
    split; [reflexivity|].
    destruct (message frame) as [text|]; [|discriminate].
    destruct (contains "CMake Error" text); eexists; repeat split.
Qed.

Lemma await_reply_spec (pre : list Frame) :
  forall (cur final : Frame) (frames : list Frame) (rest : list Event)
         (self : t) (fuel : nat),
    running self ->
    inbox self = map Recv frames ++ rest ->
    length frames < fuel ->
    cur :: frames = pre ++ [final] ->
    forallb unrelated pre = true ->
    (type final = "reply" ->
       fst (await_reply fuel self cur) = Returns final
       /\ inbox (snd (await_reply fuel self cur)) = rest
       /\ logger (snd (await_reply fuel self cur)) = logger self ++ flat_map logged pre
       /\ outbox (snd (await_reply fuel self cur)) = outbox self)
    /\ (forall text, type final = "error" -> errorMessage final = Some text ->
          fst (await_reply fuel self cur) = Raises (CmakeError text)
          /\ logger (snd (await_reply fuel self cur))
             = logger self ++ flat_map logged pre).
Proof.
  induction pre as [|p pre IH];
    intros cur final frames rest self fuel Hrun Hin Hfuel Hall Hpre.
  - simpl in Hall. injection Hall as -> ->. simpl in Hin. split.
    + intros Hty. destruct fuel; simpl; rewrite Hty; cbn;
        rewrite app_nil_r; repeat split; congruence.
    + intros text Hty Herr. destruct fuel as [|fuel]; [simpl in Hfuel; lia|].
      simpl. unfold dispatch, signal. rewrite Hty, Herr. cbn.
      now rewrite app_nil_r.
  - simpl in Hall. injection Hall as Hc Hf. subst p frames.
    simpl in Hpre. apply andb_true_iff in Hpre as [Hcur Hpre].
    destruct (dispatch_unrelated self cur Hcur)
      as (Hnoreply & self1 & Hdisp & Hp1 & Hs1 & Hi1 & Ho1 & Hl1).
    destruct fuel as [|fuel]; [lia|].
    assert (Hframes : exists next frames', pre ++ [final] = next :: frames').
    { destruct pre; simpl; eauto. }
    destruct Hframes as (next & frames' & Hsplit).
    rewrite Hsplit in Hin, Hfuel. simpl in Hin, Hfuel.
    assert (Hrun1 : running self1).
    { destruct Hrun. split; congruence. }
    assert (Hread : read_message self1 = (Returns next, with_inbox self1 (map Recv frames' ++ rest))).
    { apply read_message_frame; [assumption|congruence]. }
    assert (Hstep : await_reply (S fuel) self cur
                    = await_reply fuel (with_inbox self1 (map Recv frames' ++ rest)) next).
    { cbn [await_reply]. now rewrite Hnoreply, Hdisp, Hread. }
    rewrite Hstep.
    assert (Hrun2 : running (with_inbox self1 (map Recv frames' ++ rest))).
    { destruct Hrun1. split; assumption. }
    assert (Hfuel' : length frames' < fuel) by lia.
    destruct (IH next final frames' rest (with_inbox self1 (map Recv frames' ++ rest)) fuel
                Hrun2 eq_refl Hfuel' (eq_sym Hsplit) Hpre) as [Hreply Herror].
    cbn [logger with_inbox outbox] in Hreply, Herror.
    rewrite Hl1, Ho1 in Hreply. rewrite Hl1 in Herror.
    cbn [flat_map]. rewrite app_assoc. split; assumption.
Qed.

(** C8.  On a running client whose connection delivers the frames [pre],
    all of type [signal] or [message], and then [final]: when [final] is
    a [reply], [send_and_read] returns it, having sent the request with
    its cookie, handed each frame of [pre] to its handler (what [msg]
    logs is in the log, in order) and taken them and [final] off the
    connection; when [final] is an [error], it raises [CmakeError] with
    the server's error message as its text. *)
Theorem send_and_read_exchange (self : t) (cookie message_type : string)
    (pre : list Frame) (final : Frame) (rest : list Event) :
  running self ->
  inbox self = map Recv (pre ++ [final]) ++ rest ->
  forallb unrelated pre = true ->
  let outcome := send_and_read self cookie message_type in
  (type final = "reply" ->
     fst outcome = Returns final
     /\ inbox (snd outcome) = rest
     /\ logger (snd outcome) = logger self ++ flat_map logged pre
     /\ outbox (snd outcome)
        = outbox self ++ [{| req_type := message_type; cookie := cookie |}])
  /\ (forall text, type final = "error" -> errorMessage final = Some text ->
        fst outcome = Raises (CmakeError text)).
Proof.
  intros Hrun Hin Hpre outcome.
  assert (Hframes : exists cur frames, pre ++ [final] = cur :: frames).
  { destruct pre; simpl; eauto. }
  destruct Hframes as (cur & frames & Hsplit).
  rewrite Hsplit in Hin. simpl in Hin.
  set (request := {| req_type := message_type; cookie := cookie |}).
  assert (Hsend : send_message self request = (Returns tt, sent self request)).
  { destruct Hrun as [Hp Hs].
    unfold send_message, not_running, check_server_status, poll.
    rewrite Hp, Hs, Hin. cbn. now rewrite Hp. }
  assert (Hrun1 : running (sent self request)).
  { destruct Hrun. split; assumption. }
  assert (Hread : read_message (sent self request)
                  = (Returns cur, with_inbox (sent self request) (map Recv frames ++ rest))).
  { apply read_message_frame; assumption. }
  assert (Hout : outcome
                 = await_reply (S (length (map Recv frames ++ rest)))
                     (with_inbox (sent self request) (map Recv frames ++ rest)) cur).
  { subst outcome. unfold send_and_read. fold request. now rewrite Hsend, Hread. }
  rewrite Hout.
  assert (Hrun2 : running (with_inbox (sent self request) (map Recv frames ++ rest))).
  { destruct Hrun1. split; assumption. }
  assert (Hfuel : length frames < S (length (map Recv frames ++ rest))).
  { rewrite length_app, length_map. lia. }
  destruct (@await_reply_spec pre cur final frames rest
              (with_inbox (sent self request) (map Recv frames ++ rest))
              (S (length (map Recv frames ++ rest)))
              Hrun2 eq_refl Hfuel (eq_sym Hsplit) Hpre)
    as [Hreply Herror].
  split.
  - intros Hty. destruct (Hreply Hty) as (H1 & H2 & H3 & H4). repeat split; assumption.
  - intros text Hty Herr. now destruct (Herror text Hty Herr).
Qed.

(** A client that is connected, and what its server sends. *)
Definition frame (ty : string) (text error : option string) : Frame :=
  {| type := ty; errorMessage := error; message := text;
     supportedProtocolVersions := [] |}.

Definition connected (incoming : list Event) : t :=
  {| process := Some None; socket := true; socket_path := Some "/tmp/nvim_cmake_1_build";
     logger := []; outbox := []; inbox := incoming |}.

Definition progress : list Frame :=
  [ frame "message" (Some "Configuring done") None;
    frame "signal" None None;
    frame "message" (Some "CMake Error at CMakeLists.txt:3") None ].

Definition codemodel_reply : Frame := frame "reply" None None.
Definition failure : Frame := frame "error" None (Some "Waiting for type handshake.").

Lemma send_and_read_exchange_witness :
  (let outcome :=
     send_and_read (connected (map Recv (progress ++ [codemodel_reply]) ++ [Exited 0]))
       "qwertyui" "codemodel" in
   fst outcome = Returns codemodel_reply
   /\ inbox (snd outcome) = [Exited 0]
   /\ logger (snd outcome)
      = [ LogDebug "cmake: Configuring done";
          LogError "CMake Error at CMakeLists.txt:3" ]
   /\ outbox (snd outcome) = [{| req_type := "codemodel"; cookie := "qwertyui" |}])
  /\ fst (send_and_read (connected (map Recv (progress ++ [failure]) ++ []))
            "asdfghjk" "configure")
     = Raises (CmakeError "Waiting for type handshake.").
Proof.
  split.
  - exact (proj1 (@send_and_read_exchange
                    (connected (map Recv (progress ++ [codemodel_reply]) ++ [Exited 0]))
                    "qwertyui" "codemodel" progress codemodel_reply [Exited 0]
                    (conj eq_refl eq_refl) eq_refl eq_refl) eq_refl).
  - exact (proj2 (@send_and_read_exchange
                    (connected (map Recv (progress ++ [failure]) ++ []))
                    "asdfghjk" "configure" progress failure []
                    (conj eq_refl eq_refl) eq_refl eq_refl)
             "Waiting for type handshake." eq_refl eq_refl).
Defined.

(** A frame of another type is passed over without a handler; a stream
    that ends before a reply leaves the call waiting; a process seen to
    have crashed ends it. *)
Example other_outcomes :
  fst (send_and_read (connected [Recv (frame "progress" None None); Recv codemodel_reply])
         "c" "compute") = Returns codemodel_reply
  /\ fst (send_and_read (connected [Recv (frame "signal" None None)]) "c" "compute")
     = Pending
  /\ fst (send_and_read (connected [Recv (frame "signal" None None); Exited 1])
            "c" "compute")
     = Raises (CmakeError "Cmake server crashed. Return code: 1.").
Proof. repeat split. Qed.

(** ** C1: the wait for the socket *)

Lemma wait_for_socket_absent (world : World) (fuel tries clock : nat) :
  tries < 10 ->
  (forall n, socket_exists world n = false) ->
  wait_for_socket fuel world tries clock = None.
Proof.
  intros Htries Hnever. revert clock.
  induction fuel as [|fuel IH]; intros clock; simpl; [reflexivity|].
  apply Nat.ltb_lt in Htries. rewrite Htries, Hnever. simpl. apply IH.
Qed.

(** C1, on the code.  On a client that has not been started, when the
    socket path never comes to exist, [start] has not returned and has
    not raised after any number of rounds of its waiting loop, whether
    the process lives or not: the counter the loop tests stays at 0. *)
Theorem start_waits_forever (world : World) (self : t) (cmake_binary socket_path : string) :
  process self = None ->
  socket self = false ->
  (forall n, socket_exists world n = false) ->
  forall fuel, fst (start fuel world self cmake_binary socket_path) = Pending.
Proof.
  intros Hp Hs Hnever fuel. unfold start. rewrite Hp, Hs. cbn [orb].
  now rewrite wait_for_socket_absent by (auto; lia).
Qed.

(** The server lives and never makes its socket. *)
Definition no_socket : World :=
  {| socket_exists := fun _ => false; exit_status := fun _ => None |}.

Lemma start_waits_forever_witness :
  fst (start 1000 no_socket (new []) "/usr/bin/cmake" "/tmp/nvim_cmake_1_build") = Pending.
Proof.
  exact (@start_waits_forever no_socket (new []) "/usr/bin/cmake" "/tmp/nvim_cmake_1_build"
           eq_refl eq_refl (fun _ => eq_refl) 1000).
Defined.

(** The socket is there after three sleeps: [start] connects and reads
    the greeting.  The process is gone by then: [start] raises. *)
Example start_outcomes :
  let greeting := {| type := "hello"; errorMessage := None; message := None;
                     supportedProtocolVersions := [1%Z] |} in
  fst (start 10 {| socket_exists := fun n => (3 <=? n)%nat; exit_status := fun _ => None |}
         (new [Recv greeting]) "/usr/bin/cmake" "/tmp/s") = Returns tt
  /\ fst (start 10 {| socket_exists := fun n => (3 <=? n)%nat;
                      exit_status := fun n => if (2 <=? n)%nat then Some 1%Z else None |}
            (new [Recv greeting]) "/usr/bin/cmake" "/tmp/s")
     = Raises (CmakeError "Server terminated right after starting.")
  /\ fst (start 3 {| socket_exists := fun n => (3 <=? n)%nat; exit_status := fun _ => None |}
            (new [Recv greeting]) "/usr/bin/cmake" "/tmp/s") = Pending.
Proof. repeat split. Qed.

End ServerFacts.

(** * Further properties of the index *)

(** ** The cache map *)

Section DictOrder.

Variable V : Type.
Implicit Types (d : Dict.t V) (k : string) (v : V).

Lemma get_app d d' k :
  Dict.get (d ++ d') k
  = match Dict.get d k with Some v => Some v | None => Dict.get d' k end.
Proof.
  induction d as [|[k0 v0] d IH]; simpl; [reflexivity|].
  now destruct (String.eqb k k0).
Qed.

(** [d.update(other)], whatever the keys of [other]: its last entry under
    a key wins. *)
Lemma get_update_last d (other : list (string * V)) k :
  Dict.get (Dict.update d other) k
  = match Dict.get (rev other) k with Some v => Some v | None => Dict.get d k end.
Proof.
  unfold Dict.update. revert d.
  induction other as [|[k1 v1] other IH]; intros d; simpl; [reflexivity|].
  rewrite IH, get_app. destruct (Dict.get (rev other) k); [reflexivity|].
  simpl. destruct (String.eqb k k1) eqn:E.
  - apply String.eqb_eq in E. subst k1. apply get_set_same.
  - apply get_set_other. intros ->. now rewrite String.eqb_refl in E.
Qed.

End DictOrder.

(** When [initialize] returns, a cache variable is the value of the last
    entry of the cache reply with that key, and [None] when the reply has
    no such entry: what the index held as cache before is gone. *)
Theorem cache_variable_after_initialize (env : Env) (self self' : Index.t)
    (projects_json : list ProjectJson) (cache_json : list (string * string))
    (name : string) :
  initialize env self projects_json cache_json = (Ok tt, self') ->
  cache_variable self' name = Dict.get (rev cache_json) name.
Proof.
  unfold initialize. intros H.
  destruct (mapM _ projects_json) as [projects|e]; [|discriminate].
  destruct (run_matching_header_heuristics env _) as [new_files|e]; [|discriminate].
  injection H as <-. unfold cache_variable, convert_cache_variables, Dict.of_pairs.
  cbn [Index._cache Index.with_cache]. rewrite get_update_last.
  now destruct (Dict.get (rev cache_json) name).
Qed.

Lemma cache_variable_after_initialize_witness :
  cache_variable
    (snd (initialize Demo.env (Index.new "/src" "/src/build") Demo.projects_json
            [("CMAKE_CXX_COMPILER", "/usr/bin/c++"); ("CMAKE_BUILD_TYPE", "Debug");
             ("CMAKE_CXX_COMPILER", "/usr/bin/clang++")]))
    "CMAKE_CXX_COMPILER"
  = Some "/usr/bin/clang++".
Proof.
  exact (@cache_variable_after_initialize Demo.env (Index.new "/src" "/src/build") _
           Demo.projects_json
           [("CMAKE_CXX_COMPILER", "/usr/bin/c++"); ("CMAKE_BUILD_TYPE", "Debug");
            ("CMAKE_CXX_COMPILER", "/usr/bin/clang++")]
           "CMAKE_CXX_COMPILER" ltac:(vm_compute; reflexivity)).
Defined.

(** ** What [query_file] leaves alone *)

(** Whatever the call and its outcome, [query_file] keeps the two
    directories and the cache map of the index, and the entry of the file
    map under every path but the queried one; when it returns [None], and
    when the path was known, the whole index is the one of before.  The
    project map is left out of the first part: a backfill appends to a
    target record that the project map shares with the target map. *)
Theorem query_file_frame (env : Env) (self : Index.t) (abs_path : string)
    (directory_heuristics : bool) :
  let outcome := query_file env self abs_path directory_heuristics in
  Index.build_directory (snd outcome) = Index.build_directory self
  /\ Index.root_directory (snd outcome) = Index.root_directory self
  /\ Index._cache (snd outcome) = Index._cache self
  /\ (forall other, other <> abs_path ->
        Dict.get (Index._files (snd outcome)) other = Dict.get (Index._files self) other)
  /\ (fst outcome = Ok None -> snd outcome = self)
  /\ (Dict.mem (Index._files self) abs_path = true -> snd outcome = self).
Proof.
  cbv zeta.
  assert (Hmem : Dict.get (Index._files self) abs_path = None ->
                 Dict.mem (Index._files self) abs_path = true -> False).
  { unfold Dict.mem. intros ->. discriminate. }
  unfold query_file.
  destruct (Dict.get (Index._files self) abs_path) as [known|] eqn:Hget.
  { cbn [fst snd]. repeat split. }
  specialize (Hmem eq_refl).
  destruct directory_heuristics;
    [|cbn [fst snd]; repeat split; intros; contradiction].
  destruct (get_file_info_for_directory env abs_path (Index._targets self))
    as [[result|]|e];
    [|cbn [fst snd]; repeat split; intros; contradiction
     |cbn [fst snd]; repeat split; intros; try discriminate; contradiction].
  cbn [Index._targets Index.with_files].
  set (self1 := Index.with_files self (Dict.set (Index._files self) abs_path result)).
  set (self2 := if negb (Dict.mem (Index._targets self) (File.target_name result))
                then Index.with_targets self1
                       (Dict.set (Index._targets self) (File.target_name result) EmptyDict)
                else self1).
  assert (H2 : Index.build_directory self2 = Index.build_directory self
               /\ Index.root_directory self2 = Index.root_directory self
               /\ Index._cache self2 = Index._cache self
               /\ Index._files self2 = Dict.set (Index._files self) abs_path result).
  { subst self2 self1.
    destruct (negb (Dict.mem (Index._targets self) (File.target_name result)));
      repeat split. }
  destruct H2 as (Hb & Hr & Hc & Hf). clearbody self2.
  destruct (Dict.get (Index._targets self2) (File.target_name result)) as [[tg|]|];
    cbn [fst snd Index.build_directory Index.root_directory Index._cache
         Index._files Index.with_targets];
    rewrite Hf; repeat split; try assumption; try discriminate;
    try (intros; contradiction);
    intros other Hother; apply get_set_other; congruence.
Qed.

(** ** A target map with a key-less entry *)

Lemma targets_in_directory_keyless (abs_directory : string) (targets : Dict.t TargetEntry)
    (k : string) :
  In (k, EmptyDict) targets ->
  targets_in_directory abs_directory targets = Raise (KeyError "filepaths").
Proof.
  induction targets as [|[k0 e0] targets IH]; simpl; [contradiction|].
  intros [[= -> ->]|Hin]; [reflexivity|].
  destruct e0; [|reflexivity]. cbn. now rewrite (IH Hin).
Qed.

(** Once the target map holds a key-less [dict()], as the failed query
    of a shared directory leaves one, a [query_file] with the heuristics on
    raises [KeyError] for ['filepaths'] for every path that is not in the
    file map, whatever its directory, and leaves the index as it was. *)
Theorem query_file_after_keyless_entry (env : Env) (self : Index.t) (abs_path k : string) :
  In (k, EmptyDict) (Index._targets self) ->
  Dict.get (Index._files self) abs_path = None ->
  query_file env self abs_path true = (Raise (KeyError "filepaths"), self).
Proof.
  intros Hin Hget. unfold query_file. rewrite Hget.
  unfold get_file_info_for_directory.
  now rewrite (targets_in_directory_keyless _ _ _ Hin).
Qed.

Lemma query_file_after_keyless_entry_witness :
  query_file Demo.env (snd (query_file Demo.env Demo.index "/src/new.cpp" true))
    "/src/tool/extra.cpp" true
  = (Raise (KeyError "filepaths"), snd (query_file Demo.env Demo.index "/src/new.cpp" true)).
Proof.
  apply (@query_file_after_keyless_entry Demo.env
           (snd (query_file Demo.env Demo.index "/src/new.cpp" true))
           "/src/tool/extra.cpp" "app|lib").
  - vm_compute. tauto.
  - reflexivity.
Defined.

(** ** The directory heuristics, target by target *)

(** Does the target list a file in the directory? *)
Definition owns (abs_directory : string) (tg : Target.t) : bool :=
  in_set abs_directory (map Path.dirname (Target.filepaths tg)).

(** The target records of the map that list a file in the directory, in
    the order of the map. *)
Definition owners (abs_directory : string) (targets : Dict.t TargetEntry) : list Target.t :=
  flat_map (fun kv => match snd kv with
                      | TargetRecord tg => if owns abs_directory tg then [tg] else []
                      | EmptyDict => []
                      end) targets.

Definition all_records (targets : Dict.t TargetEntry) : bool :=
  forallb (fun kv => match snd kv with TargetRecord _ => true | EmptyDict => false end)
    targets.

Lemma targets_in_directory_owners (abs_directory : string) (targets : Dict.t TargetEntry) :
  all_records targets = true ->
  targets_in_directory abs_directory targets
  = Ok (map TargetRecord (owners abs_directory targets)).
Proof.
  induction targets as [|[k e] targets IH]; simpl; [reflexivity|].
  intros H. apply andb_true_iff in H as [He Hrest].
  destruct e as [tg|]; [|discriminate]. cbn. rewrite (IH Hrest). cbn.
  unfold owns. now destruct (in_set abs_directory _).
Qed.

(** With no key-less entry in the target map, the directory heuristics
    answer [None] exactly when no target lists a file in the directory of
    the path.  Otherwise the record is made of the targets that do, in the
    order of the map: their names joined by [|], their aggregated lists
    concatenated, the tree directories of the first; it is marked
    heuristic and has no language, whatever the linker languages of the
    targets, and no object file. *)
Theorem directory_heuristics_by_owners (env : Env) (abs_filepath : string)
    (targets : Dict.t TargetEntry) :
  all_records targets = true ->
  get_file_info_for_directory env abs_filepath targets
  = Ok match owners (Path.dirname abs_filepath) targets with
       | [] => None
       | first :: others =>
           Some {| File.path := abs_filepath;
                   File.target_name := Str.join "|" (map Target.name (first :: others));
                   File.tree_root_dir := Target.tree_root_dir first;
                   File.tree_build_dir := Target.tree_build_dir first;
                   File.lang := None;
                   File.heuristics := true;
                   File.other_flags :=
                     concat (map Target.all_other_flags (first :: others));
                   File.defines := concat (map Target.all_defines (first :: others));
                   File.includes := concat (map Target.all_includes (first :: others));
                   File.flags := concat (map Target.all_flags (first :: others));
                   File.object_file := None;
                   File.source_file := None;
                   File.header_file := None |}
       end.
Proof.
  intros Hrecords.
  pose proof (targets_in_directory_owners (Path.dirname abs_filepath) targets Hrecords)
    as Hfound.
  destruct (owners (Path.dirname abs_filepath) targets) as [|first others].
  - unfold get_file_info_for_directory. now rewrite Hfound.
  - now rewrite (get_file_info_for_directory_found env abs_filepath targets Hfound).
Qed.

Lemma directory_heuristics_by_owners_witness :
  get_file_info_for_directory Demo.env "/src/tool/extra.cpp" (Index._targets Demo.index)
  = Ok (Some (directory_file "/src/tool/extra.cpp" Demo.tool [Demo.tool]))
  /\ Target.link_lang Demo.tool = Some "CXX"
  /\ get_file_info_for_directory Demo.env "/elsewhere/x.cpp" (Index._targets Demo.index)
     = Ok None.
Proof.
  split; [|split; [reflexivity|]].
  - exact (@directory_heuristics_by_owners Demo.env "/src/tool/extra.cpp"
             (Index._targets Demo.index) eq_refl).
  - exact (@directory_heuristics_by_owners Demo.env "/elsewhere/x.cpp"
             (Index._targets Demo.index) eq_refl).
Defined.

(** ** C6: is a backfilled entry found again? *)

Lemma all_records_false (targets : Dict.t TargetEntry) :
  all_records targets = false -> exists k, In (k, EmptyDict) targets.
Proof.
  unfold all_records. induction targets as [|[k e] targets IH]; simpl; [discriminate|].
  destruct e as [tg|].
  - intros H. destruct (IH H) as [k' Hk']. exists k'. now right.
  - intros _. exists k. now left.
Qed.

(** C6, on the code.  Let the path be unknown to the index and exactly
    one target record of the target map list a file in its directory, the
    map being keyed by name.  While the map holds target records only, the
    first [query_file] returns the heuristic record of that target and
    stores it under the path, and the second call returns the same record
    from the file map and leaves the index alone.  Once the map also holds
    a key-less [dict()], which the failed query of a directory shared by
    several targets leaves behind, the first call raises [KeyError] for
    ['filepaths'] and leaves the index as it was, so the second call is
    the first over again: no record is returned and none is memoized. *)
Theorem query_file_memoizes_unless_keyless (env : Env) (self : Index.t) (abs_path : string)
    (tg : Target.t) :
  Dict.get (Index._files self) abs_path = None ->
  keyed_by_name (Index._targets self) ->
  owners (Path.dirname abs_path) (Index._targets self) = [tg] ->
  let result := directory_file abs_path tg [tg] in
  (all_records (Index._targets self) = true ->
     exists self1 : Index.t,
       query_file env self abs_path true = (Ok (Some result), self1)
       /\ Index._files self1 = Dict.set (Index._files self) abs_path result
       /\ query_file env self1 abs_path true = (Ok (Some result), self1)
       /\ (forall other : Index.t,
             Index._files other = Index._files self1 ->
             query_file env other abs_path true = (Ok (Some result), other)))
  /\ (all_records (Index._targets self) = false ->
        let first := query_file env self abs_path true in
        fst first = Raise (KeyError "filepaths")
        /\ snd first = self
        /\ query_file env (snd first) abs_path true
           = (Raise (KeyError "filepaths"), snd first)).
Proof.
  intros Hnew Hkeyed Howners result. split.
  - intros Hrecords.
    assert (Hfound : targets_in_directory (Path.dirname abs_path) (Index._targets self)
                     = Ok [TargetRecord tg]).
    { rewrite targets_in_directory_owners by assumption. now rewrite Howners. }
    assert (Hmem : Dict.mem (Index._targets self) (Target.name tg) = true).
    { eapply found_target_is_key; [exact Hkeyed|exact Hfound|now left]. }
    pose proof (get_file_info_for_directory_found env abs_path (Index._targets self)
                  (first := tg) (others := []) Hfound) as Hinfo.
    apply mem_get in Hmem as Hget. destruct Hget as [entry Hentry].
    destruct (targets_in_directory_records _ _ Hfound _ _ (get_in _ _ Hentry)) as [tg' ->].
    eexists. unfold query_file at 1. rewrite Hnew, Hinfo.
    cbn [File.target_name directory_file map Str.join Index.with_files Index._targets
         File.path].
    rewrite Hmem. cbn [negb Index._targets Index.with_files]. rewrite Hentry.
    split; [reflexivity|].
    assert (Hhit : forall other : Index.t,
               Dict.get (Index._files other) abs_path = Some result ->
               query_file env other abs_path true = (Ok (Some result), other)).
    { intros other Hother. unfold query_file. now rewrite Hother. }
    cbn [Index._files Index.with_targets Index.with_files].
    split; [reflexivity|]. split.
    + apply Hhit. apply get_set_same.
    + intros other Hother. apply Hhit. rewrite Hother. apply get_set_same.
  - intros Hrecords. destruct (all_records_false _ Hrecords) as [k Hk].
    assert (Hraise : query_file env self abs_path true = (Raise (KeyError "filepaths"), self)).
    { unfold query_file. rewrite Hnew. unfold get_file_info_for_directory.
      now rewrite (targets_in_directory_keyless _ _ _ Hk). }
    cbv zeta. rewrite Hraise. cbn [fst snd]. repeat split. exact Hraise.
Qed.

(** The index the plugin keeps after the failed query of [/src], which
    [app] and [lib] share: [tool] is still the one owner of [/src/tool],
    and a file of that directory gets no record, on the first call or the
    second; on the index as initialised it does. *)
Lemma query_file_memoizes_unless_keyless_witness :
  (let kept := snd (query_file Demo.env Demo.index "/src/new.cpp" true) in
   let first := query_file Demo.env kept "/src/tool/extra.cpp" true in
   owners "/src/tool" (Index._targets kept) = [Demo.tool]
   /\ fst first = Raise (KeyError "filepaths")
   /\ snd first = kept
   /\ query_file Demo.env (snd first) "/src/tool/extra.cpp" true
      = (Raise (KeyError "filepaths"), snd first))
  /\ (let result := directory_file "/src/tool/extra.cpp" Demo.tool [Demo.tool] in
      exists self1 : Index.t,
        query_file Demo.env Demo.index "/src/tool/extra.cpp" true = (Ok (Some result), self1)
        /\ Index._files self1
           = Dict.set (Index._files Demo.index) "/src/tool/extra.cpp" result
        /\ query_file Demo.env self1 "/src/tool/extra.cpp" true = (Ok (Some result), self1)
        /\ (forall other : Index.t,
              Index._files other = Index._files self1 ->
              query_file Demo.env other "/src/tool/extra.cpp" true
              = (Ok (Some result), other))).
Proof.
  split.
  - cbv zeta. split; [reflexivity|].
    refine (proj2 (@query_file_memoizes_unless_keyless Demo.env
                     (snd (query_file Demo.env Demo.index "/src/new.cpp" true))
                     "/src/tool/extra.cpp" Demo.tool eq_refl _ eq_refl) eq_refl).
    apply query_file_keyed_by_name.
    exact (initialize_keyed_by_name Demo.env "/src" "/src/build"
             Demo.projects_json Demo.cache_json).
  - refine (proj1 (@query_file_memoizes_unless_keyless Demo.env Demo.index
                     "/src/tool/extra.cpp" Demo.tool eq_refl _ eq_refl) eq_refl).
    exact (initialize_keyed_by_name Demo.env "/src" "/src/build"
             Demo.projects_json Demo.cache_json).
Defined.

(** ** The conversion of a target *)

Lemma normpath_nonempty (p : string) : Path.normpath p <> EmptyString.
Proof.
  unfold Path.normpath. destruct (Str.is_empty p); [discriminate|].
  match goal with
  | |- (if Str.is_empty ?r then _ else _) <> _ => destruct r; simpl; discriminate
  end.
Qed.

Lemma abspath_nonempty (env : Env) (p : string) : abspath env p <> EmptyString.
Proof. apply normpath_nonempty. Qed.

Lemma startswith_slash_nonempty (b : string) :
  Str.startswith b "/" = true -> b <> EmptyString.
Proof. destruct b; [discriminate|discriminate]. Qed.

Lemma join_nonempty (a b : string) : a <> EmptyString -> Path.join a b <> EmptyString.
Proof.
  intros Ha. unfold Path.join.
  destruct (Str.startswith b "/") eqn:E; [now apply startswith_slash_nonempty|].
  destruct a as [|c a]; [congruence|].
  destruct (_ || _); discriminate.
Qed.

Lemma resolve_nonempty (parent_target : Target.t) (p : string) :
  Target.source_dir parent_target <> EmptyString ->
  resolve_in_source_dir parent_target p <> EmptyString.
Proof.
  intros H. unfold resolve_in_source_dir, Path.isabs.
  destruct (Str.startswith p "/") eqn:E;
    [now apply startswith_slash_nonempty|now apply join_nonempty].
Qed.

Lemma includes_loop_spec (includes : list IncludeJson) (parent_target : Target.t)
    (acc : list string) :
  includes_loop includes parent_target acc
  = acc ++ map (fun include => resolve_in_source_dir parent_target (inc_path include))
             includes.
Proof.
  revert acc. induction includes as [|include rest IH]; intros acc; simpl.
  - now rewrite app_nil_r.
  - now rewrite IH, <- app_assoc.
Qed.

(** The flag list the files of a group get. *)
Definition group_flags (parent_target : Target.t) (group_json : FileGroupJson) : list string :=
  Str.split (get_default (compileFlags group_json) EmptyString)
  ++ map (fun define => ("-D" ++ define)%string) (get_default (defines_json group_json) [])
  ++ include_path_to_flags (get_default (includePath group_json) []) parent_target.

(** The include directories the files of a group get. *)
Definition group_includes (parent_target : Target.t) (group_json : FileGroupJson)
    : list string :=
  map (fun include => resolve_in_source_dir parent_target (inc_path include))
    (get_default (includePath group_json) []).

(** What [convert_source] puts into the record of a file. *)
Definition converted_from (group_json : FileGroupJson) (parent_target : Target.t)
    (filename : string) (f : File.t) : Prop :=
  File.path f = resolve_in_source_dir parent_target filename
  /\ File.target_name f = Target.name parent_target
  /\ File.lang f = language group_json
  /\ File.heuristics f = false
  /\ File.other_flags f = Str.split (get_default (compileFlags group_json) EmptyString)
  /\ File.defines f = get_default (defines_json group_json) []
  /\ File.includes f = group_includes parent_target group_json
  /\ File.flags f = group_flags parent_target group_json
  /\ has_object_file f = true.

Lemma convert_source_fields (env : Env) (group_json : FileGroupJson)
    (parent_target : Target.t) (filename : string) (f : File.t) :
  convert_source env group_json parent_target filename = Ok f ->
  converted_from group_json parent_target filename f.
Proof.
  unfold convert_source. intros H.
  apply bind_ok in H as (d & _ & H). apply bind_ok in H as (rel & _ & H).
  injection H as <-. unfold converted_from, group_includes, group_flags, has_object_file.
  cbn. rewrite includes_loop_spec. repeat split.
Qed.

Lemma convert_source_returns (env : Env) (group_json : FileGroupJson)
    (parent_target : Target.t) (filename d : string) :
  Target.object_dir parent_target = Some d ->
  Target.source_dir parent_target <> EmptyString ->
  exists f, convert_source env group_json parent_target filename = Ok f.
Proof.
  intros Hd Hsrc. unfold convert_source, object_dir_of, Path.relpath. rewrite Hd. cbn [bind].
  pose proof (resolve_nonempty parent_target filename Hsrc) as Hne.
  destruct (resolve_in_source_dir parent_target filename) eqn:E; [congruence|].
  cbn [Str.is_empty].
  match goal with |- context [match ?l with [] => _ | _ => _ end] => destruct l end;
    cbn [bind]; eauto.
Qed.

(** A group converted under a target that has its object directory and a
    source directory: one record a source, in order. *)
Lemma convert_file_info_group (env : Env) (group_json : FileGroupJson)
    (parent_target : Target.t) (d : string) :
  Target.object_dir parent_target = Some d ->
  Target.source_dir parent_target <> EmptyString ->
  exists files,
    convert_file_info env group_json parent_target = Ok files
    /\ Forall2 (converted_from group_json parent_target) (sources group_json) files.
Proof.
  intros Hd Hsrc. unfold convert_file_info.
  induction (sources group_json) as [|filename rest IH]; simpl.
  - exists []. split; [reflexivity|constructor].
  - destruct (convert_source_returns env group_json parent_target filename Hd Hsrc)
      as [f Hf].
    destruct IH as (fs & Hfs & Hall). rewrite Hf, Hfs. cbn.
    exists (f :: fs). split; [reflexivity|].
    constructor; [|assumption]. eapply convert_source_fields; eassumption.
Qed.

Lemma foldM_accumulate_empty (groups : list (list File.t)) (acc : Target.t) :
  In [] groups -> foldM accumulate_group groups acc = Raise IndexError.
Proof.
  revert acc. induction groups as [|g groups IH]; intros acc Hin; [contradiction|].
  simpl. destruct g as [|first rest]; [reflexivity|]. cbn.
  apply IH. destruct Hin as [Hin|Hin]; [discriminate|assumption].
Qed.

(** The first record of a group, which stands for the group. *)
Definition first_of (f : File.t -> list string) (group : list File.t) : list string :=
  match group with
  | first :: _ => f first
  | [] => []
  end.

Lemma foldM_accumulate_all (groups : list (list File.t)) (acc : Target.t) :
  ~ In [] groups ->
  exists tg,
    foldM accumulate_group groups acc = Ok tg
    /\ Target.name tg = Target.name acc
    /\ Target.squashed tg = Target.squashed acc
    /\ Target.source_dir tg = Target.source_dir acc
    /\ Target.object_dir tg = Target.object_dir acc
    /\ Target.filepaths tg = Target.filepaths acc ++ concat (map (map File.path) groups)
    /\ Target.all_includes tg
       = Target.all_includes acc ++ concat (map (first_of File.includes) groups)
    /\ Target.all_defines tg
       = Target.all_defines acc ++ concat (map (first_of File.defines) groups)
    /\ Target.all_other_flags tg
       = Target.all_other_flags acc ++ concat (map (first_of File.other_flags) groups)
    /\ Target.all_flags tg
       = Target.all_flags acc ++ concat (map (first_of File.flags) groups).
Proof.
  revert acc. induction groups as [|g groups IH]; intros acc Hnone.
  - exists acc. simpl. rewrite !app_nil_r. repeat split.
  - destruct g as [|first rest]; [exfalso; apply Hnone; now left|].
    destruct (IH (Target.add_group acc (map File.path (first :: rest)) first))
      as (tg & Hfold & Hn & Hs & Hsd & Hod & Hfp & Hi & Hd & Ho & Hf).
    { intros Hin. apply Hnone. now right. }
    exists tg. cbn [foldM accumulate_group bind]. rewrite Hfold.
    cbn [Target.add_group Target.name Target.squashed Target.source_dir Target.object_dir
         Target.filepaths Target.all_includes Target.all_defines Target.all_other_flags
         Target.all_flags] in *.
    rewrite Hn, Hs, Hsd, Hod, Hfp, Hi, Hd, Ho, Hf. cbn [map concat first_of].
    rewrite <- !app_assoc. repeat split.
Qed.

(** The record [convert_target_info] starts from, before the groups. *)
Definition target_stub (env : Env) (target_json : TargetJson) (parent_project : Project.t)
    : Target.t :=
  {| Target.name := tj_name target_json;
     Target.squashed := false;
     Target.type := tj_type target_json;
     Target.tree_root_dir := Project.tree_root_dir parent_project;
     Target.tree_build_dir := Project.tree_build_dir parent_project;
     Target.build_dir := abspath env (buildDirectory target_json);
     Target.source_dir := abspath env (sourceDirectory target_json);
     Target.link_lang := linkerLanguage target_json;
     Target.result_name := fullName target_json;
     Target.artifacts := get_default (artifacts_json target_json) [];
     Target.filepaths := [];
     Target.all_includes := [];
     Target.all_defines := [];
     Target.all_other_flags := [];
     Target.all_flags := [];
     Target.object_dir :=
       Some (Path.join (Path.join (abspath env (buildDirectory target_json)) "CMakeFiles")
               (Str.cat (tj_name target_json) ".dir")) |}.

Lemma convert_groups_of_stub (env : Env) (stub : Target.t) (d : string)
    (groups_json : list FileGroupJson) :
  Target.object_dir stub = Some d ->
  Target.source_dir stub <> EmptyString ->
  exists groups,
    mapM (fun group_info => convert_file_info env group_info stub) groups_json = Ok groups
    /\ Forall2 (fun group_json group =>
                  Forall2 (converted_from group_json stub) (sources group_json) group)
         groups_json groups.
Proof.
  intros Hd Hsrc. induction groups_json as [|g rest IH]; simpl.
  - exists []. split; [reflexivity|constructor].
  - destruct (convert_file_info_group env g stub Hd Hsrc) as (fs & Hfs & Hall).
    destruct IH as (gs & Hgs & Hrest). rewrite Hfs, Hgs. cbn.
    exists (fs :: gs). split; [reflexivity|]. constructor; assumption.
Qed.

Definition no_sources (group_json : FileGroupJson) : bool :=
  match sources group_json with [] => true | _ => false end.

(** A file group without sources makes [convert_target_info] raise
    [IndexError], whatever the other groups hold: the loop reads the first
    record of every group. *)
Theorem convert_target_info_empty_group (env : Env) (target_json : TargetJson)
    (parent_project : Project.t) :
  existsb no_sources (get_default (fileGroups target_json) []) = true ->
  convert_target_info env target_json parent_project = Raise IndexError.
Proof.
  intros Hex. unfold convert_target_info. fold (target_stub env target_json parent_project).
  destruct (@convert_groups_of_stub env (target_stub env target_json parent_project) _
              (get_default (fileGroups target_json) []) eq_refl
              (abspath_nonempty env (sourceDirectory target_json)))
    as (groups & Hgroups & Hall).
  rewrite Hgroups. cbn [bind]. apply foldM_accumulate_empty.
  apply existsb_exists in Hex as (g & Hin & Hg).
  clear Hgroups. induction Hall as [|gj group gjs groups' Hhead _ IH]; [contradiction|].
  destruct Hin as [->|Hin]; [|right; auto].
  left. unfold no_sources in Hg. destruct (sources g); [|discriminate].
  now inversion Hhead.
Qed.

(** A project before its targets are converted, and a target whose
    second group has no sources. *)
Definition project_stub : Project.t :=
  {| Project.name := "p"; Project.source_dir := "/src";
     Project.build_dir := "/src/build"; Project.tree_root_dir := "/src";
     Project.tree_build_dir := "/src/build";
     Project.targets := []; Project.files := [] |}.

Definition group_of (files : list string) (lang flags : option string) : FileGroupJson :=
  {| sources := files; language := lang; compileFlags := flags;
     defines_json := None; includePath := None |}.

Definition target_of (name kind : string) (groups : list FileGroupJson) : TargetJson :=
  {| tj_name := name; tj_type := kind;
     buildDirectory := "/src/build"; sourceDirectory := "/src";
     linkerLanguage := None; fullName := None; artifacts_json := None;
     fileGroups := Some groups |}.

Lemma convert_target_info_empty_group_witness :
  convert_target_info Demo.env
    (target_of "gen" "STATIC_LIBRARY"
       [group_of ["a.c"] (Some "C") None; group_of [] None None])
    project_stub
  = Raise IndexError.
Proof.
  exact (@convert_target_info_empty_group Demo.env
           (target_of "gen" "STATIC_LIBRARY"
              [group_of ["a.c"] (Some "C") None; group_of [] None None])
           project_stub eq_refl).
Defined.

Section GroupsOfTarget.

Variable stub : Target.t.

Let converted_groups (groups_json : list FileGroupJson) (groups : list (list File.t)) : Prop :=
  Forall2 (fun group_json group =>
             Forall2 (converted_from group_json stub) (sources group_json) group)
    groups_json groups.

Lemma converted_groups_paths (groups_json : list FileGroupJson) (groups : list (list File.t)) :
  converted_groups groups_json groups ->
  concat (map (map File.path) groups)
  = flat_map (fun group_json => map (resolve_in_source_dir stub) (sources group_json))
      groups_json.
Proof.
  induction 1 as [|gj g gjs gs Hg _ IH]; simpl; [reflexivity|].
  rewrite IH. f_equal. clear IH.
  induction Hg as [|filename f filenames fs Hf _ IHg]; simpl; [reflexivity|].
  destruct Hf as (Hpath & _). now rewrite Hpath, IHg.
Qed.

Lemma converted_groups_nonempty (groups_json : list FileGroupJson)
    (groups : list (list File.t)) :
  existsb no_sources groups_json = false ->
  converted_groups groups_json groups ->
  ~ In [] groups.
Proof.
  intros Hnone Hall. induction Hall as [|gj g gjs gs Hg _ IH]; simpl; [tauto|].
  simpl in Hnone. apply orb_false_iff in Hnone as [Hgj Hrest].
  intros [->|Hin]; [|now apply IH].
  inversion Hg as [Hsrc|]; subst. unfold no_sources in Hgj.
  rewrite <- Hsrc in Hgj. discriminate.
Qed.

Lemma converted_groups_first (f : File.t -> list string)
    (F : FileGroupJson -> list string) (groups_json : list FileGroupJson)
    (groups : list (list File.t)) :
  (forall group_json filename x,
      converted_from group_json stub filename x -> f x = F group_json) ->
  existsb no_sources groups_json = false ->
  converted_groups groups_json groups ->
  concat (map (first_of f) groups) = flat_map F groups_json.
Proof.
  intros Hf Hnone Hall. induction Hall as [|gj g gjs gs Hg _ IH]; simpl; [reflexivity|].
  simpl in Hnone. apply orb_false_iff in Hnone as [Hgj Hrest].
  rewrite (IH Hrest). f_equal.
  inversion Hg as [Hsrc|filename x filenames xs Hx Hxs Hsrc]; subst.
  - unfold no_sources in Hgj. rewrite <- Hsrc in Hgj. discriminate.
  - simpl. eapply Hf; eassumption.
Qed.

End GroupsOfTarget.

Lemma resolve_same_source_dir (t1 t2 : Target.t) (p : string) :
  Target.source_dir t1 = Target.source_dir t2 ->
  resolve_in_source_dir t1 p = resolve_in_source_dir t2 p.
Proof. unfold resolve_in_source_dir. now intros ->. Qed.

Lemma group_includes_same_source_dir (t1 t2 : Target.t) (g : FileGroupJson) :
  Target.source_dir t1 = Target.source_dir t2 ->
  group_includes t1 g = group_includes t2 g.
Proof.
  intros H. unfold group_includes. apply map_ext. intros include.
  now apply resolve_same_source_dir.
Qed.

Lemma group_flags_same_source_dir (t1 t2 : Target.t) (g : FileGroupJson) :
  Target.source_dir t1 = Target.source_dir t2 ->
  group_flags t1 g = group_flags t2 g.
Proof.
  intros H. unfold group_flags, include_path_to_flags. do 2 f_equal.
  generalize (@nil string).
  induction (get_default (includePath g) []) as [|include rest IH]; intros acc; simpl;
    [reflexivity|].
  now rewrite IH, (resolve_same_source_dir t1 t2 _ H).
Qed.

(** When every file group of a target has a source, [convert_target_info]
    returns, and the record it returns gathers the groups in their order:
    [filepaths] are the paths of all their sources, resolved against the
    source directory, and each aggregated list is the concatenation, group
    by group, of the list every file of the group gets.  A group counts
    once, however many sources it has. *)
Theorem convert_target_info_aggregates (env : Env) (target_json : TargetJson)
    (parent_project : Project.t) :
  let groups_json := get_default (fileGroups target_json) [] in
  existsb no_sources groups_json = false ->
  exists tg,
    convert_target_info env target_json parent_project = Ok tg
    /\ Target.name tg = tj_name target_json
    /\ Target.squashed tg = false
    /\ Target.source_dir tg = abspath env (sourceDirectory target_json)
    /\ Target.filepaths tg
       = flat_map (fun group_json => map (resolve_in_source_dir tg) (sources group_json))
           groups_json
    /\ Target.all_includes tg = flat_map (group_includes tg) groups_json
    /\ Target.all_defines tg
       = flat_map (fun group_json => get_default (defines_json group_json) []) groups_json
    /\ Target.all_other_flags tg
       = flat_map (fun group_json =>
                     Str.split (get_default (compileFlags group_json) EmptyString))
           groups_json
    /\ Target.all_flags tg = flat_map (group_flags tg) groups_json.
Proof.
  intros groups_json Hnone. unfold convert_target_info.
  fold (target_stub env target_json parent_project). fold groups_json.
  set (stub := target_stub env target_json parent_project).
  destruct (@convert_groups_of_stub env stub _ groups_json eq_refl
              (abspath_nonempty env (sourceDirectory target_json)))
    as (groups & Hgroups & Hall).
  rewrite Hgroups. cbn [bind].
  destruct (@foldM_accumulate_all groups stub
              (converted_groups_nonempty Hnone Hall))
    as (tg & Hfold & Hn & Hs & Hsd & _ & Hfp & Hi & Hd & Ho & Hf).
  exists tg. split; [exact Hfold|].
  rewrite Hn, Hs, Hsd, Hfp, Hi, Hd, Ho, Hf. cbn [stub target_stub Target.name
    Target.squashed Target.source_dir Target.filepaths Target.all_includes
    Target.all_defines Target.all_other_flags Target.all_flags app].
  repeat split.
  - rewrite (converted_groups_paths Hall). apply flat_map_ext. intros g.
    apply map_ext. intros p. now apply resolve_same_source_dir.
  - rewrite (@converted_groups_first stub File.includes (group_includes stub) _ _
               (fun g filename x H => proj1 (proj2 (proj2 (proj2 (proj2 (proj2 (proj2 H)))))))
               Hnone Hall).
    apply flat_map_ext. intros g. now apply group_includes_same_source_dir.
  - now rewrite (@converted_groups_first stub File.defines
                   (fun g => get_default (defines_json g) []) _ _
                   (fun g filename x H => proj1 (proj2 (proj2 (proj2 (proj2 (proj2 H))))))
                   Hnone Hall).
  - now rewrite (@converted_groups_first stub File.other_flags
                   (fun g => Str.split (get_default (compileFlags g) EmptyString)) _ _
                   (fun g filename x H => proj1 (proj2 (proj2 (proj2 (proj2 H)))))
                   Hnone Hall).
  - rewrite (@converted_groups_first stub File.flags (group_flags stub) _ _
               (fun g filename x H =>
                  proj1 (proj2 (proj2 (proj2 (proj2 (proj2 (proj2 (proj2 H))))))))
               Hnone Hall).
    apply flat_map_ext. intros g. now apply group_flags_same_source_dir.
Qed.

Lemma convert_target_info_aggregates_witness :
  exists tg,
    convert_target_info Demo.env
      (target_of "app" "EXECUTABLE"
         [ group_of ["a.cpp"; "b.cpp"] (Some "CXX") (Some "-O2 -g");
           group_of ["/gen/c.c"] (Some "C") (Some "-w") ])
      project_stub
    = Ok tg
    /\ Target.filepaths tg = ["/src/a.cpp"; "/src/b.cpp"; "/gen/c.c"]
    /\ Target.all_flags tg = ["-O2"; "-g"; "-w"].
Proof.
  destruct (@convert_target_info_aggregates Demo.env
              (target_of "app" "EXECUTABLE"
                 [ group_of ["a.cpp"; "b.cpp"] (Some "CXX") (Some "-O2 -g");
                   group_of ["/gen/c.c"] (Some "C") (Some "-w") ])
              project_stub eq_refl)
    as (tg & Hconv & _ & _ & Hsd & Hfp & _ & _ & _ & Hf).
  exists tg. split; [exact Hconv|].
  unfold resolve_in_source_dir in Hfp. rewrite Hsd in Hfp. split; [exact Hfp|].
  unfold group_flags, include_path_to_flags in Hf. exact Hf.
Defined.

(** ** The conversion of a project *)

(** The names of the targets of a reply that are converted. *)
Definition built_names (targets_json : list TargetJson) : list string :=
  map tj_name (filter (fun target_json => negb (is_skipped_type target_json)) targets_json).

Lemma in_keys_set {V : Type} (d : Dict.t V) (k x : string) (v : V) :
  In x (Dict.keys (Dict.set d k v)) <-> In x (Dict.keys d) \/ x = k.
Proof.
  rewrite keys_set. destruct (Dict.mem d k) eqn:E.
  - split; [auto|]. intros [H| ->]; [assumption|].
    apply mem_get in E as [v' Hv']. eapply get_in_keys; eassumption.
  - rewrite in_app_iff. simpl. intuition congruence.
Qed.

Lemma set_Forall {V : Type} (P : string * V -> Prop) (d : Dict.t V) (k : string) (v : V) :
  Forall P d -> P (k, v) -> Forall P (Dict.set d k v).
Proof.
  intros Hd Hkv. induction Hd as [|[k' v'] d Hhead Htail IH]; simpl.
  - repeat constructor. exact Hkv.
  - destruct (String.eqb k k'); constructor; auto.
Qed.

Lemma update_Forall {V : Type} (P : string * V -> Prop) (d other : Dict.t V) :
  Forall P d -> Forall P other -> Forall P (Dict.update d other).
Proof.
  unfold Dict.update. intros Hd Hother. revert d Hd.
  induction Hother as [|[k v] other Hkv _ IH]; intros d Hd; simpl; [assumption|].
  apply IH. now apply set_Forall.
Qed.

Lemma add_target_fold (env : Env) (targets_json : list TargetJson) (acc r : Project.t) :
  foldM (add_target env) targets_json acc = Ok r ->
  project_keyed_by_name acc ->
  project_keyed_by_name r
  /\ Project.files r = Project.files acc
  /\ (forall name, In name (Dict.keys (Project.targets r))
                   <-> In name (Dict.keys (Project.targets acc))
                       \/ In name (built_names targets_json)).
Proof.
  revert acc. induction targets_json as [|t ts IH]; intros acc H Hacc; simpl in H.
  - injection H as <-. repeat split; [assumption|tauto|]. simpl. tauto.
  - apply bind_ok in H as (acc' & Hstep & H). unfold add_target in Hstep.
    unfold built_names. simpl filter.
    destruct (is_skipped_type t) eqn:Hskip; cbn [negb].
    + injection Hstep as <-. now apply IH.
    + apply bind_ok in Hstep as (tg & Htg & Hstep). injection Hstep as <-.
      destruct (IH _ H) as (Hk & Hf & Hkeys).
      { unfold project_keyed_by_name, project_with. cbn [Project.targets].
        apply set_Forall; [exact Hacc|]. cbn.
        symmetry. eapply convert_target_info_name; eassumption. }
      split; [assumption|]. split; [exact Hf|].
      intros name. rewrite Hkeys. unfold project_with. cbn [Project.targets map].
      fold (built_names ts). rewrite in_keys_set. simpl. intuition congruence.
Qed.

(** What every record of a converted project satisfies. *)
Definition file_of_built (names : list string) (f : File.t) : Prop :=
  has_object_file f = true /\ File.heuristics f = false /\ In (File.target_name f) names.

Lemma convert_file_info_of_built (env : Env) (group_json : FileGroupJson)
    (parent_target : Target.t) (files : list File.t) (names : list string) :
  convert_file_info env group_json parent_target = Ok files ->
  In (Target.name parent_target) names ->
  Forall (file_of_built names) files.
Proof.
  unfold convert_file_info. intros H Hin. apply mapM_ok in H.
  induction H as [|filename f filenames fs Hf _ IH]; constructor; [|assumption].
  destruct (convert_source_fields _ _ _ _ Hf) as (_ & Hname & _ & Hheur & _ & _ & _ & _ & Hobj).
  unfold file_of_built. rewrite Hname. auto.
Qed.

Lemma add_files_fold (env : Env) (names : list string) (targets_json : list TargetJson)
    (acc r : Project.t) :
  foldM (add_files env) targets_json acc = Ok r ->
  project_keyed_by_name acc ->
  (forall t, In t targets_json -> is_skipped_type t = false -> In (tj_name t) names) ->
  Forall (file_of_built names) (Project.files acc) ->
  Project.targets r = Project.targets acc
  /\ Forall (file_of_built names) (Project.files r).
Proof.
  revert acc. induction targets_json as [|t ts IH]; intros acc H Hkeyed Hnames Hfiles;
    simpl in H.
  - injection H as <-. auto.
  - apply bind_ok in H as (acc' & Hstep & H). unfold add_files in Hstep.
    assert (Hacc' : Project.targets acc' = Project.targets acc
                    /\ Forall (file_of_built names) (Project.files acc')).
    { destruct (is_skipped_type t) eqn:Hskip; [injection Hstep as <-; auto|].
      pose proof (Hnames t (or_introl eq_refl) Hskip) as Hin.
      revert Hstep Hfiles. generalize (get_default (fileGroups t) []).
      intros groups. revert acc Hkeyed.
      induction groups as [|g groups IHg]; intros acc Hkeyed Hstep Hfiles; simpl in Hstep.
      - injection Hstep as <-. auto.
      - apply bind_ok in Hstep as (mid & Hmid & Hstep).
        destruct (Dict.get (Project.targets acc) (tj_name t)) as [parent|] eqn:Hget;
          [|discriminate].
        apply bind_ok in Hmid as (fs & Hfs & Hmid). injection Hmid as <-.
        assert (Hparent : Target.name parent = tj_name t).
        { apply get_in in Hget. unfold project_keyed_by_name in Hkeyed.
          rewrite Forall_forall in Hkeyed. symmetry. exact (Hkeyed _ Hget). }
        destruct (IHg (project_with acc (Project.targets acc) (Project.files acc ++ fs)))
          as [Ht Hf]; [exact Hkeyed|exact Hstep| |auto].
        cbn [project_with Project.files]. apply Forall_app. split; [assumption|].
        eapply convert_file_info_of_built; [eassumption|]. now rewrite Hparent. }
    destruct Hacc' as [Ht' Hf'].
    destruct (IH acc' H) as [Ht Hf]; [| |assumption|].
    + unfold project_keyed_by_name. now rewrite Ht'.
    + intros t' Hin. apply Hnames. now right.
    + split; [congruence|assumption].
Qed.

(** The targets of a converted project are the targets of the reply whose
    type is neither [UTILITY] nor [INTERFACE_LIBRARY], under their names,
    and every file of the project is a non-heuristic record that has its
    object file and belongs to one of them: a target of the two skipped
    types brings neither a target nor a file. *)
Theorem convert_project_info_built (env : Env) (json : ProjectJson)
    (root_dir build_dir : string) (project : Project.t) :
  convert_project_info env json root_dir build_dir = Ok project ->
  let built := built_names (get_default (pj_targets json) []) in
  (forall name, In name (Dict.keys (Project.targets project)) <-> In name built)
  /\ Forall (fun f => has_object_file f = true
                      /\ File.heuristics f = false
                      /\ In (File.target_name f) built)
       (Project.files project).
Proof.
  intros H built. unfold convert_project_info in H.
  apply bind_ok in H as (result & Htargets & Hfiles).
  destruct (add_target_fold _ _ Htargets) as (Hkeyed & Hnofiles & Hkeys); [constructor|].
  destruct (@add_files_fold env built _ _ _ Hfiles Hkeyed) as [Ht Hf].
  - intros t Hin Hskip. unfold built, built_names. apply in_map.
    apply filter_In. split; [assumption|]. now rewrite Hskip.
  - rewrite Hnofiles. constructor.
  - split; [|exact Hf]. intros name. rewrite Ht, Hkeys. simpl. tauto.
Qed.

(** A reply with a utility target, an executable and an interface
    library. *)
Definition mixed_json : ProjectJson :=
  {| pj_name := "p"; pj_sourceDirectory := "/src"; pj_buildDirectory := "/src/build";
     pj_targets :=
       Some [ target_of "docs" "UTILITY" [group_of ["README.md"] None None];
              target_of "app" "EXECUTABLE" [group_of ["main.c"] (Some "C") None];
              target_of "api" "INTERFACE_LIBRARY" [group_of ["api.h"] None None] ] |}.

Definition mixed_project : Project.t :=
  Eval vm_compute in
    match convert_project_info Demo.env mixed_json "/src" "/src/build" with
    | Ok project => project
    | Raise _ => project_stub
    end.

Lemma convert_project_info_built_witness :
  (forall name, In name (Dict.keys (Project.targets mixed_project)) <-> In name ["app"])
  /\ Forall (fun f => has_object_file f = true
                      /\ File.heuristics f = false
                      /\ In (File.target_name f) ["app"])
       (Project.files mixed_project).
Proof.
  exact (@convert_project_info_built Demo.env mixed_json "/src" "/src/build" mixed_project
           eq_refl).
Defined.

(** ** From initialization to the compilation database *)

Lemma convert_project_info_with_object (env : Env) (json : ProjectJson)
    (root_dir build_dir : string) (project : Project.t) :
  convert_project_info env json root_dir build_dir = Ok project ->
  Forall (fun f => has_object_file f = true) (Project.files project).
Proof.
  intros H. unfold convert_project_info in H.
  apply bind_ok in H as (result & Htargets & Hfiles).
  destruct (add_target_fold _ _ Htargets) as (Hkeyed & Hnofiles & _); [constructor|].
  destruct (@add_files_fold env (built_names (get_default (pj_targets json) [])) _ _ _
              Hfiles Hkeyed) as [_ Hf].
  - intros t Hin Hskip. unfold built_names. apply in_map.
    apply filter_In. split; [assumption|]. now rewrite Hskip.
  - rewrite Hnofiles. constructor.
  - eapply Forall_impl; [|exact Hf]. now intros f (Hobj & _).
Qed.

Definition with_object (kv : string * File.t) : Prop := has_object_file (snd kv) = true.

Lemma registered_with_object (projects : list Project.t) (self : Index.t) :
  Forall with_object (Index._files self) ->
  Forall (fun project => Forall (fun f => has_object_file f = true) (Project.files project))
    projects ->
  Forall with_object (Index._files (registered self projects)).
Proof.
  unfold registered. intros Hself Hprojects. revert self Hself.
  induction Hprojects as [|project projects Hp _ IH]; intros self Hself; simpl;
    [assumption|].
  apply IH. rewrite register_project_files.
  revert Hself. generalize (Index._files self).
  induction Hp as [|f fs Hf _ IHf]; intros d Hd; simpl; [assumption|].
  apply IHf. now apply set_Forall.
Qed.

Lemma heuristics_loop_with_object (env : Env) (files : list File.t)
    (new_files result : Dict.t File.t) :
  Forall (fun f => has_object_file f = true) files ->
  Forall with_object new_files ->
  heuristics_loop env files new_files = Ok result ->
  Forall with_object result.
Proof.
  intros Hfiles. revert new_files.
  induction Hfiles as [|file rest Hfile _ IH]; intros new_files Hnew H.
  - simpl in H. now injection H as <-.
  - cbn [heuristics_loop] in H.
    destruct (match_header env file) as [[header|]|e] eqn:E.
    + eapply IH; [|exact H].
      destruct (match_header_some env file E) as [p ->].
      apply set_Forall; [apply set_Forall; [assumption|]|]; exact Hfile.
    + eauto.
    + destruct e; try discriminate; eauto.
Qed.

Lemma values_with_object (d : Dict.t File.t) :
  Forall with_object d -> forallb has_object_file (Dict.values d) = true.
Proof.
  induction 1 as [|kv d Hkv _ IH]; simpl; [reflexivity|].
  unfold with_object in Hkv. now rewrite Hkv, IH.
Qed.

(** When [initialize] on a new index returns, every record of the file
    map, converted or paired by the header heuristics, has its object
    file, so the projection of the index returns, with one record a known
    file in the order of the file map: its directory is the build
    directory of the tree, its file the path, and a paired header is given
    the object file of its source. *)
Theorem compilation_database_after_initialize (env : Env)
    (root_directory build_directory : string) (projects_json : list ProjectJson)
    (cache_json : list (string * string)) (self' : Index.t) :
  initialize env (Index.new root_directory build_directory) projects_json cache_json
    = (Ok tt, self') ->
  exists records,
    generate_compilation_database self' = Ok records
    /\ map cc_file records = map File.path (Dict.values (Index._files self'))
    /\ map cc_directory records = map File.tree_build_dir (Dict.values (Index._files self'))
    /\ records = map (record_for self') (Dict.values (Index._files self')).
Proof.
  intros Hinit.
  assert (Hobj : Forall with_object (Index._files self')).
  { unfold initialize in Hinit.
    cbn [Index.root_directory Index.build_directory Index.new] in Hinit.
    destruct (mapM _ projects_json) as [projects|e] eqn:Hconv; [|discriminate].
    fold (Index.new root_directory build_directory) in Hinit.
    set (self1 := registered (Index.new root_directory build_directory) projects) in *.
    assert (H1 : Forall with_object (Index._files self1)).
    { apply registered_with_object; [constructor|].
      apply mapM_ok in Hconv. clear - Hconv.
      induction Hconv as [|json project jsons projects Hp _ IH]; constructor;
        [|assumption].
      eapply convert_project_info_with_object; eassumption. }
    destruct (run_matching_header_heuristics env (Index._files self1))
      as [new_files|e] eqn:Hrun; [|discriminate].
    injection Hinit as <-. cbn [Index._files Index.with_cache Index.with_files].
    apply update_Forall; [assumption|].
    unfold run_matching_header_heuristics in Hrun.
    eapply heuristics_loop_with_object; [|constructor|exact Hrun].
    clear - H1. induction H1 as [|kv d Hkv _ IH]; simpl; constructor; assumption. }
  exists (map (record_for self') (Dict.values (Index._files self'))).
  split; [apply compilation_database_of_converted; now apply values_with_object|].
  rewrite !map_map. repeat split.
Qed.

Lemma compilation_database_after_initialize_witness :
  exists records,
    generate_compilation_database Paired.index = Ok records
    /\ map cc_file records
       = ["/src/main.cpp"; "/src/util.cpp"; "/src/tool/tool.cpp";
          "/src/inc_app/main.h"; "/src/tool/inc_tool/tool.h"]
    /\ map cc_directory records
       = ["/src/build"; "/src/build"; "/src/build"; "/src/build"; "/src/build"]
    /\ records = map (record_for Paired.index) (Dict.values (Index._files Paired.index)).
Proof.
  exact (@compilation_database_after_initialize Paired.env "/src" "/src/build"
           Demo.projects_json Demo.cache_json Paired.index eq_refl).
Defined.

Example paired_header_command :
  option_map cc_command
    (nth_error (map (record_for Paired.index) (Dict.values (Index._files Paired.index))) 3)
  = Some "/usr/bin/c++ -O2 -DNAME=app -DIN_app -I /src/inc_app -c /src/inc_app/main.h -o /src/build/CMakeFiles/app.dir/main.cpp.o".
Proof. reflexivity. Qed.

(** ** A second unknown file in a backfilled directory *)

Lemma owners_app (d : string) (l1 l2 : Dict.t TargetEntry) :
  owners d (l1 ++ l2) = owners d l1 ++ owners d l2.
Proof. unfold owners. apply flat_map_app. Qed.

Lemma owners_in (d : string) (targets : Dict.t TargetEntry) (tg : Target.t) :
  In tg (owners d targets) ->
  owns d tg = true /\ exists k, In (k, TargetRecord tg) targets.
Proof.
  induction targets as [|[k e] targets IH]; simpl; [contradiction|].
  rewrite in_app_iff. intros [Hhead|Htail].
  - destruct e as [tg'|]; [|contradiction].
    destruct (owns d tg') eqn:E; [|contradiction].
    destruct Hhead as [->|[]]. split; [assumption|]. exists k. now left.
  - destruct (IH Htail) as [Ho [k' Hk']]. split; [assumption|]. exists k'. now right.
Qed.

Lemma set_at {V : Type} (l1 l2 : Dict.t V) (k : string) (v v' : V) :
  ~ In k (Dict.keys l1) ->
  Dict.set (l1 ++ (k, v) :: l2) k v' = l1 ++ (k, v') :: l2.
Proof.
  induction l1 as [|[k1 v1] l1 IH]; simpl; intros Hnotin.
  - now rewrite String.eqb_refl.
  - destruct (String.eqb k k1) eqn:E.
    + apply String.eqb_eq in E. subst. exfalso. apply Hnotin. now left.
    + rewrite IH; [reflexivity|]. intros Hin. apply Hnotin. now right.
Qed.

Lemma all_records_set (targets : Dict.t TargetEntry) (k : string) (tg : Target.t) :
  all_records targets = true ->
  all_records (Dict.set targets k (TargetRecord tg)) = true.
Proof.
  unfold all_records. induction targets as [|[k' e'] targets IH]; simpl; [reflexivity|].
  intros H. apply andb_true_iff in H as [He Hrest].
  destruct (String.eqb k k'); simpl; [assumption|]. now rewrite He, IH.
Qed.

(** The one owner of a directory, in a map keyed by name without
    repeated keys, sits under its name, and nothing else of the map owns
    the directory. *)
Lemma single_owner_split (d : string) (targets : Dict.t TargetEntry) (tg : Target.t) :
  owners d targets = [tg] ->
  keyed_by_name targets ->
  NoDup (Dict.keys targets) ->
  owns d tg = true
  /\ exists l1 l2,
       targets = l1 ++ (Target.name tg, TargetRecord tg) :: l2
       /\ ~ In (Target.name tg) (Dict.keys l1)
       /\ owners d l1 = [] /\ owners d l2 = [].
Proof.
  intros Howners Hkeyed Hnd.
  assert (Hin : In tg (owners d targets)) by (rewrite Howners; now left).
  destruct (owners_in _ _ _ Hin) as [Howns [k Hk]].
  assert (Hname : k = Target.name tg).
  { unfold keyed_by_name in Hkeyed. rewrite Forall_forall in Hkeyed.
    exact (Hkeyed _ Hk). }
  subst k. split; [assumption|].
  destruct (in_split _ _ Hk) as (l1 & l2 & Hsplit).
  exists l1, l2. split; [assumption|].
  rewrite Hsplit in Hnd, Howners, Hkeyed.
  unfold Dict.keys in Hnd. rewrite map_app in Hnd. simpl in Hnd.
  pose proof (NoDup_remove_2 _ _ _ Hnd) as Hnotin.
  rewrite in_app_iff in Hnotin.
  split; [unfold Dict.keys; tauto|].
  rewrite owners_app in Howners.
  change ((Target.name tg, TargetRecord tg) :: l2)
    with ([(Target.name tg, TargetRecord tg)] ++ l2) in Howners.
  rewrite owners_app in Howners. simpl in Howners. rewrite Howns in Howners.
  simpl in Howners.
  assert (Hother : forall l, (forall kv, In kv l -> entry_keyed_by_name kv) ->
                             ~ In (Target.name tg) (map fst l) ->
                             forall x, In x (owners d l) -> x <> tg).
  { intros l Hl Hno x Hx ->. destruct (owners_in _ _ _ Hx) as [_ [k' Hk']].
    pose proof (Hl _ Hk') as Hk'name. cbn in Hk'name. subst k'.
    apply Hno. change (Target.name tg) with (fst (Target.name tg, TargetRecord tg)).
    now apply in_map. }
  unfold keyed_by_name in Hkeyed. rewrite Forall_forall in Hkeyed.
  assert (H1 : forall x, In x (owners d l1) -> x <> tg).
  { apply Hother; [|tauto]. intros kv Hkv. apply Hkeyed. apply in_or_app. now left. }
  assert (H2 : forall x, In x (owners d l2) -> x <> tg).
  { apply Hother; [|tauto]. intros kv Hkv. apply Hkeyed. apply in_or_app. right. now right. }
  destruct (owners d l1) as [|x1 o1].
  - simpl in Howners. injection Howners as Hl2. split; [reflexivity|assumption].
  - exfalso. simpl in Howners. injection Howners as Hx1 _.
    apply (H1 x1); [now left|assumption].
Qed.

(** In an index whose target map is keyed by name, without repeated keys
    and without key-less entry, let one target own the directory of an
    unknown path.  The backfill of that path appends it to the file list
    of the target and replaces no other entry, the target is still the one
    owner of the directory, and a second unknown path of the directory is
    answered with a record of the same target and the same flags. *)
Theorem backfill_keeps_single_owner (env : Env) (self : Index.t) (first_path second_path : string)
    (tg : Target.t) :
  Dict.get (Index._files self) first_path = None ->
  all_records (Index._targets self) = true ->
  keyed_by_name (Index._targets self) ->
  NoDup (Dict.keys (Index._targets self)) ->
  owners (Path.dirname first_path) (Index._targets self) = [tg] ->
  Path.dirname second_path = Path.dirname first_path ->
  second_path <> first_path ->
  Dict.get (Index._files self) second_path = None ->
  let self1 := snd (query_file env self first_path true) in
  Index._targets self1
    = Dict.set (Index._targets self) (Target.name tg)
        (TargetRecord (Target.append_filepath tg first_path))
  /\ owners (Path.dirname first_path) (Index._targets self1)
     = [Target.append_filepath tg first_path]
  /\ exists result,
       fst (query_file env self1 second_path true) = Ok (Some result)
       /\ File.path result = second_path
       /\ File.target_name result = Target.name tg
       /\ File.flags result = Target.all_flags tg.
Proof.
  intros Hnew Hrecords Hkeyed Hnd Howners Hdir Hne Hnew2 self1.
  destruct (single_owner_split _ Howners Hkeyed Hnd)
    as (Howns & l1 & l2 & Hsplit & Hnotin & Hl1 & Hl2).
  set (tg2 := Target.append_filepath tg first_path).
  assert (Hget : Dict.get (Index._targets self) (Target.name tg) = Some (TargetRecord tg)).
  { apply in_get; [assumption|]. rewrite Hsplit. apply in_or_app. right. now left. }
  assert (Hfound : targets_in_directory (Path.dirname first_path) (Index._targets self)
                   = Ok (map TargetRecord [tg])).
  { rewrite targets_in_directory_owners by assumption. now rewrite Howners. }
  assert (Hself1 : query_file env self first_path true
                   = (Ok (Some (directory_file first_path tg [tg])),
                      Index.with_targets
                        (Index.with_files self
                           (Dict.set (Index._files self) first_path
                              (directory_file first_path tg [tg])))
                        (Dict.set (Index._targets self) (Target.name tg)
                           (TargetRecord tg2)))).
  { unfold query_file. rewrite Hnew.
    rewrite (get_file_info_for_directory_found env first_path _ Hfound).
    cbn [File.target_name directory_file map Str.join Index._targets Index.with_files
         File.path].
    unfold Dict.mem. rewrite Hget. cbn [negb Index._targets Index.with_files].
    now rewrite Hget. }
  assert (Htargets1 : Index._targets self1
                      = l1 ++ (Target.name tg, TargetRecord tg2) :: l2).
  { subst self1. rewrite Hself1. cbn [snd Index._targets Index.with_targets].
    rewrite Hsplit. now apply set_at. }
  assert (Howns2 : owns (Path.dirname first_path) tg2 = true).
  { unfold owns, tg2. cbn [Target.append_filepath Target.filepaths].
    rewrite map_app. unfold in_set. rewrite existsb_app.
    unfold owns, in_set in Howns. now rewrite Howns. }
  assert (Howners1 : owners (Path.dirname first_path) (Index._targets self1) = [tg2]).
  { rewrite Htargets1, owners_app.
    change ((Target.name tg, TargetRecord tg2) :: l2)
      with ([(Target.name tg, TargetRecord tg2)] ++ l2).
    rewrite owners_app, Hl1, Hl2. simpl. now rewrite Howns2. }
  split; [subst self1; now rewrite Hself1|]. split; [exact Howners1|].
  exists (directory_file second_path tg2 [tg2]).
  assert (Hfiles1 : Dict.get (Index._files self1) second_path = None).
  { subst self1. rewrite Hself1. cbn [snd Index._files Index.with_targets Index.with_files].
    rewrite get_set_other by congruence. exact Hnew2. }
  assert (Hrecords1 : all_records (Index._targets self1) = true).
  { subst self1. rewrite Hself1. cbn [snd Index._targets Index.with_targets].
    now apply all_records_set. }
  assert (Hfound1 : targets_in_directory (Path.dirname second_path) (Index._targets self1)
                    = Ok (map TargetRecord [tg2])).
  { rewrite Hdir, targets_in_directory_owners by assumption. now rewrite Howners1. }
  assert (Hget1 : Dict.get (Index._targets self1) (Target.name tg) = Some (TargetRecord tg2)).
  { subst self1. rewrite Hself1. cbn [snd Index._targets Index.with_targets].
    apply get_set_same. }
  split; [|cbn; rewrite app_nil_r; repeat split].
  unfold query_file. rewrite Hfiles1.
  rewrite (get_file_info_for_directory_found env second_path _ Hfound1).
  cbn [File.target_name directory_file map Str.join Index._targets Index.with_files
       File.path tg2 Target.append_filepath Target.name].
  unfold Dict.mem. rewrite Hget1. cbn [negb Index._targets Index.with_files].
  now rewrite Hget1.
Qed.

Lemma backfill_keeps_single_owner_witness :
  let self1 := snd (query_file Demo.env Demo.index "/src/tool/extra.cpp" true) in
  Index._targets self1
    = Dict.set (Index._targets Demo.index) "tool"
        (TargetRecord (Target.append_filepath Demo.tool "/src/tool/extra.cpp"))
  /\ owners "/src/tool" (Index._targets self1)
     = [Target.append_filepath Demo.tool "/src/tool/extra.cpp"]
  /\ exists result,
       fst (query_file Demo.env self1 "/src/tool/more.cpp" true) = Ok (Some result)
       /\ File.path result = "/src/tool/more.cpp"
       /\ File.target_name result = "tool"
       /\ File.flags result = ["-O2"; "-DNAME=tool"; "-DIN_tool"; "-I"; "/src/tool/inc_tool"].
Proof.
  refine (@backfill_keeps_single_owner Demo.env Demo.index "/src/tool/extra.cpp"
            "/src/tool/more.cpp" Demo.tool eq_refl eq_refl _ _ eq_refl eq_refl _ eq_refl).
  - exact (initialize_keyed_by_name Demo.env "/src" "/src/build"
             Demo.projects_json Demo.cache_json).
  - vm_compute. repeat constructor; simpl; intuition discriminate.
  - discriminate.
Defined.

(** ** The maps [initialize] leaves *)

Lemma fold_with_targets_targets (items : list (string * Target.t)) (self : Index.t) :
  Index._targets
    (fold_left (fun (self : Index.t) item =>
                  Index.with_targets self
                    (Dict.set (Index._targets self) (fst item) (TargetRecord (snd item))))
       items self)
  = fold_left (fun d item => Dict.set d (fst item) (TargetRecord (snd item)))
      items (Index._targets self).
Proof.
  revert self. induction items as [|item items IH]; intros self; simpl; [reflexivity|].
  now rewrite IH.
Qed.

Lemma register_project_targets (self : Index.t) (project : Project.t) :
  Index._targets (register_project self project)
  = fold_left (fun d item => Dict.set d (fst item) (TargetRecord (snd item)))
      (Dict.items (Project.targets project)) (Index._targets self).
Proof.
  unfold register_project. now rewrite fold_with_files_targets, fold_with_targets_targets.
Qed.

Lemma registered_targets_unique (projects : list Project.t) (self : Index.t) :
  NoDup (Dict.keys (Index._targets self)) ->
  all_records (Index._targets self) = true ->
  NoDup (Dict.keys (Index._targets (registered self projects)))
  /\ all_records (Index._targets (registered self projects)) = true.
Proof.
  unfold registered. revert self.
  induction projects as [|project projects IH]; intros self Hnd Hrec; simpl; [auto|].
  apply IH; rewrite register_project_targets; revert Hnd Hrec;
    generalize (Index._targets self);
    induction (Dict.items (Project.targets project)) as [|item items IHi];
    intros d Hnd Hrec; simpl; try assumption;
    apply IHi; try (now apply set_NoDup); now apply all_records_set.
Qed.

Lemma heuristics_loop_keyed (env : Env) (files : list File.t)
    (new_files result : Dict.t File.t) :
  Forall (fun kv => fst kv = File.path (snd kv)) new_files ->
  heuristics_loop env files new_files = Ok result ->
  Forall (fun kv => fst kv = File.path (snd kv)) result.
Proof.
  revert new_files. induction files as [|file rest IH]; intros new_files Hnew H.
  - simpl in H. now injection H as <-.
  - cbn [heuristics_loop] in H.
    destruct (match_header env file) as [[header|]|e].
    + eapply IH; [|exact H]. apply set_Forall; [apply set_Forall; [assumption|]|];
        reflexivity.
    + eauto.
    + destruct e; try discriminate; eauto.
Qed.

(** Whatever [initialize] does on a new index, return or raise, it leaves
    a target map with one entry a name, each a target record filed under
    its own name, and a file map with one entry a path, each record filed
    under its own path. *)
Theorem initialize_wellformed (env : Env) (root_directory build_directory : string)
    (projects_json : list ProjectJson) (cache_json : list (string * string)) :
  let self' := snd (initialize env (Index.new root_directory build_directory)
                      projects_json cache_json) in
  NoDup (Dict.keys (Index._targets self'))
  /\ all_records (Index._targets self') = true
  /\ keyed_by_name (Index._targets self')
  /\ keyed_by_path (Index._files self').
Proof.
  intros self'.
  assert (Hnew : keyed_by_path (Index._files (Index.new root_directory build_directory))).
  { split; constructor. }
  split; [|split; [|split; [apply initialize_keyed_by_name|]]]; subst self';
    unfold initialize; cbn [Index.root_directory Index.build_directory Index.new];
    fold (Index.new root_directory build_directory);
    destruct (mapM _ projects_json) as [projects|e].
  - destruct (@registered_targets_unique projects
                (Index.new root_directory build_directory) (NoDup_nil _) eq_refl)
      as [Hnd _].
    now destruct (run_matching_header_heuristics env _).
  - apply NoDup_nil.
  - destruct (@registered_targets_unique projects
                (Index.new root_directory build_directory) (NoDup_nil _) eq_refl)
      as [_ Hrec].
    now destruct (run_matching_header_heuristics env _).
  - reflexivity.
  - pose proof (@registered_keyed_by_path projects _ Hnew) as Hkeyed.
    destruct (run_matching_header_heuristics env _) as [new_files|e] eqn:Hrun;
      [|exact Hkeyed].
    cbn [snd Index._files Index.with_cache Index.with_files].
    destruct Hkeyed as [Hk1 Hk2]. split.
    + now apply update_NoDup.
    + apply update_Forall; [assumption|].
      unfold run_matching_header_heuristics in Hrun.
      eapply heuristics_loop_keyed; [|exact Hrun]. constructor.
  - exact Hnew.
Qed.

(** ** The files of the reply are known *)

Lemma initialize_parts (env : Env) (self self' : Index.t)
    (projects_json : list ProjectJson) (cache_json : list (string * string)) :
  initialize env self projects_json cache_json = (Ok tt, self') ->
  exists projects new_files,
    mapM (fun project => convert_project_info env project
                           (Index.root_directory self) (Index.build_directory self))
      projects_json = Ok projects
    /\ run_matching_header_heuristics env (Index._files (registered self projects))
       = Ok new_files
    /\ Index._files self'
       = Dict.update (Index._files (registered self projects)) new_files
    /\ Index._targets self' = Index._targets (registered self projects).
Proof.
  unfold initialize. intros H.
  destruct (mapM _ projects_json) as [projects|e]; [|discriminate].
  destruct (run_matching_header_heuristics env _) as [new_files|e] eqn:Hrun; [|discriminate].
  injection H as <-. exists projects, new_files. repeat split. exact Hrun.
Qed.

Lemma fold_set_keeps_keys (files : list File.t) (d : Dict.t File.t) (k : string) :
  In k (Dict.keys d) ->
  In k (Dict.keys (fold_left (fun d file => Dict.set d (File.path file) file) files d)).
Proof.
  revert d. induction files as [|file files IH]; intros d H; simpl; [assumption|].
  apply IH. apply in_keys_set. now left.
Qed.

Lemma fold_set_adds_keys (files : list File.t) (d : Dict.t File.t) (f : File.t) :
  In f files ->
  In (File.path f)
    (Dict.keys (fold_left (fun d file => Dict.set d (File.path file) file) files d)).
Proof.
  revert d. induction files as [|file files IH]; intros d H; [contradiction|].
  simpl. destruct H as [->|H]; [|now apply IH].
  apply fold_set_keeps_keys. apply in_keys_set. now right.
Qed.

Lemma registered_keeps_keys (projects : list Project.t) (self : Index.t) (k : string) :
  In k (Dict.keys (Index._files self)) ->
  In k (Dict.keys (Index._files (registered self projects))).
Proof.
  unfold registered. revert self.
  induction projects as [|project projects IH]; intros self H; simpl; [assumption|].
  apply IH. rewrite register_project_files. now apply fold_set_keeps_keys.
Qed.

Lemma registered_adds_keys (projects : list Project.t) (self : Index.t)
    (project : Project.t) (f : File.t) :
  In project projects ->
  In f (Project.files project) ->
  In (File.path f) (Dict.keys (Index._files (registered self projects))).
Proof.
  unfold registered. revert self.
  induction projects as [|p projects IH]; intros self Hp Hf; [contradiction|].
  simpl. destruct Hp as [->|Hp]; [|now apply IH].
  apply (registered_keeps_keys projects). rewrite register_project_files.
  now apply fold_set_adds_keys.
Qed.

Lemma update_keeps_keys {V : Type} (d other : Dict.t V) (k : string) :
  In k (Dict.keys d) -> In k (Dict.keys (Dict.update d other)).
Proof.
  unfold Dict.update. revert d.
  induction other as [|[k1 v1] other IH]; intros d H; simpl; [assumption|].
  apply IH. apply in_keys_set. now left.
Qed.

(** When [initialize] on a new index returns, every file of every
    converted project is known to the index: [query_file] on its path,
    with the heuristics or without, returns a record filed under that path
    and with that path, and leaves the index alone.  The header heuristics
    may have replaced the record; they never remove one. *)
Theorem converted_files_are_known (env : Env) (root_directory build_directory : string)
    (projects_json : list ProjectJson) (cache_json : list (string * string))
    (self' : Index.t) (projects : list Project.t) (project : Project.t) (f : File.t)
    (directory_heuristics : bool) :
  initialize env (Index.new root_directory build_directory) projects_json cache_json
    = (Ok tt, self') ->
  mapM (fun json => convert_project_info env json root_directory build_directory)
    projects_json = Ok projects ->
  In project projects ->
  In f (Project.files project) ->
  exists record,
    query_file env self' (File.path f) directory_heuristics = (Ok (Some record), self')
    /\ File.path record = File.path f.
Proof.
  intros Hinit Hconv Hproject Hf.
  destruct (initialize_parts _ _ _ _ Hinit)
    as (projects' & new_files & Hconv' & Hrun & Hfiles & _).
  cbn [Index.root_directory Index.build_directory Index.new] in Hconv'.
  rewrite Hconv in Hconv'. injection Hconv' as <-.
  assert (Hkey : In (File.path f) (Dict.keys (Index._files self'))).
  { rewrite Hfiles. apply update_keeps_keys. eapply registered_adds_keys; eassumption. }
  apply in_keys_get in Hkey as [record Hrecord].
  exists record. split; [unfold query_file; now rewrite Hrecord|].
  assert (Hkeyed : Forall (fun kv => fst kv = File.path (snd kv)) (Index._files self')).
  { rewrite Hfiles. apply update_Forall.
    - apply (@registered_keyed_by_path projects). split; constructor.
    - unfold run_matching_header_heuristics in Hrun.
      eapply heuristics_loop_keyed; [|exact Hrun]. constructor. }
  rewrite Forall_forall in Hkeyed. symmetry. exact (Hkeyed _ (get_in _ _ Hrecord)).
Qed.

Lemma converted_files_are_known_witness :
  exists record,
    query_file Paired.env Paired.index "/src/main.cpp" true = (Ok (Some record), Paired.index)
    /\ File.path record = "/src/main.cpp".
Proof.
  refine (@converted_files_are_known Paired.env "/src" "/src/build" Demo.projects_json
            Demo.cache_json Paired.index Unreadable.projects
            (nth 0 Unreadable.projects project_stub) Unreadable.main_cpp true
            eq_refl eq_refl _ _).
  - left. reflexivity.
  - left. reflexivity.
Defined.

(** * Further properties of the client *)

Module ClientFacts.
Import Server.

(** ** After the process is gone *)

Definition not_running_error : exn := CmakeError "Server is not running.".

Lemma send_and_read_refused (self : t) (cookie message_type : string) :
  not_running self = true ->
  send_and_read self cookie message_type
  = (Raises not_running_error, with_socket (with_process self None) false).
Proof.
  intros H. unfold send_and_read, send_message. now rewrite H.
Qed.

(** On a client without a process or a socket, or whose process has been
    seen to exit, [send_and_read] raises [CmakeError] "Server is not
    running.", writes nothing and reads nothing, and drops the process and
    the socket; so does every later call: nothing starts the server
    again. *)
Theorem send_and_read_not_running (self : t) (cookie message_type : string) :
  not_running self = true ->
  let outcome := send_and_read self cookie message_type in
  fst outcome = Raises not_running_error
  /\ process (snd outcome) = None
  /\ socket (snd outcome) = false
  /\ outbox (snd outcome) = outbox self
  /\ inbox (snd outcome) = inbox self
  /\ forall cookie' message_type',
       send_and_read (snd outcome) cookie' message_type'
       = (Raises not_running_error, snd outcome).
Proof.
  intros H outcome. subst outcome. rewrite (send_and_read_refused _ _ _ H).
  cbn [fst snd process socket outbox inbox with_socket with_process].
  repeat split.
Qed.

Lemma send_and_read_not_running_witness :
  let outcome := send_and_read (new [Recv ServerFacts.codemodel_reply]) "c" "codemodel" in
  fst outcome = Raises not_running_error
  /\ process (snd outcome) = None
  /\ socket (snd outcome) = false
  /\ outbox (snd outcome) = []
  /\ inbox (snd outcome) = [Recv ServerFacts.codemodel_reply]
  /\ forall cookie' message_type',
       send_and_read (snd outcome) cookie' message_type'
       = (Raises not_running_error, snd outcome).
Proof.
  exact (@send_and_read_not_running (new [Recv ServerFacts.codemodel_reply])
           "c" "codemodel" eq_refl).
Defined.

(** On a running client whose process has exited with a status other
    than 0 since the last poll, [send_and_read] raises the crash error
    with that status before anything is written, and the client is not
    running from then on: the next call is refused with "Server is not
    running.". *)
Theorem send_and_read_after_exit (self : t) (cookie message_type : string)
    (status : Z) (rest : list Event) :
  ServerFacts.running self ->
  inbox self = Exited status :: rest ->
  status <> 0%Z ->
  let outcome := send_and_read self cookie message_type in
  fst outcome = Raises (crashed status)
  /\ outbox (snd outcome) = outbox self
  /\ process (snd outcome) = Some (Some status)
  /\ not_running (snd outcome) = true
  /\ forall cookie' message_type',
       fst (send_and_read (snd outcome) cookie' message_type')
       = Raises not_running_error.
Proof.
  intros [Hp Hs] Hin Hstatus outcome.
  assert (Hout : outcome = (Raises (crashed status),
                            with_inbox (with_process self (Some (Some status))) rest)).
  { subst outcome.
    unfold send_and_read, send_message, not_running, check_server_status, poll.
    rewrite Hp, Hs, Hin. cbn [negb process with_inbox with_process].
    apply Z.eqb_neq in Hstatus. now rewrite Hstatus. }
  rewrite Hout. cbn [fst snd outbox process with_inbox with_process].
  repeat split.
Qed.

Lemma send_and_read_after_exit_witness :
  let outcome := send_and_read (ServerFacts.connected [Exited (-11)]) "c" "cache" in
  fst outcome = Raises (CmakeError "Cmake server crashed. Return code: -11.")
  /\ outbox (snd outcome) = []
  /\ process (snd outcome) = Some (Some (-11)%Z)
  /\ not_running (snd outcome) = true
  /\ forall cookie' message_type',
       fst (send_and_read (snd outcome) cookie' message_type')
       = Raises not_running_error.
Proof.
  exact (@send_and_read_after_exit (ServerFacts.connected [Exited (-11)])
           "c" "cache" (-11) [] (conj eq_refl eq_refl) eq_refl ltac:(discriminate)).
Defined.

(** ** A start that finds its socket *)

Lemma wait_for_socket_found (world : World) (tries : nat) (k : nat) :
  forall fuel clock,
    tries < 10 ->
    (forall n, n < k -> socket_exists world (clock + n) = false) ->
    socket_exists world (clock + k) = true ->
    k < fuel ->
    wait_for_socket fuel world tries clock = Some (clock + k).
Proof.
  induction k as [|k IH]; intros fuel clock Htries Hbefore Hat Hfuel;
    (destruct fuel as [|fuel]; [lia|]); simpl.
  - rewrite Nat.add_0_r in *. rewrite Hat.
    now rewrite andb_false_r.
  - apply Nat.ltb_lt in Htries as Hlt. rewrite Hlt.
    specialize (Hbefore 0 ltac:(lia)) as H0. rewrite Nat.add_0_r in H0. rewrite H0.
    cbn [negb andb]. rewrite (IH fuel (S clock)); [f_equal; lia|assumption| | |lia].
    + intros n Hn. replace (S clock + n) with (clock + S n) by lia. apply Hbefore. lia.
    + now replace (S clock + k) with (clock + S k) by lia.
Qed.

Definition protocol_error : exn := CmakeError "Server doesn't support 1.x protocol.".
Definition terminated_error : exn := CmakeError "Server terminated right after starting.".

(** On a client that has not been started, let the socket path first
    exist after [k] sleeps, however many.  If the process has exited by
    then, [start] raises "Server terminated right after starting." and
    does not connect.  Otherwise it connects and reads the greeting: it
    returns when the greeting lists a protocol version of major number 1,
    and raises "Server doesn't support 1.x protocol." when it lists none,
    the client staying connected. *)
Theorem start_when_socket_appears (world : World) (self : t)
    (cmake_binary socket_path : string) (k fuel : nat) (hello : Frame) (rest : list Event) :
  process self = None ->
  socket self = false ->
  (forall n, n < k -> socket_exists world n = false) ->
  socket_exists world k = true ->
  inbox self = Recv hello :: rest ->
  k < fuel ->
  let outcome := start fuel world self cmake_binary socket_path in
  match exit_status world k with
  | Some status =>
      fst outcome = Raises terminated_error
      /\ socket (snd outcome) = false
      /\ process (snd outcome) = Some (Some status)
  | None =>
      fst outcome
      = (if existsb (fun major => (major =? 1)%Z) (supportedProtocolVersions hello)
         then Returns tt else Raises protocol_error)
      /\ socket (snd outcome) = true
      /\ process (snd outcome) = Some None
      /\ Server.socket_path (snd outcome) = Some socket_path
      /\ inbox (snd outcome) = rest
  end.
Proof.
  intros Hp Hs Hbefore Hat Hin Hfuel outcome. subst outcome.
  unfold start. rewrite Hp, Hs. cbn [orb].
  rewrite (@wait_for_socket_found world 0 k fuel 0); [|lia|exact Hbefore|exact Hat|exact Hfuel].
  cbn [Nat.add]. destruct (exit_status world k) as [status|] eqn:Hexit.
  - cbn [fst snd socket process with_process with_socket_path]. now rewrite Hs.
  - rewrite Hat. cbn [negb].
    unfold read_message, not_running, check_server_status, poll.
    cbn [process socket inbox with_process with_socket with_socket_path with_inbox negb].
    rewrite Hin.
    cbn [process socket inbox with_process with_socket with_socket_path with_inbox negb].
    rewrite ?Hin.
    destruct (existsb _ (supportedProtocolVersions hello));
      cbn [fst snd process socket inbox Server.socket_path with_process with_socket
           with_socket_path with_inbox]; repeat split.
Qed.

Lemma start_when_socket_appears_witness :
  let late := {| socket_exists := fun n => (25 <=? n)%nat; exit_status := fun _ => None |} in
  let hello versions := {| type := "hello"; errorMessage := None; message := None;
                           supportedProtocolVersions := versions |} in
  fst (start 100 late (new [Recv (hello [1%Z])]) "/usr/bin/cmake" "/tmp/s") = Returns tt
  /\ fst (start 100 late (new [Recv (hello [2%Z; 3%Z])]) "/usr/bin/cmake" "/tmp/s")
     = Raises protocol_error.
Proof.
  intros late hello. split.
  - refine (proj1 (@start_when_socket_appears late (new [Recv (hello [1%Z])])
                     "/usr/bin/cmake" "/tmp/s" 25 100 (hello [1%Z]) []
                     eq_refl eq_refl _ eq_refl eq_refl _)).
    + intros n Hn. apply Nat.leb_gt. exact Hn.
    + apply Nat.ltb_lt. reflexivity.
  - refine (proj1 (@start_when_socket_appears late (new [Recv (hello [2%Z; 3%Z])])
                     "/usr/bin/cmake" "/tmp/s" 25 100 (hello [2%Z; 3%Z]) []
                     eq_refl eq_refl _ eq_refl eq_refl _)).
    + intros n Hn. apply Nat.leb_gt. exact Hn.
    + apply Nat.ltb_lt. reflexivity.
Defined.

(** ** The handshake is taken once *)

Definition already_error : exn := CmakeError "Already handshak'ed".

(** On a client that has not taken a handshake, whatever the first
    [handshake] does (it returns, it raises because the server answers
    with an error or is gone, or it waits), the two directories are set
    when it is over, and every later [handshake] raises "Already
    handshak'ed" and leaves the client and its connection as they are:
    nothing is written. *)
Theorem handshake_only_once (self : Session.t) (cookie root build : string)
    (generator : option string) :
  Session.root_dir self = None ->
  Session.build_dir self = None ->
  let after := snd (Session.handshake self cookie root build generator) in
  Session.root_dir after = Some root
  /\ Session.build_dir after = Some build
  /\ forall cookie' root' build' generator',
       Session.handshake after cookie' root' build' generator'
       = (Raises already_error, after).
Proof.
  intros Hr Hb after.
  assert (H : exists o s,
             Session.handshake self cookie root build generator
             = (o, {| Session.server := s; Session.root_dir := Some root;
                      Session.build_dir := Some build |})).
  { unfold Session.handshake. rewrite Hr, Hb. cbn [Session.is_set orb].
    destruct (send_and_read (Session.server self) cookie "handshake") as [[reply|e|] s];
      eauto. }
  destruct H as (o & s & H). subst after. rewrite H. cbn [snd].
  repeat split.
Qed.

Lemma handshake_only_once_witness :
  let first :=
    Session.handshake
      {| Session.server := ServerFacts.connected [Recv ServerFacts.failure];
         Session.root_dir := None; Session.build_dir := None |}
      "c" "/src" "/src/build" (Some "Unix Makefiles") in
  fst first = Raises (CmakeError "Waiting for type handshake.")
  /\ Session.root_dir (snd first) = Some "/src"
  /\ fst (Session.handshake (snd first) "d" "/src" "/src/build" None) = Raises already_error
  /\ outbox (Session.server (snd (Session.handshake (snd first) "d" "/src" "/src/build" None)))
     = [{| req_type := "handshake"; cookie := "c" |}].
Proof.
  intros first.
  destruct (@handshake_only_once
              {| Session.server := ServerFacts.connected [Recv ServerFacts.failure];
                 Session.root_dir := None; Session.build_dir := None |}
              "c" "/src" "/src/build" (Some "Unix Makefiles") eq_refl eq_refl)
    as (Hr & _ & Hagain).
  split; [reflexivity|]. split; [exact Hr|].
  fold first in Hagain. rewrite (Hagain "d" "/src" "/src/build" None).
  split; reflexivity.
Defined.

End ClientFacts.

(** * Further properties of the framing *)

Module FramingFacts.
Import Framing.

Lemma rstrip_newline (s : string) : rstrip (Str.cat s newline) = rstrip s.
Proof.
  unfold Str.cat. induction s as [|c s IH]; simpl; [reflexivity|]. now rewrite IH.
Qed.

Lemma lstrip_blank_newline (s : string) :
  Str.lstrip s = EmptyString -> Str.lstrip (Str.cat s newline) = EmptyString.
Proof.
  unfold Str.cat. induction s as [|c s IH]; simpl; [reflexivity|].
  destruct (Str.isspace c); [exact IH|discriminate].
Qed.

Lemma lstrip_newline (s : string) :
  Str.lstrip s <> EmptyString ->
  Str.lstrip (Str.cat s newline) = Str.cat (Str.lstrip s) newline.
Proof.
  unfold Str.cat. induction s as [|c s IH]; simpl; [congruence|].
  destruct (Str.isspace c); [exact IH|reflexivity].
Qed.

(** The line break [readline] leaves at the end of a line goes with the
    strip. *)
Lemma strip_newline (s : string) : strip (Str.cat s newline) = strip s.
Proof.
  unfold strip. destruct (Str.lstrip s) eqn:E.
  - now rewrite lstrip_blank_newline.
  - rewrite lstrip_newline by congruence. rewrite E. apply rstrip_newline.
Qed.

Definition kept (body : list string) : list string :=
  filter (fun line => negb (Str.is_empty line)) (map strip body).

Lemma closing_not_empty : Str.is_empty closing = false.
Proof. reflexivity. Qed.

Lemma read_until_closing_body (body rest lines : list string) :
  forallb (fun raw => negb (String.eqb (strip raw) closing)) body = true ->
  read_until_closing (body ++ Str.cat closing newline :: rest) lines
  = Some (lines ++ kept body ++ [closing], rest).
Proof.
  revert lines. induction body as [|raw body IH]; intros lines Hbody.
  - cbn [app read_until_closing]. rewrite strip_newline.
    change (strip closing) with closing. rewrite closing_not_empty, String.eqb_refl.
    reflexivity.
  - simpl in Hbody. apply andb_true_iff in Hbody as [Hraw Hbody].
    apply negb_true_iff in Hraw. cbn [app read_until_closing]. rewrite Hraw, (IH _ Hbody).
    unfold kept. cbn [map filter].
    destruct (Str.is_empty (strip raw)); cbn [negb]; [reflexivity|].
    now rewrite <- app_assoc.
Qed.

(** What [read_message] parses: of the lines before the closing
    sentinel, stripped, the empty ones are dropped wherever they are, the
    first that is left is dropped too, whatever it says (it is not compared
    with the opening sentinel), and the others are joined by line breaks;
    the lines after the closing sentinel are left unread. *)
Theorem read_text_of_frame (body rest : list string) :
  forallb (fun raw => negb (String.eqb (strip raw) closing)) body = true ->
  read_text (body ++ Str.cat closing newline :: rest)
  = Some (Str.join newline (List.tl (kept body)), rest).
Proof.
  intros Hbody. unfold read_text. rewrite (read_until_closing_body body rest [] Hbody).
  cbn [app]. unfold interior. do 3 f_equal.
  destruct (kept body) as [|line lines]; [reflexivity|].
  cbn [app List.tl]. apply removelast_last.
Qed.

Lemma read_text_of_frame_witness :
  read_text [ newline; "garbage, not the opening sentinel"; "  {  "; newline;
              "   1: 2 }   "; Str.cat closing newline; "next" ]
  = Some (Str.cat "{" (Str.cat newline "1: 2 }"), ["next"]).
Proof.
  exact (@read_text_of_frame
           [ newline; "garbage, not the opening sentinel"; "  {  "; newline;
             "   1: 2 }   " ] ["next"] eq_refl).
Defined.

(** What [send_message] writes for a text without line break, [read_message]
    reads back as that text, stripped, and leaves what follows: provided
    the text is not blank and not the closing sentinel itself. *)
Theorem written_read_back (payload : string) (rest : list string) :
  strip payload <> EmptyString ->
  strip payload <> closing ->
  read_text (written payload ++ rest) = Some (strip payload, rest).
Proof.
  intros Hne Hnc. unfold written. cbn [app].
  change (Str.cat opening newline :: Str.cat payload newline
          :: Str.cat closing newline :: rest)
    with ([Str.cat opening newline; Str.cat payload newline]
          ++ Str.cat closing newline :: rest).
  rewrite read_text_of_frame.
  - unfold kept. cbn [map filter]. rewrite !strip_newline.
    change (strip opening) with opening. cbn [Str.is_empty opening negb].
    destruct (strip payload) eqn:E; [congruence|]. reflexivity.
  - cbn [forallb]. rewrite !strip_newline. change (strip opening) with opening.
    apply String.eqb_neq in Hnc. rewrite Hnc. reflexivity.
Qed.

(** [json.dumps({'type': 'codemodel', 'cookie': 'qwertyui'})]. *)
Definition codemodel_request : string :=
  ("{" ++ quote ++ "type" ++ quote ++ ": " ++ quote ++ "codemodel" ++ quote ++ ", "
   ++ quote ++ "cookie" ++ quote ++ ": " ++ quote ++ "qwertyui" ++ quote ++ "}")%string.

Lemma written_read_back_witness :
  read_text (written codemodel_request ++ written codemodel_request)
  = Some (codemodel_request, written codemodel_request).
Proof.
  exact (@written_read_back codemodel_request (written codemodel_request)
           ltac:(discriminate) ltac:(discriminate)).
Defined.

(** A stream that ends before a closing sentinel leaves the read waiting. *)
Example read_text_waits : read_text [Str.cat opening newline; "{}"] = None.
Proof. reflexivity. Qed.

End FramingFacts.

(** * Further properties of the plugin *)

Module PluginFacts.
Import Plugin.

(** ** Cache variables of the command line *)

Fixpoint has_char (c : ascii) (s : string) : bool :=
  match s with
  | EmptyString => false
  | String d s' => Ascii.eqb d c || has_char c s'
  end.

Lemma cat_assoc (a b c : string) : Str.cat (Str.cat a b) c = Str.cat a (Str.cat b c).
Proof. unfold Str.cat. induction a as [|x a IH]; simpl; [reflexivity|]. now rewrite IH. Qed.

Lemma cat_nil_r (a : string) : Str.cat a EmptyString = a.
Proof. unfold Str.cat. induction a as [|x a IH]; simpl; [reflexivity|]. now rewrite IH. Qed.

Lemma split_sep_from_plain (sep : ascii) (s cur : string) :
  has_char sep s = false ->
  Str.split_sep_from sep s cur = [Str.cat cur s].
Proof.
  revert cur. induction s as [|c s IH]; intros cur H; simpl.
  - now rewrite cat_nil_r.
  - simpl in H. apply orb_false_iff in H as [Hc Hs]. rewrite Hc, (IH _ Hs).
    now rewrite cat_assoc.
Qed.

Lemma split_sep_from_at (sep : ascii) (a b cur : string) :
  has_char sep a = false ->
  Str.split_sep_from sep (Str.cat a (String sep b)) cur
  = Str.cat cur a :: Str.split_sep_from sep b EmptyString.
Proof.
  revert cur. induction a as [|c a IH]; intros cur H; simpl.
  - now rewrite Ascii.eqb_refl, cat_nil_r.
  - simpl in H. apply orb_false_iff in H as [Hc Ha]. rewrite Hc.
    unfold Str.cat in IH. rewrite (IH _ Ha). now rewrite cat_assoc.
Qed.

Definition equals : ascii := "="%char.

(** The variable [name=value]. *)
Definition assignment (kv : string * string) : string :=
  Str.cat (fst kv) (String equals (snd kv)).

Definition plain (kv : string * string) : bool :=
  negb (has_char equals (fst kv)) && negb (has_char equals (snd kv)).

Lemma split_assignment (kv : string * string) :
  plain kv = true -> Str.split_sep equals (assignment kv) = [fst kv; snd kv].
Proof.
  unfold plain, assignment, Str.split_sep. intros H.
  apply andb_true_iff in H as [Hk Hv]. apply negb_true_iff in Hk, Hv.
  rewrite split_sep_from_at by assumption. now rewrite split_sep_from_plain.
Qed.

Lemma set_new {V : Type} (d : Dict.t V) (k : string) (v : V) :
  ~ In k (Dict.keys d) -> Dict.set d k v = d ++ [(k, v)].
Proof.
  induction d as [|[k' v'] d IH]; simpl; intros H; [reflexivity|].
  destruct (String.eqb k k') eqn:E.
  - apply String.eqb_eq in E. subst. tauto.
  - rewrite IH; [reflexivity|tauto].
Qed.

Definition parse_step (cache_dict : Dict.t string) (cache_var : string)
    : Result (Dict.t string) :=
  match Str.split_sep equals cache_var with
  | name :: value :: _ => Ok (Dict.set cache_dict name value)
  | _ => Raise IndexError
  end.

Lemma parse_by_steps (cache_variables : list string) :
  parse_cache_variables cache_variables
  = foldM parse_step cache_variables (Dict.empty string).
Proof. reflexivity. Qed.

Lemma parse_fold_plain (pairs acc : list (string * string)) :
  forallb plain pairs = true ->
  NoDup (Dict.keys acc ++ map fst pairs) ->
  foldM parse_step (map assignment pairs) acc = Ok (acc ++ pairs).
Proof.
  revert acc. induction pairs as [|kv pairs IH]; intros acc Hplain Hnd; simpl.
  - now rewrite app_nil_r.
  - simpl in Hplain. apply andb_true_iff in Hplain as [Hkv Hplain].
    unfold parse_step at 1. rewrite (split_assignment kv Hkv). cbn [bind].
    simpl in Hnd. pose proof (NoDup_remove_2 _ _ _ Hnd) as Hnotin.
    rewrite set_new by (intros Hin; apply Hnotin; apply in_or_app; now left).
    rewrite IH; [| assumption |].
    + rewrite <- app_assoc. now destruct kv.
    + unfold Dict.keys in *. rewrite map_app, <- app_assoc. simpl. exact Hnd.
Qed.

(** Variables of the form [name=value], with no [=] inside a name or a
    value and no name twice, come out of the command line and go to
    [configure] unchanged: the arguments of the request are the variables,
    each after [-D], in their order. *)
Theorem cache_variables_round_trip (pairs : list (string * string)) :
  forallb plain pairs = true ->
  NoDup (map fst pairs) ->
  parse_cache_variables (map assignment pairs) = Ok pairs
  /\ Session.cache_arguments pairs = map (fun kv => Str.cat "-D" (assignment kv)) pairs.
Proof.
  intros Hplain Hnd. split.
  - rewrite parse_by_steps. exact (parse_fold_plain pairs [] Hplain Hnd).
  - unfold Session.cache_arguments, Dict.items, assignment. apply map_ext.
    intros [k v]. reflexivity.
Qed.

Lemma cache_variables_round_trip_witness :
  parse_cache_variables ["CMAKE_BUILD_TYPE=Release"; "BUILD_TESTING=OFF"]
  = Ok [("CMAKE_BUILD_TYPE", "Release"); ("BUILD_TESTING", "OFF")]
  /\ Session.cache_arguments [("CMAKE_BUILD_TYPE", "Release"); ("BUILD_TESTING", "OFF")]
     = ["-DCMAKE_BUILD_TYPE=Release"; "-DBUILD_TESTING=OFF"].
Proof.
  refine (@cache_variables_round_trip
            [("CMAKE_BUILD_TYPE", "Release"); ("BUILD_TESTING", "OFF")] eq_refl _).
  repeat constructor; simpl; intuition discriminate.
Defined.

Lemma parse_step_raises (cache_dict : Dict.t string) (cache_var : string) (e : exn) :
  parse_step cache_dict cache_var = Raise e -> e = IndexError.
Proof.
  unfold parse_step. destruct (Str.split_sep equals cache_var) as [|a [|b l]]; congruence.
Qed.

(** A variable without [=] anywhere among the variables of the command
    line makes the loop raise [IndexError]: no variable is passed on, also
    not the well-formed ones before it. *)
Theorem cache_variable_without_equals (cache_variables : list string) (cache_var : string) :
  In cache_var cache_variables ->
  has_char equals cache_var = false ->
  parse_cache_variables cache_variables = Raise IndexError.
Proof.
  rewrite parse_by_steps. generalize (Dict.empty string).
  induction cache_variables as [|v vs IH]; intros acc Hin Hplain; [contradiction|].
  simpl. destruct (parse_step acc v) as [acc'|e] eqn:E.
  - cbn. destruct Hin as [->|Hin]; [|now apply IH].
    unfold parse_step, Str.split_sep in E.
    rewrite split_sep_from_plain in E by assumption. discriminate.
  - cbn. now rewrite (parse_step_raises _ _ E).
Qed.

Lemma cache_variable_without_equals_witness :
  parse_cache_variables ["CMAKE_BUILD_TYPE=Release"; "VERBOSE"] = Raise IndexError.
Proof.
  apply (@cache_variable_without_equals ["CMAKE_BUILD_TYPE=Release"; "VERBOSE"] "VERBOSE").
  - right. left. reflexivity.
  - reflexivity.
Defined.

(** Of a variable [name=value=more] the text from the second [=] on is
    dropped: it is taken for [name=value]. *)
Theorem cache_variable_second_equals (name value more : string) :
  plain (name, value) = true ->
  parse_cache_variables
    [Str.cat (assignment (name, value)) (String equals more)]
  = Ok [(name, value)].
Proof.
  rewrite parse_by_steps.
  unfold plain, assignment, parse_step, Str.split_sep. cbn [fst snd foldM].
  intros H. apply andb_true_iff in H as [Hk Hv]. apply negb_true_iff in Hk, Hv.
  rewrite cat_assoc. change (Str.cat (String equals value) (String equals more))
    with (String equals (Str.cat value (String equals more))).
  rewrite split_sep_from_at by assumption.
  rewrite split_sep_from_at by assumption. reflexivity.
Qed.

Lemma cache_variable_second_equals_witness :
  parse_cache_variables ["CMAKE_CXX_FLAGS=-DLEVEL=3"] = Ok [("CMAKE_CXX_FLAGS", "-DLEVEL")].
Proof.
  exact (@cache_variable_second_equals "CMAKE_CXX_FLAGS" "-DLEVEL" "3" eq_refl).
Defined.

(** ** File types and default flags *)

(** Every C header extension of the options is also a C++ source, C++
    header or C source extension, as [.h] is with the default options. *)
Definition c_headers_shadowed (opts : Options) : bool :=
  forallb (fun ext => in_set ext (cpp_source_extensions opts)
                      || in_set ext (cpp_header_extensions opts)
                      || in_set ext (c_source_extensions opts))
    (c_header_extensions opts).

Lemma in_set_In (x : string) (xs : list string) : in_set x xs = true -> In x xs.
Proof.
  unfold in_set. intros H. apply existsb_exists in H as (y & Hin & Heq).
  apply String.eqb_eq in Heq. now subst.
Qed.

(** With such options, as with the default ones, [file_type] never
    answers [C_HEADER]: the three tests before the one on the C header
    extensions catch every path. *)
Theorem file_type_never_c_header (opts : Options) (filepath : string) :
  c_headers_shadowed opts = true ->
  file_type opts filepath <> Some C_HEADER.
Proof.
  unfold c_headers_shadowed, file_type. intros Hshadow.
  destruct (in_set _ (cpp_source_extensions opts)) eqn:E1; [discriminate|].
  destruct (in_set _ (cpp_header_extensions opts)) eqn:E2; [discriminate|].
  destruct (in_set _ (c_source_extensions opts)) eqn:E3; [discriminate|].
  destruct (in_set _ (c_header_extensions opts)) eqn:E4; [|discriminate].
  exfalso. rewrite forallb_forall in Hshadow.
  specialize (Hshadow _ (in_set_In _ _ E4)). now rewrite E1, E2, E3 in Hshadow.
Qed.

Lemma file_type_never_c_header_witness :
  file_type DEFAULT_VALUES "/src/include/api.h" <> Some C_HEADER
  /\ file_type DEFAULT_VALUES "/src/include/api.h" = Some CPP_HEADER.
Proof.
  split; [|reflexivity].
  exact (@file_type_never_c_header DEFAULT_VALUES "/src/include/api.h" eq_refl).
Defined.

(** The default C flags are given to a path with a C source extension
    only.  A path [file_type] takes for a C header gets no default flag at
    all, and a record whose language is C does not count: unless the
    record says [CXX], the flags are those of the extension. *)
Theorem default_flags_by_extension (opts : Options) (abs_filename : string)
    (info : option File.t) :
  lang_is "CXX" info = false ->
  get_default_flags opts abs_filename info = get_default_flags opts abs_filename None
  /\ (file_type opts abs_filename = Some C_HEADER ->
      get_default_flags opts abs_filename info = [])
  /\ (file_type opts abs_filename = Some C_SOURCE ->
      get_default_flags opts abs_filename info = default_c_flags opts)
  /\ (file_type opts abs_filename = None ->
      get_default_flags opts abs_filename info = []).
Proof.
  unfold get_default_flags. intros ->. cbn [lang_is].
  repeat split; intros ->; reflexivity.
Qed.

(** Options that tell C headers from C++ headers. *)
Definition strict_options : Options :=
  {| default_cpp_flags := default_cpp_flags DEFAULT_VALUES;
     default_c_flags := default_c_flags DEFAULT_VALUES;
     cpp_source_extensions := cpp_source_extensions DEFAULT_VALUES;
     c_source_extensions := [".c"];
     cpp_header_extensions := [".hpp"; ".hxx"];
     c_header_extensions := [".h"] |}.

Definition c_record (path : string) : File.t :=
  {| File.path := path; File.target_name := "lib";
     File.tree_root_dir := "/src"; File.tree_build_dir := "/src/build";
     File.lang := Some "C"; File.heuristics := false;
     File.other_flags := []; File.defines := []; File.includes := []; File.flags := [];
     File.object_file := None; File.source_file := None; File.header_file := None |}.

Lemma default_flags_by_extension_witness :
  get_default_flags strict_options "/src/api.h" (Some (c_record "/src/api.h")) = []
  /\ get_default_flags strict_options "/src/gen.cpp" (Some (c_record "/src/gen.cpp"))
     = default_cpp_flags strict_options.
Proof.
  split.
  - exact (proj1 (proj2 (@default_flags_by_extension strict_options "/src/api.h"
                           (Some (c_record "/src/api.h")) eq_refl)) eq_refl).
  - exact (eq_trans
             (proj1 (@default_flags_by_extension strict_options "/src/gen.cpp"
                       (Some (c_record "/src/gen.cpp")) eq_refl))
             eq_refl).
Defined.

(** ** Queries without a build directory *)

(** Without a build directory [get_file_info] asks the first index only.
    A file that a later index knows, while the first neither knows it nor
    has a target with files in its directory, is answered [None] and no
    index changes; with the build directory of that later index the record
    is returned. *)
Theorem get_file_info_asks_first_index (env : Env) (first_dir dir filename : string)
    (first other : Index.t) (rest : Dict.t Index.t) (record : File.t) :
  Dict.get (Index._files first) (abspath env filename) = None ->
  all_records (Index._targets first) = true ->
  owners (Path.dirname (abspath env filename)) (Index._targets first) = [] ->
  dir <> first_dir ->
  Dict.get rest dir = Some other ->
  Dict.get (Index._files other) (abspath env filename) = Some record ->
  let indexes := (first_dir, first) :: rest in
  get_file_info env indexes filename None = (Ok None, indexes)
  /\ fst (get_file_info env indexes filename (Some dir)) = Ok (Some record).
Proof.
  intros Hfirst Hrecords Howners Hdir Hother Hrecord indexes. subst indexes. split.
  - unfold get_file_info, query_file, get_file_info_for_directory. rewrite Hfirst.
    rewrite targets_in_directory_owners by assumption. rewrite Howners. reflexivity.
  - unfold get_file_info. cbn [Dict.get].
    destruct (String.eqb dir first_dir) eqn:E; [apply String.eqb_eq in E; congruence|].
    rewrite Hother. unfold query_file. now rewrite Hrecord.
Qed.

Lemma get_file_info_asks_first_index_witness :
  let indexes := [("/src/build", Demo.index); ("/src2/build", Shared.index)] in
  get_file_info Demo.env indexes "/src/b/foo.cpp" None = (Ok None, indexes)
  /\ option_map File.path
       (match fst (get_file_info Demo.env indexes "/src/b/foo.cpp" (Some "/src2/build")) with
        | Ok found => found
        | Raise _ => None
        end)
     = Some "/src/b/foo.cpp".
Proof.
  intros indexes.
  destruct (Dict.get (Index._files Shared.index) "/src/b/foo.cpp") as [record|] eqn:E;
    [|discriminate E].
  destruct (@get_file_info_asks_first_index Demo.env "/src/build" "/src2/build"
              "/src/b/foo.cpp" Demo.index Shared.index
              [("/src2/build", Shared.index)] record
              eq_refl eq_refl eq_refl ltac:(discriminate) eq_refl E) as [Hnone Hsome].
  split; [exact Hnone|]. fold indexes in Hsome. rewrite Hsome.
  vm_compute in E. injection E as <-. reflexivity.
Defined.

End PluginFacts.
